(** * Lead scraper backend: the enrichment and discovery pipeline of
    [lead-scraper-backend/server.js], embedded in Rocq.

    JavaScript objects are finite maps from property names to values.
    Numbers are binary64 doubles: the sums and quotients that the server
    computes (the center of an area, the quota of a polygon) are rounded
    to nearest, and the numbers that a lead carries are finite.  A draw of
    [Math.random] is a rational from 0 up to 1, and
    [Math.floor(Math.random() * k)] is the floor of the product.
    Asynchronous calls are run in sequence, the answers of the remote
    services, of the clock and of [Math.random] are inputs, and the
    requests and delays a call performs are recorded in a trace. *)

From Stdlib Require Import QArith Qcanon Qround Qpower Lqa.
From stdpp Require Import gmap strings list fin_maps pretty.

Local Open Scope string_scope.
Local Open Scope list_scope.
Local Open Scope nat_scope.

(** ** JavaScript values

    An object value lists its properties in order, each name once, as
    [JSON.parse] leaves them. *)

#[local] Unset Elimination Schemes.
Inductive value :=
| VUndefined
| VNull
| VBool (b : bool)
| VNum (q : Qc)
| VStr (s : string)
| VArr (xs : list value)
| VObj (kvs : list (string * value)).
#[local] Set Elimination Schemes.

(** An object read from JSON or built by an object literal. *)
Abbreviation obj := (gmap string value).

(** [o.k]: a missing property reads as [undefined]. *)
Definition get (k : string) (o : obj) : value := default VUndefined (o !! k).

(** [{...a, ...b}]: the properties of [b] win. *)
Definition spread (a b : obj) : obj := b ∪ a.

(** ToBoolean. *)
Definition truthy (v : value) : bool :=
  match v with
  | VUndefined | VNull => false
  | VBool b => b
  | VNum q => bool_decide (q ≠ 0%Qc)
  | VStr s => bool_decide (s ≠ "")
  | VArr _ | VObj _ => true
  end.

(** [a || b]. *)
Definition or_else (a b : value) : value := if truthy a then a else b.

(** What a call does: it returns or it throws. *)
Inductive outcome (A : Type) :=
| Returned (a : A)
| Thrown (message : string).
Arguments Returned {A} a.
Arguments Thrown {A} message.

#[global] Instance outcome_ret : MRet outcome := λ A a, Returned a.

#[global] Instance outcome_bind : MBind outcome := λ A B k m,
  match m with
  | Returned a => k a
  | Thrown e => Thrown e
  end.

(** ** Numbers

    A number is a binary64 double: a rational that the format holds, an
    infinity or NaN.  The sign of a zero is not modelled. *)
Inductive number :=
| Fin (q : Qc)
| PosInf
| NegInf
| NaN.

(** The exponent of a positive rational: the [e] with [2^e <= x < 2^(e+1)]. *)
Definition Qlog2 (x : Q) : Z :=
  let e := (Z.log2 (Qnum x) - Z.log2 (Zpos (Qden x)))%Z in
  if Qle_bool (2 ^ e) x then e else (e - 1)%Z.

(** The nearest integer, the even one of two at the same distance. *)
Definition round_even (t : Q) : Z :=
  let f := Qfloor t in
  match (t - inject_Z f ?= 1 # 2)%Q with
  | Lt => f
  | Gt => (f + 1)%Z
  | Eq => if Z.even f then f else (f + 1)%Z
  end.

(** The distance between the doubles around a positive rational: 52 bits
    below its exponent, and 2^-1074 among the subnormal numbers. *)
Definition ulp (x : Q) : Q := (2 ^ (Z.max (Qlog2 x) (-1022) - 52))%Q.

(** The multiple of [ulp x] nearest to a positive rational, ties to even. *)
Definition nearest (x : Q) : Q := (inject_Z (round_even (x / ulp x)) * ulp x)%Q.

(** The double that an exact result is rounded to (round to nearest, ties
    to even; an infinity from 2^1024 on). *)
Definition round64 (x : Q) : number :=
  match (x ?= 0)%Q with
  | Eq => Fin 0%Qc
  | Gt => if Qle_bool (2 ^ 1024) (nearest x) then PosInf else Fin (Q2Qc (nearest x))
  | Lt => if Qle_bool (2 ^ 1024) (nearest (- x)) then NegInf
          else Fin (Q2Qc (- nearest (- x)))
  end.

(** [a + b] *)
Definition jsadd (a b : number) : number :=
  match a, b with
  | Fin x, Fin y => round64 (x + y)
  | NaN, _ | _, NaN => NaN
  | PosInf, NegInf | NegInf, PosInf => NaN
  | PosInf, _ | _, PosInf => PosInf
  | NegInf, _ | _, NegInf => NegInf
  end.

(** [a / b]; a zero divisor is the positive zero (the divisors of the
    server are lengths, counts and 2). *)
Definition jsdiv (a b : number) : number :=
  match a, b with
  | NaN, _ | _, NaN => NaN
  | Fin x, Fin y =>
    if decide (y = 0%Qc) then
      if decide (x = 0%Qc) then NaN
      else if decide (0 < x)%Qc then PosInf else NegInf
    else round64 (x / y)
  | Fin _, _ => Fin 0%Qc
  | PosInf, Fin y => if decide (0 <= y)%Qc then PosInf else NegInf
  | NegInf, Fin y => if decide (0 <= y)%Qc then NegInf else PosInf
  | _, _ => NaN
  end.

(** [xs.length] as a number. *)
Definition length_num {A} (xs : list A) : Qc := Qc_of_Z (Z.of_nat (List.length xs)).

(** ** Geometry resolver *)

Record LatLng := { lat : Qc; lng : Qc }.

Record Bounds := { north : Qc; south : Qc; east : Qc; west : Qc }.

(** A search area as the request body carries it: the [type] tag and the
    fields of the shapes.  Only the fields of the tagged shape are read. *)
Record SearchArea := {
  type : string;
  center : LatLng;
  radius : Qc;
  bounds : Bounds;
  coordinates : list LatLng;
  polygons : list (list LatLng)
}.

Record Point := { plat : number; plng : number }.

Definition point_of (c : LatLng) : Point :=
  {| plat := Fin (lat c); plng := Fin (lng c) |}.

(** The accumulators of the nested [forEach] of the multipolygon case. *)
Record Totals := { totalLat : number; totalLng : number; totalPoints : number }.

Definition add_coord (t : Totals) (coord : LatLng) : Totals :=
  {| totalLat := jsadd (totalLat t) (Fin (lat coord));
     totalLng := jsadd (totalLng t) (Fin (lng coord));
     totalPoints := jsadd (totalPoints t) (Fin 1%Qc) |}.

Definition calculateAreaCenter (area : SearchArea) : option Point :=
  if String.eqb (type area) "circle" then
    Some (point_of (center area))
  else if String.eqb (type area) "rectangle" then
    Some {| plat := jsdiv (jsadd (Fin (north (bounds area))) (Fin (south (bounds area))))
                      (Fin 2%Qc);
            plng := jsdiv (jsadd (Fin (east (bounds area))) (Fin (west (bounds area))))
                      (Fin 2%Qc) |}
  else if String.eqb (type area) "polygon" || String.eqb (type area) "polyline" then
    let coords := coordinates area in
    let sumLat := fold_left (λ sum c, jsadd sum (Fin (lat c))) coords (Fin 0%Qc) in
    let sumLng := fold_left (λ sum c, jsadd sum (Fin (lng c))) coords (Fin 0%Qc) in
    Some {| plat := jsdiv sumLat (Fin (length_num coords));
            plng := jsdiv sumLng (Fin (length_num coords)) |}
  else if String.eqb (type area) "multipolygon" then
    let t := fold_left (λ t polygon, fold_left add_coord polygon t)
               (polygons area)
               {| totalLat := Fin 0%Qc; totalLng := Fin 0%Qc; totalPoints := Fin 0%Qc |} in
    Some {| plat := jsdiv (totalLat t) (totalPoints t);
            plng := jsdiv (totalLng t) (totalPoints t) |}
  else None.

(** [Math.ceil(maxLeads / area.polygons.length)], computed only where
    [area.polygons.length > 0] has been checked: the quotient of a double
    by a positive length is finite, and so is its ceiling. *)
Definition leadsPerPolygon (maxLeads : Z) (count : nat) : Z :=
  match jsdiv (Fin (Qc_of_Z maxLeads)) (Fin (Qc_of_Z (Z.of_nat count))) with
  | Fin q => Qceiling q
  | _ => 0%Z
  end.

(** ** Built-in functions of the JavaScript runtime

    The string and number built-ins the server calls are not code of the
    server; the development is parametric in them. *)

Class Builtins := {
  (** [s.trim()] *)
  trim : string → string;
  (** [s.toLowerCase()] *)
  toLowerCase : string → string;
  (** [s.replace(/\s+/g, r)] *)
  replace_whitespace : string → string → string;
  (** [s.includes(t)] *)
  includes : string → string → bool;
  (** the text of a number in a template literal *)
  number_to_string : number → string;
  (** [x.toFixed(4)] *)
  toFixed4 : number → string;
  (** the text of an array or object in a template literal *)
  object_to_string : value → string;
  (** [JSON.stringify(v)] *)
  JSON_stringify : value → string
}.

(** ** Removing duplicates in a multi-polygon search *)

(** The key comparison of a JavaScript [Set] (SameValueZero).  Arrays and
    objects compare by reference; the identifiers of two leads never are
    the same reference, since each lead is built from its own record. *)
Definition sameValueZero (a b : value) : bool :=
  match a, b with
  | VUndefined, VUndefined => true
  | VNull, VNull => true
  | VBool x, VBool y => bool_decide (x = y)
  | VNum x, VNum y => bool_decide (x = y)
  | VStr x, VStr y => bool_decide (x = y)
  | _, _ => false
  end.

(** [seen.has(v)], the set being kept in insertion order. *)
Definition set_has (seen : list value) (v : value) : bool :=
  existsb (sameValueZero v) seen.

Definition placeId (result : obj) : value := get "placeId" result.

Record Dedup := { uniqueResults : list obj; seenPlaceIds : list value }.

(** One turn of [for (const result of allResults)]. *)
Definition dedup_step (st : Dedup) (result : obj) : Dedup :=
  if truthy (placeId result) && negb (set_has (seenPlaceIds st) (placeId result)) then
    {| uniqueResults := uniqueResults st ++ [result];
       seenPlaceIds := seenPlaceIds st ++ [placeId result] |}
  else st.

Definition removeDuplicates (allResults : list obj) : list obj :=
  uniqueResults
    (fold_left dedup_step allResults {| uniqueResults := []; seenPlaceIds := [] |}).

(** [xs.slice(0, n)] for an integer [n]: a negative [n] counts from the end. *)
Definition slice0 {A} (xs : list A) (n : Z) : list A :=
  if decide (n < 0)%Z then take (Z.to_nat (Z.of_nat (List.length xs) + n)) xs
  else take (Z.to_nat n) xs.

(** Lines 698-710: the results of all polygons, deduplicated and limited. *)
Definition finalResults (allResults : list obj) (maxLeads : Z) : list obj :=
  slice0 (removeDuplicates allResults) maxLeads.

(** ** Place search adapter *)

(** A raw candidate of the text search; only its identifier is read. *)
Record Place := { place_id : value }.

Record TextSearchData := {
  status : string;
  results : list Place;
  next_page_token : option string
}.

(** An awaited request either rejects (network error, non-2xx) or resolves. *)
Inductive http (A : Type) :=
| Rejected (message : string)
| Resolved (data : A).
Arguments Rejected {A} message.
Arguments Resolved {A} data.

(** The [params] of a text-search request (the key apart). *)
Record SearchParams := {
  sp_query : option string;
  sp_locationbias : option string;
  sp_radius : option Qc;
  sp_pagetoken : option string
}.

(** The answer to a details request: its status and the lead fields that
    lines 220-271 compute from its result. *)
Record DetailsData := { details_status : string; details_fields : obj }.

(** The provider, as one call sees it: the answer to the n-th text-search
    request and to the details request of the i-th candidate.  A details
    answer is [Rejected] when the request or the mapping of its result
    throws. *)
Record PlacesApi := {
  textSearch : nat → SearchParams → http TextSearchData;
  placeDetails : nat → value → http DetailsData
}.

(** What a place search does, in order: the text-search request of a
    page, the details request of a candidate, a delay. *)
Inductive event :=
| TextSearch (page : nat) (params : SearchParams)
| PlaceDetails (id : value)
| Delay (ms : nat).

(** Truthiness of an optional string: [null], [undefined] and [""] are falsy. *)
Definition some_text (o : option string) : bool :=
  match o with
  | Some s => bool_decide (s ≠ "")
  | None => false
  end.

Definition text_of (o : option string) : string := default "" o.

Definition maxPages : nat := 3.

(** [status !== 'OK' && status !== 'ZERO_RESULTS'] *)
Definition bad_status (data : TextSearchData) : bool :=
  negb (String.eqb (status data) "OK")
  && negb (String.eqb (status data) "ZERO_RESULTS").

(** Lines 141-148: a request that follows a continuation token carries
    the token only. *)
Definition requestParams (params : SearchParams) (nextPageToken : option string)
    : SearchParams :=
  if some_text nextPageToken then
    {| sp_query := None; sp_locationbias := None; sp_radius := None;
       sp_pagetoken := nextPageToken |}
  else params.

Section place_search.
Context `{Builtins}.
Variable api : PlacesApi.

Definition effectiveQuery (query : string) : string :=
  if String.eqb (toLowerCase query) "all" || String.eqb (toLowerCase query) "any"
  then "business" else query.

Definition searchQuery (query : string) (location zipcode country : option string) : string :=
  let q := if some_text location
           then effectiveQuery query +:+ " in " +:+ text_of location
           else effectiveQuery query in
  let q := if some_text zipcode then q +:+ " " +:+ text_of zipcode else q in
  if some_text country then q +:+ " " +:+ text_of country else q.

Definition locationBias (area : option SearchArea) : option string :=
  match area with
  | Some a =>
    if bool_decide (type a ≠ "") then
      match calculateAreaCenter a with
      | Some center =>
        Some ("point:" +:+ number_to_string (plat center) +:+ ","
                +:+ number_to_string (plng center))
      | None => None
      end
    else None
  | None => None
  end.

Definition searchRadius (area : option SearchArea) : Qc :=
  match area with
  | Some a =>
    if bool_decide (radius a ≠ 0%Qc)
    then (if decide (radius a < Qc_of_Z 50000)%Qc then radius a else Qc_of_Z 50000)
    else Qc_of_Z 5000
  | None => Qc_of_Z 5000
  end.

Definition searchParams (query : string) (location : option string)
    (area : option SearchArea) (zipcode country : option string) : SearchParams :=
  match locationBias area with
  | Some bias =>
    {| sp_query := Some (searchQuery query location zipcode country);
       sp_locationbias := Some bias;
       sp_radius := Some (searchRadius area);
       sp_pagetoken := None |}
  | None =>
    {| sp_query := Some (searchQuery query location zipcode country);
       sp_locationbias := None; sp_radius := None; sp_pagetoken := None |}
  end.

(** The body of the [do ... while] loop of lines 137-193, one turn per
    unit of [fuel]; [None] when the fuel runs out before the loop ends. *)
Fixpoint fetch_pages (fuel : nat) (params : SearchParams) (maxLeads : Z)
    (allPlaces : list Place) (nextPageToken : option string) (pageCount : nat)
    : list event * option (outcome (list Place)) :=
  match fuel with
  | O => ([], None)
  | S fuel =>
    let pageCount := S pageCount in
    let request := TextSearch pageCount (requestParams params nextPageToken) in
    match textSearch api pageCount (requestParams params nextPageToken) with
    | Rejected message => ([request], Some (Thrown message))
    | Resolved data =>
      if bad_status data then
        if bool_decide (0 < List.length allPlaces) then
          ([request], Some (Returned allPlaces))
        else
          ([request], Some (Thrown ("Google Places API error: " +:+ status data)))
      else if bool_decide (List.length (results data) = 0) then
        ([request], Some (Returned allPlaces))
      else
        let allPlaces := allPlaces ++ results data in
        let nextPageToken := next_page_token data in
        if bool_decide (maxLeads ≤ Z.of_nat (List.length allPlaces))%Z then
          ([request], Some (Returned allPlaces))
        else if bool_decide (maxPages ≤ pageCount) then
          ([request], Some (Returned allPlaces))
        else
          let waited := if some_text nextPageToken then [Delay 2000] else [] in
          if some_text nextPageToken
             && bool_decide (Z.of_nat (List.length allPlaces) < maxLeads)%Z then
            let '(later, r) :=
              fetch_pages fuel params maxLeads allPlaces nextPageToken pageCount in
            (request :: waited ++ later, r)
          else
            (request :: waited, Some (Returned allPlaces))
    end
  end.

(** The lead literal of lines 257-275: the mapped fields, then the
    identifier of the candidate and the source label. *)
Definition place_lead (place : Place) (d : DetailsData) : obj :=
  <["source" := VStr "Google Places API"]>
    (<["placeId" := place_id place]> (details_fields d)).

(** [for (const place of places)], lines 205-288: a failing details
    request is caught and skips the candidate and its delay. *)
Fixpoint fetch_details (i : nat) (places : list Place) (results : list obj)
    : list event * list obj :=
  match places with
  | [] => ([], results)
  | place :: rest =>
    match placeDetails api i (place_id place) with
    | Rejected _ =>
      let '(later, r) := fetch_details (S i) rest results in
      (PlaceDetails (place_id place) :: later, r)
    | Resolved d =>
      let results :=
        if String.eqb (details_status d) "OK"
        then results ++ [place_lead place d] else results in
      let '(later, r) := fetch_details (S i) rest results in
      (PlaceDetails (place_id place) :: Delay 100 :: later, r)
    end
  end.

(** [scrapeGoogleMaps(query, location, area, zipcode, country, maxLeads)];
    [apiKey] is [process.env.GOOGLE_PLACES_API_KEY]. *)
Definition scrapeGoogleMaps (apiKey : option string) (query : string)
    (location : option string) (area : option SearchArea)
    (zipcode country : option string) (maxLeads : Z)
    : list event * option (outcome (list obj)) :=
  let failed message :=
    Thrown ("Failed to fetch data from Google Places API: " +:+ message) in
  if negb (some_text apiKey) then
    ([], Some (failed "Google Places API key not configured"))
  else
    let params := searchParams query location area zipcode country in
    match fetch_pages maxPages params maxLeads [] None 0 with
    | (pages, None) => (pages, None)
    | (pages, Some (Thrown message)) => (pages, Some (failed message))
    | (pages, Some (Returned allPlaces)) =>
      if bool_decide (List.length allPlaces = 0) then (pages, Some (Returned []))
      else
        let places := slice0 allPlaces maxLeads in
        let '(lookups, results) := fetch_details 0 places [] in
        (pages ++ lookups, Some (Returned results))
    end.
End place_search.

(** ** Area search: [POST /api/scrape-area] *)

Inductive response (A : Type) :=
| Status400 (error : string)
| Status500 (message : string)
| Status200 (body : A).
Arguments Status400 {A} error.
Arguments Status500 {A} message.
Arguments Status200 {A} body.

(** What the handler does, in order: reverse geocoding of a center, one
    place search with the arguments it is given (and the requests it
    performs), a delay between two polygons. *)
Inductive area_event :=
| Geocode (center : Point)
| Search (location : option string) (area : SearchArea) (maxLeads : Z)
         (inner : list event)
| Pause (ms : nat).

(** The services as the handler sees them: the answer of the i-th reverse
    geocoding ([null] or a string) and the provider during the i-th place
    search. *)
Record AreaServices := {
  reverseGeocode : nat → Point → option string;
  places_of : nat → PlacesApi
}.

(** The body of a successful response; the fields that only one of the
    two branches sends are [None] in the other. *)
Record AreaBody := {
  body_results : list obj;
  body_count : nat;
  detectedLocations : option (list (option string));
  detectedLocation : option string;
  polygonsSearched : option nat;
  totalResultsBeforeDedup : option nat
}.

(** [{ type: 'polygon', coordinates: polygon }]; the fields the literal
    does not have are never read for a polygon, except [radius], which
    reads as a falsy value. *)
Definition singlePolygonArea (polygon : list LatLng) : SearchArea :=
  {| type := "polygon";
     center := {| lat := 0%Qc; lng := 0%Qc |};
     radius := 0%Qc;
     bounds := {| north := 0%Qc; south := 0%Qc; east := 0%Qc; west := 0%Qc |};
     coordinates := polygon;
     polygons := [] |}.

Section area_search.
Context `{Builtins}.
Variable services : AreaServices.
Variable apiKey : option string.

(** Lines 663-677 and 732-744: the location text of an area. *)
Definition locate (i : nat) (area : SearchArea)
    : list area_event * option (option string) * outcome string :=
  match calculateAreaCenter area with
  | Some center =>
    let location := reverseGeocode services i center in
    ([Geocode center], Some location,
     if some_text location then Returned (text_of location)
     else Returned (toFixed4 (plat center) +:+ ", " +:+ toFixed4 (plng center)))
  | None =>
    ([], None, Thrown "Cannot read properties of null (reading 'lat')")
  end.

(** [for (let i = 0; i < area.polygons.length; i++)], lines 653-696;
    [count] is [area.polygons.length]. *)
Fixpoint search_polygons (i count : nat) (rest : list (list LatLng))
    (query : string) (zipcode country : option string) (leadsPerPolygon : Z)
    (allResults : list obj) (detected : list (option string))
    : list area_event * option (outcome (list obj * list (option string))) :=
  match rest with
  | [] => ([], Some (Returned (allResults, detected)))
  | polygon :: rest =>
    let area := singlePolygonArea polygon in
    let '(geocoding, found, location) := locate i area in
    let detected := match found with Some l => detected ++ [l] | None => detected end in
    match location with
    | Thrown message => (geocoding, Some (Thrown message))
    | Returned location =>
      let '(inner, r) :=
        scrapeGoogleMaps (places_of services i) apiKey query (Some location)
          (Some area) zipcode country leadsPerPolygon in
      let search := Search (Some location) area leadsPerPolygon inner in
      match r with
      | None => (geocoding ++ [search], None)
      | Some (Thrown message) => (geocoding ++ [search], Some (Thrown message))
      | Some (Returned polygonResults) =>
        let allResults := allResults ++ polygonResults in
        let pause := if bool_decide (i < count - 1) then [Pause 500] else [] in
        let '(later, r) :=
          search_polygons (S i) count rest query zipcode country leadsPerPolygon
            allResults detected in
        (geocoding ++ search :: pause ++ later, r)
      end
    end
  end.

(** The handler; [allResults] of the multi-polygon branch is returned
    next to the response so that properties can refer to it. *)
Definition scrape_area (query : option string) (area : option SearchArea)
    (zipcode country : option string) (maxLeads : Z)
    : list area_event * option (response AreaBody) * list obj :=
  match area with
  | Some area =>
    if negb (some_text query) then
      ([], Some (Status400 "Both query and area are required"), [])
    else if String.eqb (type area) "multipolygon"
            && bool_decide (0 < List.length (polygons area)) then
      let count := List.length (polygons area) in
      match search_polygons 0 count (polygons area) (text_of query) zipcode country
              (leadsPerPolygon maxLeads count) [] [] with
      | (tr, None) => (tr, None, [])
      | (tr, Some (Thrown message)) => (tr, Some (Status500 message), [])
      | (tr, Some (Returned (allResults, detected))) =>
        let final := finalResults allResults maxLeads in
        (tr,
         Some (Status200
           {| body_results := final;
              body_count := List.length final;
              detectedLocations := Some detected;
              detectedLocation := None;
              polygonsSearched := Some count;
              totalResultsBeforeDedup := Some (List.length allResults) |}),
         allResults)
      end
    else
      let '(geocoding, found, location) := locate 0 area in
      match location with
      | Thrown message => (geocoding, Some (Status500 message), [])
      | Returned location =>
        let limit := if bool_decide (maxLeads ≠ 0%Z) then maxLeads else 10%Z in
        let '(inner, r) :=
          scrapeGoogleMaps (places_of services 0) apiKey (text_of query)
            (Some location) (Some area) zipcode country limit in
        let tr := geocoding ++ [Search (Some location) area limit inner] in
        match r with
        | None => (tr, None, [])
        | Some (Thrown message) => (tr, Some (Status500 message), [])
        | Some (Returned results) =>
          (tr,
           Some (Status200
             {| body_results := results;
                body_count := List.length results;
                detectedLocations := None;
                detectedLocation := Some location;
                polygonsSearched := None;
                totalResultsBeforeDedup := None |}),
           results)
        end
      end
  | None => ([], Some (Status400 "Both query and area are required"), [])
  end.
End area_search.

(** ** AI verification adapters *)

(** What one call to a language model comes to: the request fails (or the
    reply has no text), [JSON.parse] throws on the extracted text, or it
    yields a value. *)
Inductive llm_reply :=
| CallFails
| ParseFails
| Parsed (parsed : value).

(** The two keys of [process.env] and the two models; a reply may depend on
    the lead the prompt is built from. *)
Record AiServices := {
  OPENAI_API_KEY : option string;
  ANTHROPIC_API_KEY : option string;
  chatgpt : obj → llm_reply;
  claude : obj → llm_reply
}.

(** The own enumerable properties that [{...v}] copies.  The characters of
    a string are its bytes, which is what JavaScript has for ASCII text. *)
Definition own_props (v : value) : obj :=
  match v with
  | VObj kvs => list_to_map kvs
  | VArr xs => list_to_map (imap (λ i x, (pretty i, x)) xs)
  | VStr s =>
    list_to_map (imap (λ i c, (pretty i, VStr (String c ""))) (String.list_ascii_of_string s))
  | _ => ∅
  end.

(** [v.k] on a value that is neither [null] nor [undefined], for a
    property name that is neither an index nor built in. *)
Definition field (k : string) (v : value) : value :=
  match v with
  | VObj kvs => get k (list_to_map kvs)
  | _ => VUndefined
  end.

(** [v.k] *)
Definition prop (k : string) (v : value) : outcome value :=
  match v with
  | VUndefined | VNull => Thrown "Cannot read properties of null or undefined"
  | _ => Returned (field k v)
  end.

(** [typeof v === 'object'] *)
Definition is_object (v : value) : bool :=
  match v with
  | VNull | VArr _ | VObj _ => true
  | _ => false
  end.

(** [!key || key === placeholder] is false. *)
Definition configured (key : option string) (placeholder : string) : bool :=
  some_text key && negb (String.eqb (text_of key) placeholder).

Definition names : list string :=
  ["John Smith"; "Jane Doe"; "Mike Johnson"; "Sarah Wilson"; "David Brown"].

Definition industries : list string :=
  ["Technology"; "Healthcare"; "Finance"; "Retail"; "Manufacturing"].

(** [Math.floor(r * k)] *)
Definition floor_times (r : Qc) (k : Z) : Z := Qfloor (r * Qc_of_Z k)%Qc.

(** [xs[Math.floor(r * 5)]] *)
Definition pick (xs : list string) (r : Qc) : value :=
  let i := floor_times r 5 in
  if decide (0 ≤ i)%Z then
    match xs !! Z.to_nat i with
    | Some s => VStr s
    | None => VUndefined
    end
  else VUndefined.

Definition num (n : Z) : value := VNum (Qc_of_Z n).

Section ai.
Context `{Builtins}.
Variable ai : AiServices.
(** The successive results of [Math.random()]. *)
Variable random : nat → Qc.

(** The text of a value inside a template literal. *)
Definition to_text (v : value) : string :=
  match v with
  | VUndefined => "undefined"
  | VNull => "null"
  | VBool true => "true"
  | VBool false => "false"
  | VNum q => number_to_string (Fin q)
  | VStr s => s
  | VArr _ | VObj _ => object_to_string v
  end.

Definition verifyWithChatGPT (lead : obj) : option obj :=
  if negb (configured (OPENAI_API_KEY ai) "your_openai_api_key_here") then None
  else
    match chatgpt ai lead with
    | CallFails | ParseFails => None
    | Parsed parsed => Some (spread {["source" := VStr "ChatGPT"]} (own_props parsed))
    end.

Definition verifyWithClaude (lead : obj) : option obj :=
  if negb (configured (ANTHROPIC_API_KEY ai) "your_anthropic_claude_api_key_here")
  then None
  else
    match claude ai lead with
    | CallFails | ParseFails => None
    | Parsed parsed =>
      match prop "industry" parsed with
      | Thrown _ => None
      | Returned industry =>
        let props :=
          if truthy industry && is_object industry then
            <["industry" :=
                or_else (field "primary" industry)
                  (or_else (field "NAICS" industry)
                     (VStr (JSON_stringify industry)))]> (own_props parsed)
          else own_props parsed in
        Some (spread {["source" := VStr "Claude"]} props)
      end
    end.

(** [companyName?.toLowerCase().replace(/\s+/g, sep)] *)
Definition company_slug (sep : string) (companyName : value) : outcome value :=
  match companyName with
  | VUndefined | VNull => Returned VUndefined
  | VStr s => Returned (VStr (replace_whitespace (toLowerCase s) sep))
  | _ => Thrown "companyName.toLowerCase is not a function"
  end.

(** The mock lead of lines 438-452.  The object literal draws from
    [Math.random] in the order of its properties. *)
Definition mock_lead (lead : obj) : outcome obj :=
  let aiConfidence := num (floor_times (random 0) 20 + 80) in
  let '(ownerName, n) :=
    if truthy (get "ownerName" lead) then (get "ownerName" lead, 1)
    else (pick names (random 1), 2) in
  let '(industry, n) :=
    if truthy (get "industry" lead) then (get "industry" lead, n)
    else (pick industries (random n), S n) in
  let employeeCount :=
    pretty (floor_times (random n) 500 + 10)%Z +:+ "-"
      +:+ pretty (floor_times (random (n + 1)) 500 + 510)%Z in
  let revenue :=
    "$" +:+ pretty (floor_times (random (n + 2)) 10 + 1)%Z +:+ "M - $"
      +:+ pretty (floor_times (random (n + 3)) 10 + 11)%Z +:+ "M" in
  linkedin ← company_slug "-" (get "companyName" lead);
  facebook ←
    (if decide (Qc_of_Z 1 / Qc_of_Z 2 < random (n + 4))%Qc then
       slug ← company_slug "" (get "companyName" lead);
       mret (VStr ("facebook.com/" +:+ to_text slug))
     else mret VNull);
  mret
    (<["socialMedia" :=
         VObj [("linkedin", VStr ("linkedin.com/company/" +:+ to_text linkedin));
               ("facebook", facebook)] ]>
     (<["aiSource" := VStr "Mock Data"]>
     (<["businessDetails" :=
          VStr "Mock verification - Configure API keys for real AI verification"]>
     (<["revenue" := VStr revenue]>
     (<["employeeCount" := VStr employeeCount]>
     (<["industry" := industry]>
     (<["ownerName" := ownerName]>
     (<["aiConfidence" := aiConfidence]>
     (<["verified" := VBool true]> lead))))))))).

(** Lines 458-471: both adapters answered. *)
Definition merge_both (lead finalResult claudeResult chatGPTResult : obj) : obj :=
  <["chatGPTConfidence" := get "confidence" chatGPTResult]>
  (<["claudeConfidence" := get "confidence" claudeResult]>
  (<["aiSource" := VStr "Claude (Primary) + ChatGPT (Secondary)"]>
  (<["aiConfidence" := num 100]>
  (<["businessDetails" :=
       VStr ("Claude (Primary): " +:+ to_text (get "businessDetails" claudeResult)
             +:+ String (Ascii.ascii_of_nat 10) "ChatGPT (Secondary): "
             +:+ to_text (get "businessDetails" chatGPTResult))]>
  (<["revenue" :=
       or_else (get "revenue" claudeResult) (get "revenue" chatGPTResult)]>
  (<["employeeCount" :=
       or_else (get "employeeCount" claudeResult) (get "employeeCount" chatGPTResult)]>
  (<["industry" :=
       or_else (get "industry" claudeResult)
         (or_else (get "industry" chatGPTResult) (get "industry" lead))]>
  (<["ownerName" :=
       or_else (get "ownerName" claudeResult)
         (or_else (get "ownerName" chatGPTResult) (get "ownerName" lead))]>
     finalResult)))))))).

(** Lines 472-488: one adapter answered; its result is spread over the lead. *)
Definition merge_one (finalResult result : obj) (label : string) : obj :=
  <["aiSource" := VStr label]>
  (<["aiConfidence" := num 50]> (spread finalResult result)).

(** [claudeResult] and [chatGPTResult] of lines 423-433: an adapter is
    called only in its mode. *)
Definition claudeResult (lead : obj) (preferredAI : string) : option obj :=
  if String.eqb preferredAI "both" || String.eqb preferredAI "claude"
  then verifyWithClaude lead else None.

Definition chatGPTResult (lead : obj) (preferredAI : string) : option obj :=
  if String.eqb preferredAI "both" || String.eqb preferredAI "chatgpt"
  then verifyWithChatGPT lead else None.

(** Lines 456-488: [finalResult] once the results of the adapters that
    answered are combined. *)
Definition merged (lead : obj) (c g : option obj) : obj :=
  let finalResult := <["verified" := VBool true]> lead in
  match g, c with
  | Some g, Some c => merge_both lead finalResult c g
  | None, Some c => merge_one finalResult c "Claude (Primary)"
  | Some g, None => merge_one finalResult g "ChatGPT (Fallback)"
  | None, None => finalResult
  end.

(** [verifyLeadWithAI(lead, preferredAI)] *)
Definition verifyLeadWithAI (lead : obj) (preferredAI : string) : outcome obj :=
  match chatGPTResult lead preferredAI, claudeResult lead preferredAI with
  | None, None => mock_lead lead
  | g, c =>
    let finalResult := merged lead c g in
    linkedin ← company_slug "-" (get "companyName" finalResult);
    facebook ← company_slug "" (get "companyName" finalResult);
    mret
      (<["socialMedia" :=
           VObj [("linkedin", VStr ("linkedin.com/company/" +:+ to_text linkedin));
                 ("facebook", VStr ("facebook.com/" +:+ to_text facebook))] ]>
         finalResult)
  end.
End ai.

(** ** Manual enrichment: [POST /api/enrich-manual] *)

(** The fields of the merge of lines 967-974, in the order of the literal. *)
Definition merged_fields : list string :=
  ["companyName"; "phone"; "address"; "zipcode"; "city"; "country";
   "industry"; "ownerName"].

Section manual.
Context `{Builtins}.
Variable ai : AiServices.
Variable random : nat → Qc.

(** [v.trim()] *)
Definition method_trim (v : value) : outcome value :=
  match v with
  | VStr s => Returned (VStr (trim s))
  | VUndefined | VNull => Thrown "Cannot read properties of null or undefined"
  | _ => Thrown "trim is not a function"
  end.

(** [v?.trim()] *)
Definition optional_trim (v : value) : outcome value :=
  match v with
  | VUndefined | VNull => Returned VUndefined
  | _ => method_trim v
  end.

(** [Object.values(manualData).some(value => value && value.trim() !== '')] *)
Fixpoint hasData (values : list value) : outcome bool :=
  match values with
  | [] => Returned false
  | v :: rest =>
    if truthy v then
      t ← method_trim v;
      if sameValueZero t (VStr "") then hasData rest else Returned true
    else hasData rest
  end.

(** [scrapedResults.find(result => test(result.companyName.toLowerCase()))] *)
Fixpoint find_by_name (test : string → bool) (scrapedResults : list obj)
    : outcome (option obj) :=
  match scrapedResults with
  | [] => Returned None
  | result :: rest =>
    match get "companyName" result with
    | VStr name =>
      if test (toLowerCase name) then Returned (Some result)
      else find_by_name test rest
    | VUndefined | VNull => Thrown "Cannot read properties of null or undefined"
    | _ => Thrown "toLowerCase is not a function"
    end
  end.

(** Lines 946-960: the best match among the scraped results. *)
Definition bestMatch (manualData : obj) (first : obj) (scrapedResults : list obj)
    : outcome obj :=
  let companyName := get "companyName" manualData in
  named ←
    (if truthy companyName then t ← method_trim companyName; mret (truthy t)
     else mret false);
  if named : bool then
    let wanted := toLowerCase (to_text companyName) in
    exactMatch ← find_by_name (λ n, String.eqb n wanted) scrapedResults;
    partialMatch ←
      find_by_name (λ n, includes n wanted || includes wanted n) scrapedResults;
    mret (default (default first partialMatch) exactMatch)
  else mret first.

(** One property of the merge: [manualData.k?.trim() || bestMatch.k]. *)
Definition manual_or_scraped (manualData best : obj) (k : string) : outcome value :=
  t ← optional_trim (get k manualData);
  mret (or_else t (get k best)).

(** The eight properties of lines 967-974, evaluated in order and set on [acc]. *)
Fixpoint merge_fields (manualData best : obj) (ks : list string) (acc : obj)
    : outcome obj :=
  match ks with
  | [] => Returned acc
  | k :: ks =>
    v ← manual_or_scraped manualData best k;
    merge_fields manualData best ks (<[k := v]> acc)
  end.

(** Lines 943-985: the lead handed to AI verification.  [now0] and
    [now1] are the two readings of [Date.now()]. *)
Definition enrichedLead (manualData : obj) (scrapedResults : list obj)
    (now0 now1 : Z) : outcome obj :=
  match scrapedResults with
  | first :: _ =>
    best ← bestMatch manualData first scrapedResults;
    merged ← merge_fields manualData best merged_fields (<["id" := num now1]> best);
    mret (<["reviewCount" := get "reviewCount" best]>
          (<["rating" := get "rating" best]>
          (<["website" := get "website" best]> merged)))
  | [] =>
    mret (<["companyName" :=
              or_else (get "companyName" manualData) (VStr "Unknown Business")]>
            (<["id" := num now0]> manualData))
  end.

(** The handler.  [body] lists the properties of the request body in the
    order of [Object.values], each name once.  The three lookup
    strategies of lines 813-940 catch their own failures and leave only
    [scrapedResults] and [searchMethod] behind, which are taken as
    given. *)
Definition enrich_manual (body : list (string * value))
    (scrapedResults : list obj) (searchMethod : string) (now0 now1 : Z)
    : response obj :=
  let manualData : obj := list_to_map body in
  match hasData (body.*2) with
  | Thrown message => Status500 message
  | Returned false => Status400 "At least one field is required"
  | Returned true =>
    match
      lead ← enrichedLead manualData scrapedResults now0 now1;
      verifyLeadWithAI ai random lead "both"
    with
    | Thrown message => Status500 message
    | Returned verifiedLead =>
      let found := bool_decide (0 < List.length scrapedResults) in
      Status200
        (<["searchMethod" := VStr searchMethod]>
        (<["scrapedDataAvailable" := VBool found]>
        (<["enrichmentSource" :=
             VStr (if found then "Google Maps (" +:+ searchMethod +:+ ") + AI"
                   else "Manual + AI")]> verifiedLead)))
    end
  end.
End manual.

(** ** Reference notions used in the statements *)

(** The arithmetic mean of a list of numbers. *)
Definition mean (xs : list Qc) : Qc :=
  (foldr Qcplus 0%Qc xs / Qc_of_Z (Z.of_nat (List.length xs)))%Qc.

Definition mean_point (vertices : list LatLng) : Point :=
  {| plat := Fin (mean (lat <$> vertices)); plng := Fin (mean (lng <$> vertices)) |}.

(** A rational that is a double. *)
Definition double (q : Qc) : Prop := round64 q = Fin q.

(** The sums that adding the numbers of a list in order goes through. *)
Fixpoint sums_from (acc : Qc) (xs : list Qc) : list Qc :=
  match xs with
  | [] => []
  | x :: xs => (acc + x)%Qc :: sums_from (acc + x)%Qc xs
  end.

(** A mean that double arithmetic computes without rounding: every sum on
    the way and the mean itself are doubles. *)
Definition exact_mean (xs : list Qc) : Prop :=
  Forall double (sums_from 0%Qc xs) ∧ double (mean xs).

(** The mean as double arithmetic computes it: the numbers added in order,
    each sum rounded, and the last sum divided by the count. *)
Definition rounded_mean (xs : list Qc) : number :=
  jsdiv (fold_left (λ sum x, jsadd sum (Fin x)) xs (Fin 0%Qc)) (Fin (length_num xs)).

Definition rounded_mean_point (vertices : list LatLng) : Point :=
  {| plat := rounded_mean (lat <$> vertices); plng := rounded_mean (lng <$> vertices) |}.

(** The double that a decimal literal denotes. *)
Definition literal (q : Q) : Qc :=
  match round64 q with
  | Fin d => d
  | _ => 0%Qc
  end.


(** A company name on which [?.toLowerCase()] can be called: a string, or
    nothing. *)
Definition text_or_absent (v : value) : bool :=
  match v with
  | VUndefined | VNull | VStr _ => true
  | _ => false
  end.

(** The confidence as the specification words it: 0, 50 or 100 by the
    number of adapters that answered. *)
Definition confidence_by_count (claude chatgpt : option obj) : Z :=
  match claude, chatgpt with
  | Some _, Some _ => 100
  | None, None => 0
  | _, _ => 50
  end.

(** What holds of the loop state once the results [done] have been seen. *)
Record dedup_inv (done : list obj) (st : Dedup) : Prop := {
  inv_seen : seenPlaceIds st = placeId <$> uniqueResults st;
  inv_truthy : ∀ x, x ∈ uniqueResults st → truthy (placeId x) = true;
  inv_distinct : ∀ i j x y,
    i < j → uniqueResults st !! i = Some x → uniqueResults st !! j = Some y →
    sameValueZero (placeId x) (placeId y) = false;
  inv_first : ∀ x, x ∈ uniqueResults st →
    ∃ pre post, done = pre ++ x :: post
      ∧ ∀ y, y ∈ pre → sameValueZero (placeId y) (placeId x) = false;
  inv_covered : ∀ y, y ∈ done → truthy (placeId y) = true →
    y ∈ uniqueResults st
    ∨ ∃ x, x ∈ uniqueResults st ∧ sameValueZero (placeId y) (placeId x) = true
}.

(** The merge precedence as the specification words it: every non-empty
    value of the request body is the value of the final lead. *)
Definition human_values_kept (body : list (string * value)) (final : obj) : Prop :=
  ∀ k s, (k, VStr s) ∈ body → s ≠ "" → get k final = VStr s.

(** The candidates a text-search request of the trace brought in. *)
Definition page_results (api : PlacesApi) (e : event) : list Place :=
  match e with
  | TextSearch page params =>
    match textSearch api page params with
    | Resolved data => if bad_status data then [] else results data
    | Rejected _ => []
    end
  | _ => []
  end.

(** The candidates collected by the requests of a trace. *)
Definition collected (api : PlacesApi) (tr : list event) : list Place :=
  concat (page_results api <$> tr).

Definition is_text_search (e : event) : bool :=
  match e with
  | TextSearch _ _ => true
  | _ => false
  end.

(** The runs of the pagination loop entered with [n] pages fetched, the
    continuation token [token] in hand and [all] collected: the trace of a
    run and what the loop leaves ([Returned allPlaces] or the exception). *)
Inductive pages_run (api : PlacesApi) (params : SearchParams) (maxLeads : Z)
  : nat → option string → list Place → list event → outcome (list Place) → Prop :=
| run_rejected n token all message :
    textSearch api (S n) (requestParams params token) = Rejected message →
    pages_run api params maxLeads n token all
      [TextSearch (S n) (requestParams params token)] (Thrown message)
| run_refused n token all data :
    textSearch api (S n) (requestParams params token) = Resolved data →
    bad_status data = true →
    all = [] →
    pages_run api params maxLeads n token all
      [TextSearch (S n) (requestParams params token)]
      (Thrown ("Google Places API error: " +:+ status data))
| run_degraded n token all data :
    textSearch api (S n) (requestParams params token) = Resolved data →
    bad_status data = true →
    all ≠ [] →
    pages_run api params maxLeads n token all
      [TextSearch (S n) (requestParams params token)] (Returned all)
| run_last n token all data :
    textSearch api (S n) (requestParams params token) = Resolved data →
    bad_status data = false →
    results data = []
    ∨ (maxLeads ≤ Z.of_nat (List.length (all ++ results data)))%Z
    ∨ maxPages ≤ S n
    ∨ some_text (next_page_token data) = false →
    pages_run api params maxLeads n token all
      [TextSearch (S n) (requestParams params token)]
      (Returned (all ++ results data))
| run_more n token all data later r :
    textSearch api (S n) (requestParams params token) = Resolved data →
    bad_status data = false →
    results data ≠ [] →
    (Z.of_nat (List.length (all ++ results data)) < maxLeads)%Z →
    S n < maxPages →
    some_text (next_page_token data) = true →
    pages_run api params maxLeads (S n) (next_page_token data)
      (all ++ results data) later r →
    pages_run api params maxLeads n token all
      (TextSearch (S n) (requestParams params token) :: Delay 2000 :: later) r.

(** The text-search requests of a trace, in order. *)
Definition request_of (e : event) : option (nat * SearchParams) :=
  match e with
  | TextSearch page params => Some (page, params)
  | _ => None
  end.

Definition requests (tr : list event) : list (nat * SearchParams) :=
  omap request_of tr.

(** The quota of a [Search] event; [None] for the other events. *)
Definition search_quota (e : area_event) : option Z :=
  match e with
  | Search _ _ maxLeads _ => Some maxLeads
  | _ => None
  end.

(** ** A runtime to evaluate the definitions with

    [sample_builtins] follows JavaScript on ASCII text, on integers of
    ordinary size and on short decimals.  The properties below are proved
    for every runtime; this one serves the concrete examples. *)

Definition is_space (c : Ascii.ascii) : bool :=
  let n := Ascii.nat_of_ascii c in
  bool_decide (n = 32) || (bool_decide (9 ≤ n) && bool_decide (n ≤ 13)).

Definition lower_char (c : Ascii.ascii) : Ascii.ascii :=
  let n := Ascii.nat_of_ascii c in
  if bool_decide (65 ≤ n) && bool_decide (n ≤ 90) then Ascii.ascii_of_nat (n + 32) else c.

Fixpoint drop_spaces (cs : list Ascii.ascii) : list Ascii.ascii :=
  match cs with
  | c :: rest => if is_space c then drop_spaces rest else cs
  | [] => []
  end.

Definition sample_trim (s : string) : string :=
  String.string_of_list_ascii
    (reverse (drop_spaces (reverse (drop_spaces (String.list_ascii_of_string s))))).

Definition sample_toLowerCase (s : string) : string :=
  String.string_of_list_ascii (lower_char <$> String.list_ascii_of_string s).

Fixpoint replace_runs (r : string) (in_run : bool) (cs : list Ascii.ascii) : string :=
  match cs with
  | [] => ""
  | c :: rest =>
    if is_space c then
      if in_run then replace_runs r true rest else r +:+ replace_runs r true rest
    else String c (replace_runs r false rest)
  end.

Definition sample_replace_whitespace (s r : string) : string :=
  replace_runs r false (String.list_ascii_of_string s).

Fixpoint sample_includes (s t : string) : bool :=
  String.prefix t s ||
  match s with
  | EmptyString => false
  | String _ rest => sample_includes rest t
  end.

Definition digit (k : N) : Ascii.ascii := Ascii.ascii_of_N (48 + k).

(** The digits of [r / d] after the point, [r < d]. *)
Fixpoint fraction_digits (fuel : nat) (r d : N) : string :=
  match fuel with
  | O => ""
  | S fuel =>
    if bool_decide (r = 0%N) then ""
    else String (digit (r * 10 / d)) (fraction_digits fuel (r * 10 mod d)%N d)
  end.

Definition sample_number_to_string (x : number) : string :=
  match x with
  | Fin q =>
    let n := Z.abs_N (Qnum q) in
    let d := Npos (Qden q) in
    let sign := if bool_decide (Qnum q < 0)%Z then "-" else "" in
    let whole := pretty (n / d)%N in
    if bool_decide ((n mod d)%N = 0%N) then sign +:+ whole
    else sign +:+ whole +:+ "." +:+ fraction_digits 17 (n mod d)%N d
  | PosInf => "Infinity"
  | NegInf => "-Infinity"
  | NaN => "NaN"
  end.

Definition pad4 (n : N) : string :=
  let s := pretty n in
  String.string_of_list_ascii (replicate (4 - String.length s) (digit 0)) +:+ s.

Definition sample_toFixed4 (x : number) : string :=
  match x with
  | Fin q =>
    let n := Z.abs_N (Qnum q) in
    let d := Npos (Qden q) in
    let scaled := ((n * 20000 + d) / (2 * d))%N in
    let sign := if bool_decide (Qnum q < 0)%Z then "-" else "" in
    sign +:+ pretty (scaled / 10000)%N +:+ "." +:+ pad4 (scaled mod 10000)%N
  | PosInf => "Infinity"
  | NegInf => "-Infinity"
  | NaN => "NaN"
  end.

Definition join (sep : string) (parts : list string) : string :=
  match parts with
  | [] => ""
  | p :: rest => foldl (λ acc q, acc +:+ sep +:+ q) p rest
  end.

(** [String(v)] *)
Fixpoint sample_to_string (v : value) : string :=
  match v with
  | VUndefined => "undefined"
  | VNull => "null"
  | VBool true => "true"
  | VBool false => "false"
  | VNum q => sample_number_to_string (Fin q)
  | VStr s => s
  | VArr xs =>
    join "," (map (λ x, match x with
                        | VUndefined | VNull => ""
                        | _ => sample_to_string x
                        end) xs)
  | VObj _ => "[object Object]"
  end.

Definition double_quote : Ascii.ascii := Ascii.ascii_of_nat 34.
Definition backslash : Ascii.ascii := Ascii.ascii_of_nat 92.

Definition quote (s : string) : string :=
  String double_quote
    (String.concat EmptyString
       (map (λ c, if bool_decide (c = double_quote) || bool_decide (c = backslash)
                  then String backslash (String c EmptyString)
                  else String c EmptyString)
          (String.list_ascii_of_string s))
     +:+ String double_quote EmptyString).

(** [JSON.stringify(v)] for the values [JSON.parse] yields. *)
Fixpoint sample_stringify (v : value) : string :=
  match v with
  | VUndefined => "undefined"
  | VNull => "null"
  | VBool true => "true"
  | VBool false => "false"
  | VNum q => sample_number_to_string (Fin q)
  | VStr s => quote s
  | VArr xs => "[" +:+ join "," (map sample_stringify xs) +:+ "]"
  | VObj kvs =>
    "{" +:+ join "," (map (λ kv, quote kv.1 +:+ ":" +:+ sample_stringify kv.2) kvs)
        +:+ "}"
  end.

Definition sample_builtins : Builtins := {|
  trim := sample_trim;
  toLowerCase := sample_toLowerCase;
  replace_whitespace := sample_replace_whitespace;
  includes := sample_includes;
  number_to_string := sample_number_to_string;
  toFixed4 := sample_toFixed4;
  object_to_string := sample_to_string;
  JSON_stringify := sample_stringify
|}.

(** ** Concrete inputs for the examples *)

(** A provider without results and a geocoder without answers. *)
Definition silent_places : PlacesApi :=
  {| textSearch := λ _ _,
       Resolved {| status := "ZERO_RESULTS"; results := []; next_page_token := None |};
     placeDetails := λ _ _, Rejected "no details" |}.

Definition silent_services : AreaServices :=
  {| reverseGeocode := λ _ _, None; places_of := λ _, silent_places |}.

Definition vertex (a b : Z) : LatLng := {| lat := Qc_of_Z a; lng := Qc_of_Z b |}.

Definition triangle (a b : Z) : list LatLng :=
  [vertex a b; vertex (a + 1) b; vertex a (b + 1)].

Definition three_polygons : SearchArea :=
  {| type := "multipolygon";
     center := vertex 0 0;
     radius := 0%Qc;
     bounds := {| north := 0%Qc; south := 0%Qc; east := 0%Qc; west := 0%Qc |};
     coordinates := [];
     polygons := [triangle 0 0; triangle 10 10; triangle 20 20] |}.

(** A lead as a place search returns it, reduced to three properties. *)
Definition place_result (id polygon : string) : obj :=
  <["placeId" := VStr id]>
    (<["companyName" := VStr ("Business " +:+ id)]>
       {["foundIn" := VStr polygon]}).

(** Two polygons whose results share the identifiers a, b and c. *)
Definition shared_results : list obj :=
  [place_result "a" "first"; place_result "b" "first"; place_result "c" "first"]
  ++ [place_result "a" "second"; place_result "b" "second";
      place_result "c" "second"; place_result "d" "second"].

(** A result whose candidate had no identifier. *)
Definition unidentified_result : obj :=
  <["placeId" := VUndefined]> {["companyName" := VStr "Nameless"]}.

(** A provider that cannot be reached. *)
Definition unreachable_places : PlacesApi :=
  {| textSearch := λ _ _, Rejected "connect ECONNREFUSED";
     placeDetails := λ _ _, Rejected "connect ECONNREFUSED" |}.

Definition candidate (name : string) : Place := {| place_id := VStr name |}.

Definition ok_details (name : string) : http DetailsData :=
  Resolved {| details_status := "OK";
              details_fields := {["companyName" := VStr name]} |}.

(** A provider whose every page holds two candidates and a continuation
    token. *)
Definition endless_places : PlacesApi :=
  {| textSearch := λ page _,
       Resolved {| status := "OK";
                   results := [candidate ("p" +:+ pretty page +:+ "a");
                               candidate ("p" +:+ pretty page +:+ "b")];
                   next_page_token := Some ("after-" +:+ pretty page) |};
     placeDetails := λ _ id, ok_details (sample_to_string id) |}.

(** A provider whose first page holds two candidates and whose second
    request is refused. *)
Definition failing_second_page : PlacesApi :=
  {| textSearch := λ page _,
       if bool_decide (page = 1) then
         Resolved {| status := "OK";
                     results := [candidate "first"; candidate "second"];
                     next_page_token := Some "more" |}
       else
         Resolved {| status := "INVALID_REQUEST"; results := [];
                     next_page_token := None |};
     placeDetails := λ _ id, ok_details (sample_to_string id) |}.

(** The same first page, the second request failing on the network. *)
Definition dropped_second_page : PlacesApi :=
  {| textSearch := λ page _,
       if bool_decide (page = 1) then
         Resolved {| status := "OK";
                     results := [candidate "first"; candidate "second"];
                     next_page_token := Some "more" |}
       else Rejected "socket hang up";
     placeDetails := λ _ id, ok_details (sample_to_string id) |}.


(** No key configured: neither adapter is called. *)
Definition no_ai : AiServices :=
  {| OPENAI_API_KEY := None; ANTHROPIC_API_KEY := None;
     chatgpt := λ _, CallFails; claude := λ _, CallFails |}.

(** Both keys configured, each model answering with the given object. *)
Definition both_ai (claude_says chatgpt_says : list (string * value)) : AiServices :=
  {| OPENAI_API_KEY := Some "sk-test"; ANTHROPIC_API_KEY := Some "sk-ant-test";
     chatgpt := λ _, Parsed (VObj chatgpt_says);
     claude := λ _, Parsed (VObj claude_says) |}.

Definition acme : obj := {["companyName" := VStr "Acme"]}.

(** A lead whose company name is a number, as a JSON body can carry it. *)
Definition numbered : obj := {["companyName" := num 42]}.

(** Two analyses that disagree on the owner. *)
Definition claude_says : list (string * value) :=
  [("ownerName", VStr "Jane Doe"); ("industry", VStr "Retail");
   ("businessDetails", VStr "Family shop."); ("confidence", num 90)].

Definition chatgpt_says : list (string * value) :=
  [("ownerName", VStr "J. Doe"); ("industry", VStr "Stores");
   ("employeeCount", VStr "1-10");
   ("businessDetails", VStr "Small retailer."); ("confidence", num 70)].

(** A hand-typed record. *)
Definition typed_by_hand : list (string * value) :=
  [("companyName", VStr "Acme"); ("ownerName", VStr "Alice Owner")].

(** ** Further concrete inputs *)

(** Leads with pairwise different, truthy identifiers. *)
Definition distinct_ids (leads : list obj) : Prop :=
  (∀ x, x ∈ leads → truthy (placeId x) = true)
  ∧ ∀ i j x y, i < j → leads !! i = Some x → leads !! j = Some y →
      sameValueZero (placeId x) (placeId y) = false.

(** The lead of the i-th candidate, when its details request answers OK. *)
Definition details_lead (api : PlacesApi) (i : nat) (place : Place) : option obj :=
  match placeDetails api i (place_id place) with
  | Resolved d =>
    if String.eqb (details_status d) "OK" then Some (place_lead place d) else None
  | Rejected _ => None
  end.

(** The leads of the candidates whose details request answers OK, in order. *)
Fixpoint leads_of (api : PlacesApi) (i : nat) (places : list Place) : list obj :=
  match places with
  | [] => []
  | place :: rest => option_list (details_lead api i place) ++ leads_of api (S i) rest
  end.

(** The identifier of a details request; [None] for the other events. *)
Definition details_request (e : event) : option value :=
  match e with
  | PlaceDetails id => Some id
  | _ => None
  end.

Definition is_search (e : area_event) : bool :=
  match e with
  | Search _ _ _ _ => true
  | _ => false
  end.

Definition is_pause (e : area_event) : bool :=
  match e with
  | Pause 500 => true
  | _ => false
  end.

Definition is_geocode (e : area_event) : bool :=
  match e with
  | Geocode _ => true
  | _ => false
  end.

(** The number of events of a kind in a trace. *)
Definition count_events {E} (kind : E → bool) (tr : list E) : nat :=
  List.length (List.filter kind tr).

(** Services of a town: only the first polygon has an address, and every
    search finds the same two candidates per page. *)
Definition town_services : AreaServices :=
  {| reverseGeocode := λ i _, if bool_decide (i = 0) then Some "Springfield, IL, US" else None;
     places_of := λ _, endless_places |}.

(** ** Further notions for AI verification *)

(** The properties that [verifyLeadWithAI] sets itself. *)
Definition written_by_ai : list string :=
  ["verified"; "aiConfidence"; "ownerName"; "industry"; "employeeCount"; "revenue";
   "businessDetails"; "aiSource"; "socialMedia"; "claudeConfidence";
   "chatGPTConfidence"].

(** The names of array indices and of the characters of a string are
    written in decimal digits. *)
Definition is_digit (c : Ascii.ascii) : bool :=
  (48 <=? Ascii.nat_of_ascii c) && (Ascii.nat_of_ascii c <=? 57).

Fixpoint digits (s : string) : bool :=
  match s with
  | EmptyString => true
  | String c s => is_digit c && digits s
  end.

(** Services whose Claude adapter answers with a structured industry. *)
Definition structured_industry : value :=
  VObj [("ownerName", VStr "Jane Doe");
        ("industry", VObj [("primary", VStr "Retail"); ("NAICS", VStr "44-45")])].

Definition claude_only (reply : value) : AiServices :=
  {| OPENAI_API_KEY := None;
     ANTHROPIC_API_KEY := Some "sk-ant-0123456789";
     chatgpt := λ _, CallFails;
     claude := λ _, Parsed reply |}.

(** ** Further notions for manual enrichment *)

(** A value that does not count as data: falsy, or a string of white
    space. *)
Definition blank `{Builtins} (v : value) : bool :=
  negb (truthy v)
  || match v with VStr s => bool_decide (trim s = "") | _ => false end.

(** [result.companyName.toLowerCase() === wanted] *)
Definition exact_match `{Builtins} (wanted : string) (result : obj) : bool :=
  match get "companyName" result with
  | VStr name => String.eqb (toLowerCase name) wanted
  | _ => false
  end.

Definition scraped (name website : string) : obj :=
  <["companyName" := VStr name]> {["website" := VStr website]}.

(** ** From a details result to a lead: [convertPlaceDetailsToLead] *)

(** One entry of [address_components]. *)
Record AddressComponent := {
  long_name : string;
  short_name : string;
  component_types : list string
}.

(** The result of a details request, with the fields that the request
    asks for; a field that the provider leaves out is [None].
    [location] is [geometry?.location]. *)
Record Details := {
  name : option string;
  formatted_phone_number : option string;
  international_phone_number : option string;
  formatted_address : option string;
  website : option string;
  rating : option Qc;
  user_ratings_total : option Z;
  types : option (list string);
  location : option LatLng;
  address_components : option (list AddressComponent)
}.

(** The four variables that [addressComponents.forEach] assigns. *)
Record Extracted := {
  extractedZipcode : string;
  extractedCity : string;
  extractedCountry : string;
  extractedState : string
}.

(** [types.includes(t)] *)
Definition has_type (t : string) (ts : list string) : bool := existsb (String.eqb t) ts.

(** The callback of [forEach], lines 1016-1029 (and 227-240). *)
Definition extract_step (e : Extracted) (component : AddressComponent) : Extracted :=
  let ts := component_types component in
  {| extractedZipcode :=
       if has_type "postal_code" ts then long_name component else extractedZipcode e;
     extractedCity :=
       if has_type "locality" ts then long_name component else extractedCity e;
     extractedCountry :=
       if has_type "country" ts then long_name component else extractedCountry e;
     extractedState :=
       if has_type "administrative_area_level_1" ts then short_name component
       else extractedState e |}.

Definition extract (components : list AddressComponent) : Extracted :=
  fold_left extract_step components
    {| extractedZipcode := ""; extractedCity := ""; extractedCountry := "";
       extractedState := "" |}.

(** [\w]: a letter, a digit or the underscore. *)
Definition is_word (c : Ascii.ascii) : bool :=
  let n := Ascii.nat_of_ascii c in
  ((48 <=? n) && (n <=? 57)) || ((65 <=? n) && (n <=? 90)) || (n =? 95)
  || ((97 <=? n) && (n <=? 122)).

(** [c.toUpperCase()] for a character that [\w] matches. *)
Definition upper (c : Ascii.ascii) : Ascii.ascii :=
  let n := Ascii.nat_of_ascii c in
  if (97 <=? n) && (n <=? 122) then Ascii.ascii_of_nat (n - 32) else c.

(** [s.replace(/_/g, ' ')] *)
Fixpoint underscores_to_spaces (s : string) : string :=
  match s with
  | EmptyString => EmptyString
  | String c s =>
    String (if Ascii.eqb c (Ascii.ascii_of_nat 95) then Ascii.ascii_of_nat 32 else c)
      (underscores_to_spaces s)
  end.

(** [s.replace(/\b\w/g, c => c.toUpperCase())]; [inside] tells whether
    the character before is one that [\w] matches. *)
Fixpoint capitalize (inside : bool) (s : string) : string :=
  match s with
  | EmptyString => EmptyString
  | String c s =>
    String (if is_word c && negb inside then upper c else c) (capitalize (is_word c) s)
  end.

Definition title_case (s : string) : string := capitalize false (underscores_to_spaces s).

(** Lines 1031-1043 (and 243-255): the industry of a list of types. *)
Definition industry_of (ts : list string) : string :=
  if has_type "restaurant" ts then "Restaurant"
  else if has_type "store" ts || has_type "retail" ts then "Retail"
  else if has_type "hospital" ts || has_type "doctor" ts then "Healthcare"
  else if has_type "lawyer" ts then "Legal Services"
  else if has_type "real_estate_agency" ts then "Real Estate"
  else if has_type "cafe" ts || has_type "bakery" ts then "Food & Beverage"
  else if has_type "gym" ts then "Fitness"
  else if has_type "beauty_salon" ts || has_type "spa" ts then "Beauty & Wellness"
  else
    match ts with
    | t :: _ => title_case t
    | [] => "Business"
    end.

(** An optional text or number as a JavaScript value. *)
Definition text_value (o : option string) : value :=
  match o with Some s => VStr s | None => VUndefined end.

Definition number_value (o : option Qc) : value :=
  match o with Some q => VNum q | None => VUndefined end.

(** [convertPlaceDetailsToLead(details, placeId)]; [stamp] is the number
    that [Date.now() + Math.random()] comes to.  Lines 257-275 of
    [scrapeGoogleMaps] build the same literal from the same variables. *)
Definition convertPlaceDetailsToLead (details : Details) (placeId : value)
    (stamp : Qc) : obj :=
  let e := extract (default [] (address_components details)) in
  let ts := default [] (types details) in
  <["source" := VStr "Google Places API"]>
  (<["types" := VArr (VStr <$> ts)]>
  (<["placeId" := placeId]>
  (<["longitude" := or_else (number_value (lng <$> location details)) VNull]>
  (<["latitude" := or_else (number_value (lat <$> location details)) VNull]>
  (<["reviewCount" :=
       or_else (number_value (Qc_of_Z <$> user_ratings_total details)) (num 0)]>
  (<["rating" := or_else (number_value (rating details)) (VStr "N/A")]>
  (<["website" := or_else (text_value (website details)) (VStr "N/A")]>
  (<["industry" := VStr (industry_of ts)]>
  (<["state" := or_else (VStr (extractedState e)) (VStr "")]>
  (<["country" := or_else (VStr (extractedCountry e)) (VStr "N/A")]>
  (<["city" := or_else (VStr (extractedCity e)) (VStr "N/A")]>
  (<["zipcode" := or_else (VStr (extractedZipcode e)) (VStr "N/A")]>
  (<["address" := or_else (text_value (formatted_address details)) (VStr "N/A")]>
  (<["phone" :=
       or_else (text_value (formatted_phone_number details))
         (or_else (text_value (international_phone_number details)) (VStr "N/A"))]>
  (<["companyName" := text_value (name details)]>
  {["id" := VNum stamp]}))))))))))))))).

(** The fields that are given a default other than the empty string. *)
Definition defaulted_fields : list string :=
  ["phone"; "address"; "zipcode"; "city"; "country"; "website"; "rating"].

(** The types that decide the industry before the first type is looked at. *)
Definition industry_keywords : list string :=
  ["restaurant"; "store"; "retail"; "hospital"; "doctor"; "lawyer";
   "real_estate_agency"; "cafe"; "bakery"; "gym"; "beauty_salon"; "spa"].

(** The provider as [scrapeGoogleMaps] sees it when the answers to the
    details requests are mapped to leads: [result i id] is the status and
    the result of the i-th details request and [stamp i] the number that
    [Date.now() + Math.random()] comes to for its lead. *)
Definition mapped_places (search : nat → SearchParams → http TextSearchData)
    (result : nat → value → http (string * Details))
    (stamp : nat → Qc) : PlacesApi :=
  {| textSearch := search;
     placeDetails := λ i id,
       match result i id with
       | Rejected message => Rejected message
       | Resolved (status, details) =>
         Resolved {| details_status := status;
                     details_fields :=
                       convertPlaceDetailsToLead details id (stamp i) |}
       end |}.

Definition main_street : Details :=
  {| name := Some "Corner Bakery";
     formatted_phone_number := None;
     international_phone_number := Some "+1 512 555 0100";
     formatted_address := Some "1 Main St, Austin, TX 78701, USA";
     website := None;
     rating := Some 0%Qc;
     user_ratings_total := None;
     types := Some ["bakery"; "store"; "point_of_interest"];
     location := Some {| lat := 0%Qc; lng := Qc_of_Z (-97) |};
     address_components :=
       Some [ {| long_name := "78701"; short_name := "78701";
                 component_types := ["postal_code"] |};
              {| long_name := "Austin"; short_name := "Austin";
                 component_types := ["locality"; "political"] |};
              {| long_name := "Texas"; short_name := "TX";
                 component_types := ["administrative_area_level_1"; "political"] |};
              {| long_name := "78702"; short_name := "78702";
                 component_types := ["postal_code"] |} ] |}.

(** The eight industries that are named after a known type. *)
Definition known_industries : list string :=
  ["Restaurant"; "Retail"; "Healthcare"; "Legal Services"; "Real Estate";
   "Food & Beverage"; "Fitness"; "Beauty & Wellness"].

(** [s.includes(c)] for a character. *)
Fixpoint has_char (x : Ascii.ascii) (s : string) : bool :=
  match s with
  | EmptyString => false
  | String c s => Ascii.eqb c x || has_char x s
  end.

Definition underscore : Ascii.ascii := Ascii.ascii_of_nat 95.

(** A provider whose details requests all answer with the same result. *)
Definition main_street_places : PlacesApi :=
  mapped_places (textSearch endless_places) (λ _ _, Resolved ("OK", main_street))
    (λ i, Qc_of_Z (Z.of_nat i)).

(** ** Reverse geocoding: [reverseGeocode] *)

Module Geocoding.

(** One result of the geocoding service, and its answer. *)
Record Result := {
  address_components : list AddressComponent;
  formatted_address : option string
}.

Record Data := { status : string; results : list Result }.

(** [city], [state] and [country] of lines 597-599. *)
Record Parts := { city : string; state : string; country : string }.

(** The callback of [forEach], lines 601-609: the three tests exclude each
    other. *)
Definition part_step (p : Parts) (component : AddressComponent) : Parts :=
  let ts := component_types component in
  if has_type "locality" ts then
    {| city := long_name component; state := state p; country := country p |}
  else if has_type "administrative_area_level_1" ts then
    {| city := city p; state := short_name component; country := country p |}
  else if has_type "country" ts then
    {| city := city p; state := state p; country := long_name component |}
  else p.

Definition parts (components : list AddressComponent) : Parts :=
  fold_left part_step components {| city := ""; state := ""; country := "" |}.

Definition nonempty (s : string) : bool := negb (String.eqb s "").

(** Lines 612-615. *)
Definition locationString (p : Parts) : string :=
  let s := "" in
  let s := if nonempty (city p) then s +:+ city p else s in
  let s := if nonempty (state p) && nonempty s then s +:+ ", " +:+ state p else s in
  if nonempty (country p) && nonempty s then s +:+ ", " +:+ country p else s.

(** [reverseGeocode(lat, lng)], given the key of [process.env] and what
    the request comes to; [None] is [null] or [undefined]. *)
Definition reverseGeocode (apiKey : option string) (response : http Data)
    : option string :=
  if negb (some_text apiKey) then None
  else
    match response with
    | Rejected _ => None
    | Resolved data =>
      if String.eqb (status data) "OK" then
        match results data with
        | result :: _ =>
          let s := locationString (parts (address_components result)) in
          if nonempty s then Some s else formatted_address result
        | [] => None
        end
      else None
    end.

End Geocoding.

(** A result without locality: a state and a country only. *)
Definition rural_result : Geocoding.Result :=
  {| Geocoding.address_components :=
       [ {| long_name := "Texas"; short_name := "TX";
            component_types := ["administrative_area_level_1"; "political"] |};
         {| long_name := "United States"; short_name := "US";
            component_types := ["country"; "political"] |} ];
     Geocoding.formatted_address := Some "Texas, USA" |}.

(** ** Manual enrichment: the lookup of lines 813-940 *)

(** What the lookup does, in order: the phone lookup, a text search for an
    address, a details request, a delay, a place search by name. *)
Inductive lookup_event :=
| FindPlace (input : value)
| AddressSearch (query : string)
| Details_ (id : value)
| Wait (ms : nat)
| NameSearch (query location : string) (inner : list event).

(** The provider as the lookup sees it: the answers to the phone lookup
    (status and candidates), to the text search for an address (status and
    results), to the details requests of the two (status and result), the
    provider of the search by name, and [Date.now() + Math.random()] for
    the i-th lead. *)
Record Lookups := {
  findPlace : value → http (string * list Place);
  phoneDetails : value → http (string * Details);
  addressSearch : string → http (string * list Place);
  addressDetails : nat → value → http (string * Details);
  byName : PlacesApi;
  stamp : nat → Qc
}.

(** [scrapedResults] and [searchMethod], with the requests made so far. *)
Record Found := {
  events : list lookup_event;
  scrapedResults : list obj;
  searchMethod : string
}.

(** A strategy runs to its end, or throws into the [catch] of line 942
    with the state it has reached, or leaves this model. *)
Inductive step :=
| Continue (f : Found)
| Caught (f : Found)
| Unsupported.

Definition and_then (s : step) (k : Found → step) : step :=
  match s with
  | Continue f => k f
  | other => other
  end.

(** [s.split(c)] for a separator of one character. *)
Fixpoint split_on (sep : Ascii.ascii) (s : string) : list string :=
  match s with
  | EmptyString => [EmptyString]
  | String c s =>
    if Ascii.eqb c sep then EmptyString :: split_on sep s
    else
      match split_on sep s with
      | part :: parts => String c part :: parts
      | [] => [String c EmptyString]
      end
  end.

(** An argument of [scrapeGoogleMaps] that is a string, [null] or
    [undefined]; the place search is modelled on such arguments only. *)
Definition argument (v : value) : option (option string) :=
  match v with
  | VUndefined | VNull => Some None
  | VStr s => Some (Some s)
  | _ => None
  end.

Section lookup.
Context `{Builtins}.
Variable apiKey : option string.
Variable lookups : Lookups.

Definition log (f : Found) (es : list lookup_event) : Found :=
  {| events := events f ++ es; scrapedResults := scrapedResults f;
     searchMethod := searchMethod f |}.

Definition push (f : Found) (lead : obj) : Found :=
  {| events := events f; scrapedResults := scrapedResults f ++ [lead];
     searchMethod := searchMethod f |}.

Definition via (f : Found) (m : string) : Found :=
  {| events := events f; scrapedResults := scrapedResults f; searchMethod := m |}.

(** [v && v.trim()] *)
Definition and_trim (v : value) : outcome value :=
  if truthy v then method_trim v else Returned v.

(** Strategy 1, lines 823-853: the failures of its requests are caught
    inside the strategy. *)
Definition phone_strategy (manualData : obj) (f : Found) : step :=
  let phone := get "phone" manualData in
  match and_trim phone with
  | Thrown _ => Caught f
  | Returned t =>
    if truthy t then
      let f := log (via f "phone") [FindPlace phone] in
      match findPlace lookups phone with
      | Rejected _ => Continue f
      | Resolved (status, candidates) =>
        match candidates with
        | candidate :: _ =>
          if String.eqb status "OK" then
            let placeId := place_id candidate in
            let f := log f [Details_ placeId] in
            match phoneDetails lookups placeId with
            | Rejected _ => Continue f
            | Resolved (status, details) =>
              if String.eqb status "OK" then
                Continue (push f (convertPlaceDetailsToLead details placeId
                                    (stamp lookups 0)))
              else Continue f
            end
          else Continue f
        | [] => Continue f
        end
      end
    else Continue f
  end.

(** The loop of lines 885-901 over the first three results. *)
Fixpoint address_details (i : nat) (places : list Place) (f : Found) : step :=
  match places with
  | [] => Continue f
  | place :: rest =>
    let f := log f [Details_ (place_id place)] in
    match addressDetails lookups i (place_id place) with
    | Rejected _ => Caught f
    | Resolved (status, details) =>
      let f :=
        if String.eqb status "OK" then
          push f (convertPlaceDetailsToLead details (place_id place)
                    (stamp lookups i))
        else f in
      address_details (S i) rest (log f [Wait 100])
    end
  end.

(** The text of lines 857-867. *)
Definition addressQuery (manualData : obj) : string :=
  let address := get "address" manualData in
  let country := get "country" manualData in
  (if truthy address then to_text address
   else to_text (get "city" manualData) +:+ " " +:+ to_text (get "zipcode" manualData))
  +:+ (if truthy country then " " +:+ to_text country else "").

(** Strategy 2, lines 856-906: a failing request is not caught here. *)
Definition address_strategy (manualData : obj) (f : Found) : step :=
  if bool_decide (List.length (scrapedResults f) = 0)
     && (truthy (get "address" manualData)
         || (truthy (get "city" manualData) && truthy (get "zipcode" manualData)))
  then
    let query := "business at " +:+ addressQuery manualData in
    let f := log (via f "address") [AddressSearch query] in
    match addressSearch lookups query with
    | Rejected _ => Caught f
    | Resolved (status, places) =>
      if String.eqb status "OK" && bool_decide (0 < List.length places)
      then address_details 0 (take 3 places) f
      else Continue f
    end
  else Continue f.

(** [location] of lines 914-924. *)
Definition name_location (manualData : obj) : outcome value :=
  let city := get "city" manualData in
  let country := get "country" manualData in
  let address := get "address" manualData in
  if truthy city && truthy country then
    Returned (VStr (to_text city +:+ ", " +:+ to_text country))
  else if truthy city then Returned city
  else if truthy address then
    match address with
    | VStr a =>
      let addressParts := split_on (Ascii.ascii_of_nat 44) a in
      if bool_decide (2 ≤ List.length addressParts) then
        Returned (VStr (trim (default "" (addressParts !! (List.length addressParts - 2)))))
      else Returned VNull
    | _ => Thrown "manualData.address.split is not a function"
    end
  else Returned VNull.

(** Strategy 3, lines 909-931. *)
Definition name_strategy (manualData : obj) (f : Found) : step :=
  if bool_decide (List.length (scrapedResults f) = 0) then
    let companyName := get "companyName" manualData in
    match and_trim companyName with
    | Thrown _ => Caught f
    | Returned t =>
      if truthy t then
        let f := via f "company_name" in
        match name_location manualData with
        | Thrown _ => Caught f
        | Returned location =>
          let location := if truthy location then location else VStr "United States" in
          match argument location, argument (get "zipcode" manualData),
                argument (get "country" manualData) with
          | Some location, Some zipcode, Some country =>
            match scrapeGoogleMaps (byName lookups) apiKey (to_text companyName)
                    location None zipcode country 5 with
            | (inner, Some (Returned leads)) =>
              Continue
                {| events :=
                     events f ++ [NameSearch (to_text companyName) (text_of location) inner];
                   scrapedResults := leads;
                   searchMethod := searchMethod f |}
            | (inner, Some (Thrown _)) =>
              Caught (log f [NameSearch (to_text companyName) (text_of location) inner])
            | (_, None) => Unsupported
            end
          | _, _, _ => Unsupported
          end
        end
      else Continue f
    end
  else Continue f.

(** Lines 813-944: [scrapedResults] and [searchMethod] after the [try]. *)
Definition discover (manualData : obj) : option Found :=
  let start := {| events := []; scrapedResults := []; searchMethod := "unknown" |} in
  if negb (some_text apiKey) then Some start
  else
    match
      and_then (and_then (phone_strategy manualData start) (address_strategy manualData))
        (name_strategy manualData)
    with
    | Continue f | Caught f => Some f
    | Unsupported => None
    end.
End lookup.

(** The handler of [POST /api/enrich-manual] with its lookup: no request
    is made for a body that is refused. *)
Definition enrich_manual_handler `{Builtins} (apiKey : option string)
    (lookups : Lookups) (ai : AiServices) (random : nat → Qc)
    (body : list (string * value)) (now0 now1 : Z)
    : option (list lookup_event * response obj) :=
  match hasData (body.*2) with
  | Returned true =>
    f ← discover apiKey lookups (list_to_map body);
    Some (events f,
          enrich_manual ai random body (scrapedResults f) (searchMethod f) now0 now1)
  | _ => Some ([], enrich_manual ai random body [] "unknown" now0 now1)
  end.


Definition is_request (strategy : string) (e : lookup_event) : bool :=
  match e, strategy with
  | FindPlace _, "phone" => true
  | AddressSearch _, "address" => true
  | NameSearch _ _ _, "company_name" => true
  | _, _ => false
  end.




(** A provider that knows the phone number only. *)
Definition phone_book : Lookups :=
  {| findPlace := λ _, Resolved ("OK", [candidate "main-street"]);
     phoneDetails := λ _, Resolved ("OK", main_street);
     addressSearch := λ _, Rejected "timeout";
     addressDetails := λ _ _, Rejected "timeout";
     byName := unreachable_places;
     stamp := λ _, 0%Qc |}.

Definition phoned_in : list (string * value) :=
  [("companyName", VStr ""); ("phone", VStr "+1 512 555 0100");
   ("address", VStr "1 Main St, Austin"); ("city", VStr "Austin")].

(** The polygon of the vertices (0.1, 0.1), (0.2, 0.2) and (0.3, 0.3). *)
Definition tenths : SearchArea :=
  singlePolygonArea
    [ {| lat := literal (1 # 10); lng := literal (1 # 10) |};
      {| lat := literal (2 # 10); lng := literal (2 # 10) |};
      {| lat := literal (3 # 10); lng := literal (3 # 10) |} ].

(** * Properties *)

(** ** Arithmetic helpers *)

Lemma Qceiling_le_iff (x : Qc) (q : Z) :
  (Qceiling x ≤ q)%Z ↔ (x ≤ Qc_of_Z q)%Qc.
Proof.
  unfold Qcle. simpl. split; intros Hle.
  - eapply Qle_trans; [apply Qle_ceiling|]. by rewrite <- Zle_Qle.
  - rewrite <- (Qceiling_Z q). by apply Qceiling_resp_le.
Qed.

Lemma Qc_of_nat_pos (n : nat) : 0 < n → (0 < Qc_of_Z (Z.of_nat n))%Qc.
Proof. intros Hn. rewrite <- Z2Qc_inj_0, <- Z2Qc_inj_lt. lia. Qed.

Lemma Qc_of_nat_nonzero (n : nat) : 0 < n → Qc_of_Z (Z.of_nat n) ≠ 0%Qc.
Proof.
  intros Hn Heq. apply Qc_of_nat_pos in Hn. rewrite Heq in Hn.
  by apply Qclt_not_eq in Hn.
Qed.

Lemma Qcdiv_le_iff (a b c : Qc) :
  (0 < b)%Qc → (a / b ≤ c)%Qc ↔ (a ≤ c * b)%Qc.
Proof.
  intros Hb.
  assert (Hne : b ≠ 0%Qc) by (intros ->; by apply Qclt_not_eq in Hb).
  split; intros Hle.
  - rewrite <- (Qcmult_div_r a b Hne), (Qcmult_comm b).
    apply Qcmult_le_compat_r; [done | by apply Qclt_le_weak].
  - apply (Qcmult_lt_0_le_reg_r _ _ b Hb).
    by rewrite (Qcmult_comm (a / b)), Qcmult_div_r.
Qed.

(** ** Double arithmetic *)

Lemma Qc_of_Z_this (z : Z) : (Qc_of_Z z == inject_Z z)%Q.
Proof. reflexivity. Qed.

Lemma Qcplus_this (a b : Qc) : ((a + b)%Qc == a + b)%Q.
Proof. exact (Qred_correct (a + b)). Qed.

Lemma Qcdiv_this (a b : Qc) : ((a / b)%Qc == a / b)%Q.
Proof.
  unfold Qcdiv, Qcmult, Qcinv. cbn [this Q2Qc]. by rewrite !Qred_correct.
Qed.

Lemma two_nonzero : ¬ (2 == 0)%Q.
Proof. by intros ?. Qed.

Lemma pow2_pos (e : Z) : (0 < 2 ^ e)%Q.
Proof. by apply Qpower_0_lt. Qed.

Lemma pow2_succ (e : Z) : (2 ^ (e + 1) == 2 * 2 ^ e)%Q.
Proof. rewrite Qpower_plus by apply two_nonzero. simpl. lra. Qed.

Lemma pow2_pred (e : Z) : (2 * 2 ^ (e - 1) == 2 ^ e)%Q.
Proof. rewrite <- pow2_succ. by replace (e - 1 + 1)%Z with e by lia. Qed.

Lemma pow2_log2 (n : Z) :
  (0 < n)%Z → (2 ^ Z.log2 n <= inject_Z n)%Q ∧ (inject_Z n < 2 * 2 ^ Z.log2 n)%Q.
Proof.
  intros Hn. destruct (Z.log2_spec n Hn) as [Hlow Hhigh].
  pose proof (Z.log2_nonneg n) as Hnonneg.
  rewrite <- pow2_succ.
  rewrite <- (Zpower_Qpower 2 (Z.log2 n)), <- (Zpower_Qpower 2 (Z.log2 n + 1)) by lia.
  rewrite <- Zle_Qle, <- Zlt_Qlt. split; [done|]. by rewrite Z.add_1_r.
Qed.

Lemma Qlog2_spec (x : Q) :
  (0 < x)%Q → (2 ^ Qlog2 x <= x)%Q ∧ (x < 2 ^ (Qlog2 x + 1))%Q.
Proof.
  intros Hx. destruct x as [p q].
  assert (Hp : (0 < p)%Z) by (unfold Qlt in Hx; simpl in Hx; lia).
  destruct (pow2_log2 p Hp) as [Hp1 Hp2].
  destruct (pow2_log2 (Zpos q) eq_refl) as [Hq1 Hq2].
  unfold Qlog2. simpl Qnum. simpl Qden.
  set (lp := Z.log2 p) in *. set (lq := Z.log2 (Zpos q)) in *.
  assert (Hdiv : (2 ^ (lp - lq) * 2 ^ lq == 2 ^ lp)%Q).
  { rewrite <- Qpower_plus by apply two_nonzero. by replace (lp - lq + lq)%Z with lp by lia. }
  pose proof (pow2_pos lp) as HA. pose proof (pow2_pos lq) as HB.
  pose proof (pow2_pos (lp - lq)) as HC.
  assert (Hx' : (p # q) * inject_Z (Zpos q) == inject_Z p).
  { unfold Qeq, Qmult, inject_Z. simpl. lia. }
  assert (HQ : (0 < inject_Z (Zpos q))%Q) by (by rewrite <- (Zlt_Qlt 0)).
  set (X := p # q) in *. set (P := inject_Z p) in *. set (D := inject_Z (Zpos q)) in *.
  set (A := (2 ^ lp)%Q) in *. set (B := (2 ^ lq)%Q) in *.
  destruct (Qle_bool (2 ^ (lp - lq)) X) eqn:Hcheck.
  - apply Qle_bool_iff in Hcheck. split; [done|].
    rewrite pow2_succ. set (C := (2 ^ (lp - lq))%Q) in *. nra.
  - assert (Hlt : (X < 2 ^ (lp - lq))%Q).
    { apply Qnot_le_lt. intros Hle. apply Qle_bool_iff in Hle. congruence. }
    replace (lp - lq - 1 + 1)%Z with (lp - lq)%Z by lia. split; [|done].
    pose proof (pow2_pred (lp - lq)) as Hpred.
    pose proof (pow2_pos (lp - lq - 1)) as HC'.
    set (C := (2 ^ (lp - lq))%Q) in *. set (C' := (2 ^ (lp - lq - 1))%Q) in *. nra.
Qed.

Lemma round_even_cases (t : Q) :
  let f := Qfloor t in
  (round_even t = f ∧ (t - inject_Z f <= 1 # 2)%Q)
  ∨ (round_even t = (f + 1)%Z ∧ (1 # 2 <= t - inject_Z f)%Q).
Proof.
  intros f. unfold round_even. fold f.
  destruct (t - inject_Z f ?= 1 # 2)%Q eqn:Hcmp.
  - apply Qeq_alt in Hcmp. destruct (Z.even f); [left | right]; split; try done; lra.
  - apply Qlt_alt in Hcmp. left. split; [done | lra].
  - apply Qgt_alt in Hcmp. right. split; [done | lra].
Qed.

Lemma round_even_le (t : Q) (m : Z) : (t <= inject_Z m)%Q → (round_even t ≤ m)%Z.
Proof.
  intros Ht. pose proof (Qfloor_le t) as Hfloor.
  destruct (round_even_cases t) as [[-> _] | [-> Hhalf]].
  - rewrite Zle_Qle. lra.
  - apply Z.le_succ_l. rewrite Zlt_Qlt. lra.
Qed.

Lemma round_even_ge (t : Q) (m : Z) :
  (inject_Z m + (1 # 2) < t)%Q → (m + 1 ≤ round_even t)%Z.
Proof.
  intros Ht. pose proof (Qlt_floor t) as Hfloor. rewrite inject_Z_plus in Hfloor.
  destruct (round_even_cases t) as [[-> Hhalf] | [-> _]].
  - apply Z.le_succ_l. rewrite Zlt_Qlt. lra.
  - apply Z.add_le_mono_r. apply Z.lt_succ_r. unfold Z.succ.
    rewrite Zlt_Qlt, inject_Z_plus. simpl. lra.
Qed.

Lemma inject_Z_pred (k : Z) : (inject_Z (k - 1) == inject_Z k - 1)%Q.
Proof. unfold Z.sub. rewrite inject_Z_plus. reflexivity. Qed.

Lemma Qceiling_unique (y : Q) (k : Z) :
  (inject_Z k - 1 < y)%Q → (y <= inject_Z k)%Q → Qceiling y = k.
Proof.
  intros Hlow Hhigh. apply Z.le_antisymm.
  - rewrite <- (Qceiling_Z k). by apply Qceiling_resp_le.
  - pose proof (Qle_ceiling y) as Hy.
    apply Z.lt_pred_le. rewrite Zlt_Qlt. unfold Z.pred. rewrite inject_Z_plus.
    change (inject_Z (-1)) with (-1 # 1). lra.
Qed.

(** Below 2^53 the rounding of a quotient of integers does not change its
    ceiling. *)
Lemma round64_quotient (a b : Z) :
  (0 < a < 2 ^ 53)%Z → (0 < b < 2 ^ 32)%Z →
  ∃ y, round64 (inject_Z a / inject_Z b) = Fin y
       ∧ Qceiling y = Qceiling (inject_Z a / inject_Z b).
Proof.
  intros [Ha Ha'] [Hb Hb'].
  set (x := (inject_Z a / inject_Z b)%Q).
  assert (HA : (0 < inject_Z a)%Q) by (by rewrite <- (Zlt_Qlt 0)).
  assert (HB : (1 <= inject_Z b)%Q) by (rewrite <- (Zle_Qle 1); lia).
  assert (HA1 : (1 <= inject_Z a)%Q) by (rewrite <- (Zle_Qle 1); lia).
  assert (HA' : (inject_Z a < 2 ^ 53)%Q).
  { rewrite <- (Zpower_Qpower 2 53), <- Zlt_Qlt by lia. done. }
  assert (HB' : (inject_Z b < 2 ^ 32)%Q).
  { rewrite <- (Zpower_Qpower 2 32), <- Zlt_Qlt by lia. done. }
  assert (Hxb : (x * inject_Z b == inject_Z a)%Q) by (unfold x; field; lra).
  assert (Hx : (0 < x)%Q) by (apply Qlt_shift_div_l; lra).
  destruct (Qlog2_spec x Hx) as [Hlow Hhigh].
  set (e := Qlog2 x) in *.
  assert (He : (-32 ≤ e ≤ 52)%Z).
  { split.
    - assert (Hlt : (2 ^ (-32) < 2 ^ (e + 1))%Q).
      { eapply Qlt_trans; [|apply Hhigh].
        assert (H32 : (2 ^ (-32) * 2 ^ 32 == 1)%Q) by reflexivity.
        pose proof (pow2_pos (-32)). set (c := (2 ^ (-32))%Q) in *.
        set (d := (2 ^ 32)%Q) in *. nra. }
      apply Qpower_lt_compat_l_inv in Hlt; [lia | lra].
    - assert (Hlt : (2 ^ e < 2 ^ 53)%Q).
      { eapply Qle_lt_trans; [apply Hlow|].
        set (d := (2 ^ 53)%Q) in *. nra. }
      apply Qpower_lt_compat_l_inv in Hlt; [lia | lra]. }
  set (P := (2 ^ (52 - e))%Z).
  assert (HP : (ulp x * inject_Z P == 1)%Q).
  { unfold ulp, P. fold e. rewrite Z.max_l by lia.
    rewrite Zpower_Qpower by lia. change (inject_Z 2) with 2%Q.
    rewrite <- Qpower_plus by apply two_nonzero.
    by replace (e - 52 + (52 - e))%Z with 0%Z by lia. }
  assert (HP2 : (2 ^ e * (2 * inject_Z P) == 2 ^ 53)%Q).
  { unfold P. rewrite Zpower_Qpower by lia. change (inject_Z 2) with 2%Q.
    rewrite <- pow2_succ, <- Qpower_plus by apply two_nonzero.
    by replace (e + (52 - e + 1))%Z with 53%Z by lia. }
  assert (Hu : (0 < ulp x)%Q) by apply pow2_pos.
  assert (HP0 : (0 < inject_Z P)%Q).
  { rewrite <- (Zlt_Qlt 0). unfold P. apply Z.pow_pos_nonneg; lia. }
  pose proof (Qle_ceiling x) as Hk1. pose proof (Qceiling_lt x) as Hk2.
  set (k := Qceiling x) in *.
  rewrite inject_Z_pred in Hk2.
  assert (Hstep : (inject_Z ((k - 1) * b + 1) <= inject_Z a)%Q).
  { rewrite <- Zle_Qle. apply Z.le_succ_l. rewrite Zlt_Qlt.
    rewrite inject_Z_mult, inject_Z_pred.
    set (K := inject_Z k) in *. set (B := inject_Z b) in *. nra. }
  rewrite inject_Z_plus, inject_Z_mult, inject_Z_pred in Hstep.
  change (inject_Z 1) with 1%Q in Hstep.
  assert (Ht : (x / ulp x == x * inject_Z P)%Q).
  { rewrite <- (Qmult_1_r (x / ulp x)), <- HP. field. lra. }
  set (r := round_even (x / ulp x)).
  assert (Hr1 : (r ≤ k * P)%Z).
  { apply round_even_le. rewrite Ht, inject_Z_mult.
    set (K := inject_Z k) in *. set (Pq := inject_Z P) in *. nra. }
  assert (Hr2 : ((k - 1) * P + 1 ≤ r)%Z).
  { apply round_even_ge. rewrite Ht, inject_Z_mult, inject_Z_pred.
    set (K := inject_Z k) in *. set (Pq := inject_Z P) in *.
    set (B := inject_Z b) in *. set (A := inject_Z a) in *.
    set (E := (2 ^ e)%Q) in *. set (D := (2 ^ 53)%Q) in *.
    assert (HE : (0 < E)%Q) by apply pow2_pos.
    assert (HBP : (B < 2 * Pq)%Q) by nra.
    assert (Hgap : (1 <= (x - (K - 1)) * B)%Q) by nra.
    nra. }
  rewrite Zle_Qle in Hr1. rewrite Zle_Qle in Hr2.
  rewrite inject_Z_mult in Hr1.
  rewrite inject_Z_plus, inject_Z_mult, inject_Z_pred in Hr2.
  change (inject_Z 1) with 1%Q in Hr2.
  assert (Hy1 : (inject_Z k - 1 < nearest x)%Q).
  { unfold nearest. fold r. set (R := inject_Z r) in *. set (K := inject_Z k) in *.
    set (Pq := inject_Z P) in *. set (U := ulp x) in *. nra. }
  assert (Hy2 : (nearest x <= inject_Z k)%Q).
  { unfold nearest. fold r. set (R := inject_Z r) in *. set (K := inject_Z k) in *.
    set (Pq := inject_Z P) in *. set (U := ulp x) in *. nra. }
  assert (Hka : (inject_Z k <= inject_Z a)%Q).
  { rewrite <- Zle_Qle. rewrite <- (Qceiling_Z a). apply Qceiling_resp_le.
    set (B := inject_Z b) in *. set (A := inject_Z a) in *. nra. }
  exists (Q2Qc (nearest x)). split.
  - unfold round64. apply Qgt_alt in Hx. rewrite Hx.
    destruct (Qle_bool (2 ^ 1024) (nearest x)) eqn:Hover; [|done].
    apply Qle_bool_iff in Hover.
    assert (Hbig : (2 ^ 53 <= 2 ^ 1024)%Q) by (apply Qpower_le_compat_l; [lia | lra]).
    lra.
  - simpl. rewrite (Qceiling_comp _ _ (Qred_correct (nearest x))).
    by apply Qceiling_unique.
Qed.

Lemma round_even_Z (t : Q) (m : Z) : (t == inject_Z m)%Q → round_even t = m.
Proof.
  intros Ht. apply Z.le_antisymm.
  - apply round_even_le. lra.
  - replace m with (m - 1 + 1)%Z at 1 by lia. apply round_even_ge.
    rewrite inject_Z_pred. lra.
Qed.

(** The integers below 2^53 are doubles. *)
Lemma round64_Z (m : Z) :
  (0 ≤ m < 2 ^ 53)%Z → round64 (inject_Z m) = Fin (Qc_of_Z m).
Proof.
  intros [Hm Hm']. destruct (decide (m = 0)%Z) as [->|Hne]; [unfold round64; simpl; f_equal; by apply Qc_is_canon|].
  set (x := inject_Z m).
  assert (Hx : (1 <= x)%Q) by (unfold x; rewrite <- (Zle_Qle 1); lia).
  assert (Hx' : (x < 2 ^ 53)%Q).
  { unfold x. rewrite <- (Zpower_Qpower 2 53), <- Zlt_Qlt by lia. done. }
  destruct (Qlog2_spec x ltac:(lra)) as [Hlow Hhigh].
  set (e := Qlog2 x) in *.
  assert (He : (0 ≤ e ≤ 52)%Z).
  { split.
    - assert (Hlt : (2 ^ 0 < 2 ^ (e + 1))%Q) by (simpl (2 ^ 0)%Q; lra).
      apply (Qpower_lt_compat_l_inv 2 0 (e + 1)) in Hlt; [lia | lra].
    - assert (Hlt : (2 ^ e < 2 ^ 53)%Q) by lra.
      apply (Qpower_lt_compat_l_inv 2 e 53) in Hlt; [lia | lra]. }
  set (P := (2 ^ (52 - e))%Z).
  assert (HP : (ulp x * inject_Z P == 1)%Q).
  { unfold ulp, P. fold e. rewrite Z.max_l by lia.
    rewrite Zpower_Qpower by lia. change (inject_Z 2) with 2%Q.
    rewrite <- Qpower_plus by apply two_nonzero.
    by replace (e - 52 + (52 - e))%Z with 0%Z by lia. }
  assert (Hu : (0 < ulp x)%Q) by apply pow2_pos.
  assert (Ht : (x / ulp x == inject_Z (m * P))%Q).
  { rewrite inject_Z_mult. fold x. rewrite <- (Qmult_1_r (x / ulp x)), <- HP. field. lra. }
  assert (Hnear : (nearest x == x)%Q).
  { unfold nearest. rewrite (round_even_Z _ _ Ht), inject_Z_mult. fold x.
    set (Pq := inject_Z P) in *. set (U := ulp x) in *. nra. }
  unfold round64. assert (Hpos : (x ?= 0)%Q = Gt) by (apply Qgt_alt; lra). rewrite Hpos.
  destruct (Qle_bool (2 ^ 1024) (nearest x)) eqn:Hover.
  - apply Qle_bool_iff in Hover.
    assert (Hbig : (2 ^ 53 <= 2 ^ 1024)%Q) by (apply Qpower_le_compat_l; [lia | lra]).
    lra.
  - f_equal. apply Qc_is_canon. simpl. by rewrite !Qred_correct.
Qed.

Lemma Qlog2_unique (x : Q) (e : Z) :
  (0 < x)%Q → (2 ^ e <= x)%Q → (x < 2 ^ (e + 1))%Q → Qlog2 x = e.
Proof.
  intros Hx Hlow Hhigh. destruct (Qlog2_spec x Hx) as [Hlow' Hhigh'].
  assert (H1 : (2 ^ e < 2 ^ (Qlog2 x + 1))%Q) by lra.
  assert (H2 : (2 ^ Qlog2 x < 2 ^ (e + 1))%Q) by lra.
  apply (Qpower_lt_compat_l_inv 2 e (Qlog2 x + 1)) in H1; [|lra].
  apply (Qpower_lt_compat_l_inv 2 (Qlog2 x) (e + 1)) in H2; [|lra]. lia.
Qed.

Lemma round_even_comp (t t' : Q) : (t == t')%Q → round_even t = round_even t'.
Proof.
  intros Ht. unfold round_even. rewrite (Qfloor_comp _ _ Ht).
  assert (Hc : (t - inject_Z (Qfloor t') ?= 1 # 2)%Q
               = (t' - inject_Z (Qfloor t') ?= 1 # 2)%Q)
    by (apply Qcompare_comp; [by rewrite Ht | reflexivity]).
  by rewrite Hc.
Qed.

Lemma nearest_comp (x y : Q) : (0 < x)%Q → (x == y)%Q → (nearest x == nearest y)%Q.
Proof.
  intros Hx Hxy. unfold nearest, ulp.
  assert (He : Qlog2 x = Qlog2 y).
  { destruct (Qlog2_spec y ltac:(lra)) as [Hlow Hhigh]. apply Qlog2_unique; lra. }
  rewrite He.
  by rewrite (round_even_comp (x / 2 ^ (Z.max (Qlog2 y) (-1022) - 52))%Q
                (y / 2 ^ (Z.max (Qlog2 y) (-1022) - 52))%Q) by (by rewrite Hxy).
Qed.

(** Rounding depends on the value only, not on the fraction that holds it. *)
Lemma round64_comp (x y : Q) : (x == y)%Q → round64 x = round64 y.
Proof.
  intros Hxy. unfold round64.
  assert (Hc : (x ?= 0)%Q = (y ?= 0)%Q) by (apply Qcompare_comp; [done | reflexivity]).
  rewrite Hc.
  destruct (y ?= 0)%Q eqn:Hsign; [done|..].
  - apply Qlt_alt in Hsign.
    assert (Hnear : (nearest (- x) == nearest (- y))%Q)
      by (apply nearest_comp; [lra | by rewrite Hxy]).
    assert (Hover : Qle_bool (2 ^ 1024) (nearest (- x)) = Qle_bool (2 ^ 1024) (nearest (- y))).
    { apply eq_true_iff_eq. rewrite !Qle_bool_iff. by rewrite Hnear. }
    rewrite Hover. clear Hover.
    destruct (Qle_bool _ _); [done|]. f_equal. apply Qc_is_canon. simpl.
    by rewrite !Qred_correct, Hnear.
  - apply Qgt_alt in Hsign.
    assert (Hnear : (nearest x == nearest y)%Q) by (apply nearest_comp; [lra | done]).
    assert (Hover : Qle_bool (2 ^ 1024) (nearest x) = Qle_bool (2 ^ 1024) (nearest y)).
    { apply eq_true_iff_eq. rewrite !Qle_bool_iff. by rewrite Hnear. }
    rewrite Hover. clear Hover.
    destruct (Qle_bool _ _); [done|]. f_equal. apply Qc_is_canon. simpl.
    by rewrite !Qred_correct, Hnear.
Qed.

Lemma round_even_nonneg (t : Q) : (0 <= t)%Q → (0 ≤ round_even t)%Z.
Proof.
  intros Ht. assert (Hfloor : (0 ≤ Qfloor t)%Z).
  { rewrite <- (Qfloor_Z 0). by apply Qfloor_resp_le. }
  destruct (round_even_cases t) as [[-> _] | [-> _]]; lia.
Qed.

Lemma nearest_nonneg (x : Q) : (0 < x)%Q → (0 <= nearest x)%Q.
Proof.
  intros Hx. unfold nearest. pose proof (pow2_pos (Z.max (Qlog2 x) (-1022) - 52)) as Hu.
  fold (ulp x) in Hu.
  assert (Hr : (0 <= inject_Z (round_even (x / ulp x)))%Q).
  { rewrite <- (Zle_Qle 0). apply round_even_nonneg. apply Qle_shift_div_l; lra. }
  set (R := inject_Z _) in *. set (U := ulp x) in *. nra.
Qed.

(** ** The quota of a polygon *)

(** Below 2^53 the quota is the ceiling of the exact quotient. *)
Lemma leadsPerPolygon_exact (maxLeads : Z) (count : nat) :
  (0 < maxLeads < 2 ^ 53)%Z → (0 < Z.of_nat count < 2 ^ 32)%Z →
  leadsPerPolygon maxLeads count
  = Qceiling (Qc_of_Z maxLeads / Qc_of_Z (Z.of_nat count))%Qc.
Proof.
  intros Htotal Hcount. unfold leadsPerPolygon, jsdiv.
  assert (Hne : Qc_of_Z (Z.of_nat count) ≠ 0%Qc) by (apply Qc_of_nat_nonzero; lia).
  rewrite decide_False by done.
  destruct (round64_quotient maxLeads (Z.of_nat count) Htotal Hcount) as (y & Hy & Hceil).
  assert (Hq : (Qc_of_Z maxLeads / Qc_of_Z (Z.of_nat count)
                == inject_Z maxLeads / inject_Z (Z.of_nat count))%Q).
  { by rewrite !Qc_of_Z_this. }
  rewrite (round64_comp _ _ Hq), Hy, Hceil.
  apply Qceiling_comp. by rewrite Qcdiv_this.
Qed.

(** The quota is the least integer whose [count]-fold covers [maxLeads]. *)
Lemma leadsPerPolygon_least (maxLeads : Z) (count : nat) (q : Z) :
  (0 < maxLeads < 2 ^ 53)%Z → (0 < Z.of_nat count < 2 ^ 32)%Z →
  (leadsPerPolygon maxLeads count ≤ q)%Z ↔ (maxLeads ≤ q * Z.of_nat count)%Z.
Proof.
  intros Htotal Hcount. rewrite leadsPerPolygon_exact by done.
  rewrite Qceiling_le_iff, Qcdiv_le_iff by (apply Qc_of_nat_pos; lia).
  by rewrite <- Z2Qc_inj_mul, <- Z2Qc_inj_le.
Qed.

(** A total that is not negative gives a quota that is not negative. *)
Lemma leadsPerPolygon_nonneg (maxLeads : Z) (count : nat) :
  (0 ≤ maxLeads)%Z → (0 ≤ leadsPerPolygon maxLeads count)%Z.
Proof.
  intros Htotal. unfold leadsPerPolygon, jsdiv.
  case_decide as Hzero; [by repeat case_decide|].
  set (x := (Qc_of_Z maxLeads / Qc_of_Z (Z.of_nat count))%Q).
  assert (Hx : (0 <= x)%Q).
  { unfold x. apply Qle_shift_div_l.
    - assert (Hc : (0 < Qc_of_Z (Z.of_nat count))%Qc).
      { destruct count as [|n]; [exfalso; apply Hzero; exact Z2Qc_inj_0|].
        apply Qc_of_nat_pos. lia. }
      apply Hc.
    - rewrite Qmult_0_l, Qc_of_Z_this. by rewrite <- (Zle_Qle 0). }
  unfold round64. destruct (x ?= 0)%Q eqn:Hsign.
  - done.
  - apply Qlt_alt in Hsign. lra.
  - apply Qgt_alt in Hsign. destruct (Qle_bool _ _); [done|]. simpl.
    rewrite <- (Qceiling_Z 0). apply Qceiling_resp_le.
    rewrite Qred_correct. by apply nearest_nonneg.
Qed.

(** ** Geometry resolver *)

Lemma Qc_two_nonzero : (2 : Qc) ≠ 0%Qc.
Proof. intros Heq. apply (f_equal this) in Heq. vm_compute in Heq. discriminate. Qed.

Lemma nonempty_length {A} (xs : list A) : xs ≠ [] → 0 < List.length xs.
Proof. destruct xs; [done | simpl; lia]. Qed.

Lemma jsadd_double (a x : Qc) : double (a + x)%Qc → jsadd (Fin a) (Fin x) = Fin (a + x)%Qc.
Proof.
  unfold double. intros <-. unfold jsadd. apply round64_comp. symmetry. apply Qcplus_this.
Qed.

Lemma jsdiv_double (a b : Qc) :
  b ≠ 0%Qc → double (a / b)%Qc → jsdiv (Fin a) (Fin b) = Fin (a / b)%Qc.
Proof.
  unfold double. intros Hb <-. unfold jsdiv. rewrite decide_False by done.
  apply round64_comp. symmetry. apply Qcdiv_this.
Qed.

(** Where no sum rounds, adding in order gives the exact sum. *)
Lemma rounded_sum_exact (xs : list Qc) :
  ∀ acc, Forall double (sums_from acc xs) →
    fold_left (λ sum x, jsadd sum (Fin x)) xs (Fin acc)
    = Fin (acc + foldr Qcplus 0%Qc xs)%Qc.
Proof.
  induction xs as [|x xs IH]; intros acc Hexact; cbn [fold_left foldr sums_from] in *.
  - by rewrite Qcplus_0_r.
  - apply Forall_cons in Hexact as [Hx Hxs].
    by rewrite (jsadd_double _ _ Hx), IH, Qcplus_assoc.
Qed.

Lemma rounded_mean_exact (xs : list Qc) :
  xs ≠ [] → exact_mean xs → rounded_mean xs = Fin (mean xs).
Proof.
  intros Hne [Hsums Hmean]. unfold rounded_mean.
  rewrite (rounded_sum_exact xs 0%Qc Hsums), Qcplus_0_l.
  apply jsdiv_double; [|done].
  unfold length_num. by apply Qc_of_nat_nonzero, nonempty_length.
Qed.

Lemma fold_left_coord (f : LatLng → Qc) (coords : list LatLng) (acc : number) :
  fold_left (λ sum c, jsadd sum (Fin (f c))) coords acc
  = fold_left (λ sum x, jsadd sum (Fin x)) (f <$> coords) acc.
Proof. revert acc. induction coords as [|c coords IH]; intros acc; simpl; [done | apply IH]. Qed.

Lemma fold_left_add_coord (polygon : list LatLng) (t : Totals) :
  fold_left add_coord polygon t
  = {| totalLat := fold_left (λ sum x, jsadd sum (Fin x)) (lat <$> polygon) (totalLat t);
       totalLng := fold_left (λ sum x, jsadd sum (Fin x)) (lng <$> polygon) (totalLng t);
       totalPoints := fold_left (λ n _, jsadd n (Fin 1%Qc)) polygon (totalPoints t) |}.
Proof.
  revert t. induction polygon as [|c polygon IH]; intros [a b n]; simpl; [done|].
  by rewrite IH.
Qed.

Lemma fold_left_polygons (polys : list (list LatLng)) (t : Totals) :
  fold_left (λ t polygon, fold_left add_coord polygon t) polys t
  = fold_left add_coord (concat polys) t.
Proof.
  revert t. induction polys as [|p polys IH]; intros t; simpl; [done|].
  by rewrite IH, fold_left_app.
Qed.

(** Counting up from [n] stays exact below 2^53. *)
Lemma count_exact {A} (xs : list A) :
  ∀ n : nat, (Z.of_nat (n + List.length xs) < 2 ^ 53)%Z →
    fold_left (λ k _, jsadd k (Fin 1%Qc)) xs (Fin (Qc_of_Z (Z.of_nat n)))
    = Fin (Qc_of_Z (Z.of_nat (n + List.length xs))).
Proof.
  induction xs as [|x xs IH]; intros n Hn; cbn [fold_left List.length] in *.
  - by rewrite Nat.add_0_r.
  - assert (Hstep : jsadd (Fin (Qc_of_Z (Z.of_nat n))) (Fin 1%Qc)
                    = Fin (Qc_of_Z (Z.of_nat (S n)))).
    { simpl. rewrite <- (round64_Z (Z.of_nat (S n))) by lia.
      apply round64_comp. rewrite Nat2Z.inj_succ. unfold Z.succ.
      by rewrite inject_Z_plus, Qred_correct. }
    rewrite Hstep, IH by lia. do 3 f_equal. lia.
Qed.

Lemma count_from_zero {A} (xs : list A) :
  (Z.of_nat (List.length xs) < 2 ^ 53)%Z →
  fold_left (λ k _, jsadd k (Fin 1%Qc)) xs (Fin 0%Qc) = Fin (length_num xs).
Proof.
  intros Hcount. pose proof (count_exact xs 0 Hcount) as Hc.
  change (Z.of_nat 0) with 0%Z in Hc. by rewrite Z2Qc_inj_0 in Hc.
Qed.

(** An empty vertex list divides zero by zero. *)
Lemma center_of_no_vertices (area : SearchArea) :
  type area = "polygon" → coordinates area = [] →
  calculateAreaCenter area = Some {| plat := NaN; plng := NaN |}.
Proof. intros Ht Hc. unfold calculateAreaCenter. by rewrite Ht, Hc. Qed.

Lemma calculateAreaCenter_polygon (area : SearchArea) :
  type area = "polygon" ∨ type area = "polyline" →
  calculateAreaCenter area = Some (rounded_mean_point (coordinates area)).
Proof.
  intros Ht. unfold calculateAreaCenter.
  assert (String.eqb (type area) "circle" = false
          ∧ String.eqb (type area) "rectangle" = false
          ∧ String.eqb (type area) "polygon" || String.eqb (type area) "polyline"
            = true) as (-> & -> & ->)
    by (destruct Ht as [-> | ->]; done).
  unfold rounded_mean_point, rounded_mean, length_num.
  by rewrite !fold_left_coord, !length_fmap.
Qed.

Lemma calculateAreaCenter_multipolygon (area : SearchArea) :
  type area = "multipolygon" →
  (Z.of_nat (List.length (concat (polygons area))) < 2 ^ 53)%Z →
  calculateAreaCenter area = Some (rounded_mean_point (concat (polygons area))).
Proof.
  intros Ht Hcount. unfold calculateAreaCenter. rewrite Ht. simpl.
  rewrite fold_left_polygons, fold_left_add_coord. simpl.
  rewrite (count_from_zero (concat (polygons area)) Hcount).
  unfold rounded_mean_point, rounded_mean, length_num. by rewrite !length_fmap.
Qed.

Lemma calculateAreaCenter_unknown (area : SearchArea) :
  type area ∉ ["circle"; "rectangle"; "polygon"; "polyline"; "multipolygon"] →
  calculateAreaCenter area = None.
Proof.
  intros Hother. unfold calculateAreaCenter.
  repeat (rewrite not_elem_of_cons in Hother;
          destruct Hother as [?%String.eqb_neq Hother]).
  by repeat match goal with Hf : String.eqb _ _ = false |- _ => rewrite Hf; clear Hf end.
Qed.

Lemma rounded_mean_point_exact (vertices : list LatLng) :
  vertices ≠ [] →
  exact_mean (lat <$> vertices) → exact_mean (lng <$> vertices) →
  rounded_mean_point vertices = mean_point vertices.
Proof.
  intros Hne Hlat Hlng. unfold rounded_mean_point, mean_point.
  by rewrite !rounded_mean_exact by (done || by destruct vertices).
Qed.

(** C6, as amended: the center of a circle is its stored center; of a
    rectangle, the midpoint of its bounds wherever the sum of two bounds
    and its half are doubles (so north 10, south 0, east 10, west 0 give
    latitude 5 and longitude 5); of a polygon or polyline, the mean of its
    vertices as double arithmetic computes it, adding in order and
    dividing by the count, which is the arithmetic mean of the vertices
    wherever no sum and not the quotient is rounded; of a multipolygon of
    fewer than 2^53 vertices, that mean over all the vertices of all its
    polygons, not weighted by polygon; and the center is null for any
    other type. *)
Theorem calculateAreaCenter_spec (area : SearchArea) :
  (type area = "circle" →
     calculateAreaCenter area = Some (point_of (center area)))
  ∧ (type area = "rectangle" →
     double (north (bounds area) + south (bounds area))%Qc →
     double ((north (bounds area) + south (bounds area)) / 2)%Qc →
     double (east (bounds area) + west (bounds area))%Qc →
     double ((east (bounds area) + west (bounds area)) / 2)%Qc →
     calculateAreaCenter area
     = Some {| plat := Fin ((north (bounds area) + south (bounds area)) / 2)%Qc;
               plng := Fin ((east (bounds area) + west (bounds area)) / 2)%Qc |})
  ∧ (type area = "rectangle" →
     bounds area = {| north := Qc_of_Z 10; south := Qc_of_Z 0;
                      east := Qc_of_Z 10; west := Qc_of_Z 0 |} →
     calculateAreaCenter area
     = Some {| plat := Fin (Qc_of_Z 5); plng := Fin (Qc_of_Z 5) |})
  ∧ (type area = "polygon" ∨ type area = "polyline" →
     calculateAreaCenter area = Some (rounded_mean_point (coordinates area))
     ∧ (coordinates area ≠ [] →
        exact_mean (lat <$> coordinates area) →
        exact_mean (lng <$> coordinates area) →
        calculateAreaCenter area = Some (mean_point (coordinates area))))
  ∧ (type area = "multipolygon" →
     (Z.of_nat (List.length (concat (polygons area))) < 2 ^ 53)%Z →
     calculateAreaCenter area = Some (rounded_mean_point (concat (polygons area)))
     ∧ (concat (polygons area) ≠ [] →
        exact_mean (lat <$> concat (polygons area)) →
        exact_mean (lng <$> concat (polygons area)) →
        calculateAreaCenter area = Some (mean_point (concat (polygons area)))))
  ∧ (type area ∉ ["circle"; "rectangle"; "polygon"; "polyline"; "multipolygon"] →
     calculateAreaCenter area = None).
Proof.
  split; [|split; [|split; [|split; [|split]]]].
  - unfold calculateAreaCenter. by intros ->.
  - unfold calculateAreaCenter. intros -> Hns Hns2 Hew Hew2. cbn -[jsadd jsdiv].
    rewrite (jsadd_double _ _ Hns), (jsadd_double _ _ Hew).
    by rewrite !jsdiv_double by (done || apply Qc_two_nonzero).
  - unfold calculateAreaCenter. intros -> ->. vm_compute.
    do 2 f_equal; f_equal; by apply Qc_is_canon.
  - intros Htype. rewrite (calculateAreaCenter_polygon area Htype).
    split; [done|]. intros Hne Hlat Hlng.
    by rewrite rounded_mean_point_exact.
  - intros Htype Hcount. rewrite (calculateAreaCenter_multipolygon area Htype Hcount).
    split; [done|]. intros Hne Hlat Hlng.
    by rewrite rounded_mean_point_exact.
  - apply calculateAreaCenter_unknown.
Qed.

(** The original reading fails on doubles: the polygon of the vertices
    0.1, 0.2 and 0.3 has the center 0.20000000000000004 (the double above
    0.2), which is not the arithmetic mean of its vertices. *)
Lemma calculateAreaCenter_rounds :
  calculateAreaCenter tenths
  = Some {| plat := Fin (literal (1 # 5) + Q2Qc (1 # 2 ^ 55))%Qc;
            plng := Fin (literal (1 # 5) + Q2Qc (1 # 2 ^ 55))%Qc |}
  ∧ calculateAreaCenter tenths ≠ Some (mean_point (coordinates tenths)).
Proof.
  split.
  - vm_compute. do 2 f_equal; f_equal; by apply Qc_is_canon.
  - intros Heq.
    assert (Hlat : plat <$> calculateAreaCenter tenths
                   = Some (Fin (mean (lat <$> coordinates tenths)))) by (by rewrite Heq).
    vm_compute in Hlat. discriminate.
Qed.

(** The mean over all vertices is not the mean of the polygons' means. *)
Example multipolygon_not_polygon_weighted :
  let p1 := [{| lat := Qc_of_Z 0; lng := Qc_of_Z 0 |}] in
  let p2 := [{| lat := Qc_of_Z 3; lng := Qc_of_Z 3 |};
             {| lat := Qc_of_Z 6; lng := Qc_of_Z 6 |}] in
  calculateAreaCenter
    {| type := "multipolygon"; center := {| lat := 0%Qc; lng := 0%Qc |};
       radius := 0%Qc;
       bounds := {| north := 0%Qc; south := 0%Qc; east := 0%Qc; west := 0%Qc |};
       coordinates := []; polygons := [p1; p2] |}
  = Some {| plat := Fin (Qc_of_Z 3); plng := Fin (Qc_of_Z 3) |}
  ∧ mean [mean (lat <$> p1); mean (lat <$> p2)] ≠ Qc_of_Z 3.
Proof.
  split.
  - vm_compute. do 2 f_equal; f_equal; by apply Qc_is_canon.
  - intros Heq. apply (f_equal this) in Heq. vm_compute in Heq. discriminate.
Qed.

Lemma calculateAreaCenter_witness :
  calculateAreaCenter
    {| type := "rectangle"; center := {| lat := 0%Qc; lng := 0%Qc |};
       radius := 0%Qc;
       bounds := {| north := Qc_of_Z 3; south := Qc_of_Z 1;
                    east := Qc_of_Z 8; west := Qc_of_Z 4 |};
       coordinates := []; polygons := [] |}
  = Some {| plat := Fin ((Qc_of_Z 3 + Qc_of_Z 1) / 2)%Qc;
            plng := Fin ((Qc_of_Z 8 + Qc_of_Z 4) / 2)%Qc |}
  ∧ calculateAreaCenter (singlePolygonArea [vertex 0 0; vertex 3 6; vertex 6 3])
    = Some (mean_point [vertex 0 0; vertex 3 6; vertex 6 3]).
Proof.
  split.
  - apply (calculateAreaCenter_spec
             {| type := "rectangle"; center := {| lat := 0%Qc; lng := 0%Qc |};
                radius := 0%Qc;
                bounds := {| north := Qc_of_Z 3; south := Qc_of_Z 1;
                             east := Qc_of_Z 8; west := Qc_of_Z 4 |};
                coordinates := []; polygons := [] |});
      [reflexivity | unfold double; vm_compute; f_equal; by apply Qc_is_canon ..].
  - apply (calculateAreaCenter_spec
             (singlePolygonArea [vertex 0 0; vertex 3 6; vertex 6 3]));
      [by left | done | ..];
      (split; [repeat constructor|]);
      unfold double; vm_compute; f_equal; by apply Qc_is_canon.
Defined.

(** ** Quota split *)

Section quota.
Context `{Builtins}.
Variable services : AreaServices.
Variable apiKey : option string.

Lemma locate_polygon (i : nat) (polygon : list LatLng) :
  ∃ center location,
    locate services i (singlePolygonArea polygon)
    = ([Geocode center], Some (reverseGeocode services i center), Returned location).
Proof.
  unfold locate. simpl.
  destruct (some_text _); eexists _, _; reflexivity.
Qed.

(** Every place search of the polygon loop is given the same quota, and a
    loop that completes has searched every polygon. *)
Lemma search_polygons_quota (rest : list (list LatLng)) :
  ∀ i count query zipcode country quota allResults detected,
    let run := search_polygons services apiKey i count rest query zipcode country
                 quota allResults detected in
    (∃ k, k ≤ List.length rest ∧ omap search_quota run.1 = replicate k quota)
    ∧ (∀ r, run.2 = Some (Returned r) →
         omap search_quota run.1 = replicate (List.length rest) quota).
Proof.
  induction rest as [|polygon rest IH]; intros i count query zipcode country quota
    allResults detected; cbn -[locate scrapeGoogleMaps].
  - split; [exists 0; split; [lia | done] | done].
  - destruct (locate_polygon i polygon) as (center & location & ->).
    destruct (scrapeGoogleMaps _ _ _ _ _ _ _ _) as [inner [[polygonResults|message]|]];
      simpl.
    + specialize (IH (S i) count query zipcode country quota
                    (allResults ++ polygonResults)
                    (detected ++ [reverseGeocode services i center])).
      destruct (search_polygons _ _ _ _ _ _ _ _ _ _ _) as [later r] eqn:Hrun.
      simpl in *. destruct IH as [(k & Hk & Hquotas) Hdone].
      assert (Hpause : ∀ tr, omap search_quota
                ((if bool_decide (i < count - 1) then [Pause 500] else []) ++ tr)
                = omap search_quota tr) by (intros tr; by case_bool_decide).
      rewrite Hpause. split.
      * exists (S k). split; [lia|]. simpl. by rewrite Hquotas.
      * intros r' ->. by rewrite (Hdone r').
    + split; [exists 1; split; [lia | done] | done].
    + split; [exists 1; split; [lia | done] | done].
Qed.
End quota.

(** C5, as amended: for a total from 1 to 2^53 - 1 and a multipolygon of
    n polygons, 1 <= n < 2^32, the per-polygon quota is ceil(total / n),
    the least integer whose n-fold covers the total; every polygon search
    is given that same quota, so the quotas sum to at least the total; 50
    leads over 3 polygons give 17. *)
Theorem leadsPerPolygon_spec `{Builtins} (services : AreaServices)
    (apiKey query : option string) (area : SearchArea)
    (zipcode country : option string) (total : Z) :
  (0 < total < 2 ^ 53)%Z →
  type area = "multipolygon" →
  0 < List.length (polygons area) →
  (Z.of_nat (List.length (polygons area)) < 2 ^ 32)%Z →
  let n := List.length (polygons area) in
  let quota := leadsPerPolygon total n in
  let run := scrape_area services apiKey query (Some area) zipcode country total in
  quota = ((total + Z.of_nat n - 1) / Z.of_nat n)%Z
  ∧ (∀ q, (quota ≤ q)%Z ↔ (total ≤ q * Z.of_nat n)%Z)
  ∧ (∃ k, k ≤ n ∧ omap search_quota run.1.1 = replicate k quota)
  ∧ (∀ body, run.1.2 = Some (Status200 body) →
       omap search_quota run.1.1 = replicate n quota)
  ∧ (total ≤ Z.of_nat n * quota)%Z
  ∧ leadsPerPolygon 50 3 = 17%Z.
Proof.
  intros Htotal Htype Hn Hn' n quota run.
  assert (Hleast : ∀ q, (quota ≤ q)%Z ↔ (total ≤ q * Z.of_nat n)%Z)
    by (intros q; apply leadsPerPolygon_least; [done | subst n; lia]).
  assert (Hcover : (total ≤ Z.of_nat n * quota)%Z)
    by (rewrite Z.mul_comm; by apply Hleast).
  split; [|split; [done|split; [|split; [|split; [done|]]]]].
  - apply Z.le_antisymm.
    + apply Hleast.
      pose proof (Z.mul_div_le (total + Z.of_nat n - 1) (Z.of_nat n)) as Hle.
      pose proof (Z.mod_pos_bound (total + Z.of_nat n - 1) (Z.of_nat n)) as Hmod.
      pose proof (Z.div_mod (total + Z.of_nat n - 1) (Z.of_nat n)) as Hdiv.
      lia.
    + apply Z.lt_succ_r, Z.div_lt_upper_bound; lia.
  - subst run. unfold scrape_area.
    destruct (some_text query); simpl; [|exists 0; split; [lia | done]].
    rewrite Htype. simpl. rewrite bool_decide_true by done.
    pose proof (search_polygons_quota services apiKey (polygons area) 0 n
                  (text_of query) zipcode country quota [] []) as [Hsome _].
    fold n. fold quota.
    destruct (search_polygons _ _ _ _ _ _ _ _ _ _ _) as [tr [[[all detected]|message]|]];
      simpl in *; done.
  - subst run. unfold scrape_area.
    destruct (some_text query); simpl; [|done].
    rewrite Htype. simpl. rewrite bool_decide_true by done.
    pose proof (search_polygons_quota services apiKey (polygons area) 0 n
                  (text_of query) zipcode country quota [] []) as [_ Hdone].
    fold n. fold quota.
    destruct (search_polygons _ _ _ _ _ _ _ _ _ _ _) as [tr [[[all detected]|message]|]];
      simpl in *; try done.
    intros body _. by apply (Hdone (all, detected)).
  - by vm_compute.
Qed.

(** The original reading fails beyond 2^53: the total 13510798882111492
    is a double, its quotient by 3 rounds down to 4503599627370497, and
    three such quotas fall short of the total. *)
Lemma leadsPerPolygon_falls_short :
  double (Qc_of_Z 13510798882111492)
  ∧ leadsPerPolygon 13510798882111492 3 = 4503599627370497%Z
  ∧ (Z.of_nat 3 * leadsPerPolygon 13510798882111492 3 < 13510798882111492)%Z.
Proof.
  split; [|split].
  - unfold double. vm_compute. f_equal. by apply Qc_is_canon.
  - by vm_compute.
  - by vm_compute.
Qed.

Lemma leadsPerPolygon_witness :
  leadsPerPolygon 50 3 = ((50 + 3 - 1) / 3)%Z.
Proof.
  exact (proj1 (leadsPerPolygon_spec (H := sample_builtins) silent_services
                  (Some "key") (Some "cafe") three_polygons None None 50
                  ltac:(split; reflexivity) eq_refl ltac:(simpl; lia)
                  ltac:(reflexivity))).
Defined.

(** ** Deduplication of multi-polygon results *)

Lemma sameValueZero_sym (a b : value) : sameValueZero a b = sameValueZero b a.
Proof. destruct a, b; simpl; try done; apply bool_decide_ext; naive_solver. Qed.

Lemma sameValueZero_eq (a b : value) : sameValueZero a b = true → a = b.
Proof.
  destruct a, b; simpl; try done; intros Heq%bool_decide_eq_true; by subst.
Qed.

Lemma set_has_false (seen : list value) (v : value) :
  set_has seen v = false → ∀ s, s ∈ seen → sameValueZero v s = false.
Proof.
  unfold set_has. intros Hnone s Hs.
  destruct (sameValueZero v s) eqn:Hsame; [|done].
  assert (existsb (sameValueZero v) seen = true) as Hex
    by (apply existsb_exists; exists s; by rewrite <- list_elem_of_In).
  congruence.
Qed.

Lemma set_has_true (seen : list value) (v : value) :
  set_has seen v = true → ∃ s, s ∈ seen ∧ sameValueZero v s = true.
Proof.
  unfold set_has. intros (s & Hs & Hsame)%existsb_exists.
  exists s. by rewrite list_elem_of_In.
Qed.

Lemma dedup_inv_start : dedup_inv [] {| uniqueResults := []; seenPlaceIds := [] |}.
Proof.
  split; simpl; try done.
  - intros x Hx. by apply elem_of_nil in Hx.
  - intros x Hx. by apply elem_of_nil in Hx.
  - intros y Hy. by apply elem_of_nil in Hy.
Qed.

Lemma dedup_inv_step (done : list obj) (st : Dedup) (result : obj) :
  dedup_inv done st → dedup_inv (done ++ [result]) (dedup_step st result).
Proof.
  intros [Hseen Htruthy Hdistinct Hfirst Hcovered]. unfold dedup_step.
  assert (Hkeep : ∀ x, x ∈ uniqueResults st →
            ∃ pre post, done ++ [result] = pre ++ x :: post
              ∧ ∀ y, y ∈ pre → sameValueZero (placeId y) (placeId x) = false).
  { intros x (pre & post & -> & Hpre)%Hfirst.
    exists pre, (post ++ [result]). by rewrite <- app_assoc. }
  destruct (truthy (placeId result)) eqn:Hid; simpl.
  - destruct (set_has (seenPlaceIds st) (placeId result)) eqn:Hhas; simpl.
    + split; try done.
      intros y [Hy | ->%list_elem_of_singleton]%elem_of_app Hy'; [by apply Hcovered|].
      apply set_has_true in Hhas as (s & Hs & Hsame).
      rewrite Hseen in Hs. apply list_elem_of_fmap in Hs as (x & -> & Hx).
      right. by exists x.
    + pose proof (set_has_false _ _ Hhas) as Hnew. rewrite Hseen in Hnew.
      split; simpl.
      * by rewrite fmap_app, Hseen.
      * intros x [Hx | ->%list_elem_of_singleton]%elem_of_app; [by apply Htruthy | done].
      * intros i j x y Hij Hx Hy.
        destruct (decide (j < List.length (uniqueResults st))) as [Hj | Hj].
        -- rewrite lookup_app_l in Hx, Hy by lia. exact (Hdistinct i j x y Hij Hx Hy).
        -- rewrite lookup_app_r in Hy by lia.
           apply list_lookup_singleton_Some in Hy as [Hj' ->].
           rewrite lookup_app_l in Hx by lia.
           rewrite sameValueZero_sym. apply Hnew, list_elem_of_fmap.
           exists x. split; [done | by eapply list_elem_of_lookup_2].
      * intros x [Hx | ->%list_elem_of_singleton]%elem_of_app; [by apply Hkeep|].
        exists done, []. split; [done|]. intros y Hy.
        destruct (truthy (placeId y)) eqn:Hty.
        -- destruct (Hcovered y Hy Hty) as [Hin | (x & Hx & Hsame)].
           ++ rewrite sameValueZero_sym. apply Hnew, list_elem_of_fmap. by exists y.
           ++ destruct (sameValueZero (placeId y) (placeId result)) eqn:Hyr; [|done].
              apply sameValueZero_eq in Hsame. rewrite Hsame in Hyr.
              rewrite sameValueZero_sym in Hyr.
              rewrite (Hnew (placeId x)) in Hyr; [done|].
              apply list_elem_of_fmap. by exists x.
        -- destruct (sameValueZero (placeId y) (placeId result)) eqn:Hyr; [|done].
           apply sameValueZero_eq in Hyr. congruence.
      * intros y [Hy | ->%list_elem_of_singleton]%elem_of_app Hty.
        -- destruct (Hcovered y Hy Hty) as [Hin | (x & Hx & Hsame)].
           ++ left. apply elem_of_app. by left.
           ++ right. exists x. split; [apply elem_of_app; by left | done].
        -- left. apply elem_of_app. right. by apply list_elem_of_singleton.
  - split; try done.
    intros y [Hy | ->%list_elem_of_singleton]%elem_of_app Hy'; [by apply Hcovered|].
    congruence.
Qed.

Lemma dedup_inv_fold (allResults done : list obj) (st : Dedup) :
  dedup_inv done st → dedup_inv (done ++ allResults) (fold_left dedup_step allResults st).
Proof.
  revert done st. induction allResults as [|r rest IH]; intros done st Hinv; simpl.
  - by rewrite app_nil_r.
  - rewrite (assoc_L (++) done [r] rest : done ++ r :: rest = (done ++ [r]) ++ rest).
    by apply IH, dedup_inv_step.
Qed.

Lemma removeDuplicates_inv (allResults : list obj) :
  dedup_inv allResults
    (fold_left dedup_step allResults {| uniqueResults := []; seenPlaceIds := [] |}).
Proof. apply (dedup_inv_fold allResults []), dedup_inv_start. Qed.

Lemma slice0_take {A} (xs : list A) (n : Z) : ∃ k, slice0 xs n = take k xs.
Proof. unfold slice0. case_decide; eauto. Qed.

Lemma elem_of_take_1 {A} (x : A) (k : nat) (l : list A) : x ∈ take k l → x ∈ l.
Proof. apply subseteq_take. Qed.

Lemma finalResults_take (allResults : list obj) (maxLeads : Z) :
  ∃ k, finalResults allResults maxLeads = take k (removeDuplicates allResults).
Proof. apply slice0_take. Qed.

(** C4: after the per-polygon results are concatenated, the final list has
    each placeId at most once, each lead in it is the earliest lead of the
    concatenation with its placeId, every placeId of the concatenation is
    kept by the deduplication, and the final list is the deduplicated list
    cut to at most maxLeads leads: an identifier is missing from it only
    when the list is full. *)
Theorem finalResults_spec (allResults : list obj) (maxLeads : Z) :
  let final := finalResults allResults maxLeads in
  (∀ i j x y,
     final !! i = Some x → final !! j = Some y →
     sameValueZero (placeId x) (placeId y) = true → i = j)
  ∧ (∀ i j x y s,
     final !! i = Some x → final !! j = Some y →
     placeId x = VStr s → placeId y = VStr s → i = j)
  ∧ (∀ x, x ∈ final →
     ∃ pre post, allResults = pre ++ x :: post
       ∧ ∀ y, y ∈ pre → sameValueZero (placeId y) (placeId x) = false)
  ∧ (∀ y, y ∈ allResults → truthy (placeId y) = true →
     ∃ x, x ∈ removeDuplicates allResults ∧ placeId x = placeId y)
  ∧ final `prefix_of` removeDuplicates allResults
  ∧ ((0 ≤ maxLeads)%Z →
     Z.of_nat (List.length final)
     = Z.min maxLeads (Z.of_nat (List.length (removeDuplicates allResults))))
  ∧ ((0 ≤ maxLeads)%Z → (Z.of_nat (List.length final) ≤ maxLeads)%Z)
  ∧ ((0 ≤ maxLeads)%Z →
     ∀ y, y ∈ allResults → truthy (placeId y) = true →
       (∃ x, x ∈ final ∧ placeId x = placeId y)
       ∨ Z.of_nat (List.length final) = maxLeads).
Proof.
  intros final.
  destruct (finalResults_take allResults maxLeads) as [k Hk].
  pose proof (removeDuplicates_inv allResults) as [_ Htruthy Hdistinct Hfirst Hcovered].
  fold (removeDuplicates allResults) in Htruthy, Hdistinct, Hfirst, Hcovered.
  assert (Hlookup : ∀ i x, final !! i = Some x → removeDuplicates allResults !! i = Some x).
  { intros i x. subst final. rewrite Hk. by intros [? _]%lookup_take_Some. }
  assert (Hat_most : ∀ i j x y,
            final !! i = Some x → final !! j = Some y →
            sameValueZero (placeId x) (placeId y) = true → i = j).
  { intros i j x y Hx%Hlookup Hy%Hlookup Hsame.
    destruct (Nat.lt_total i j) as [Hij | [-> | Hji]]; [|done|].
    - by rewrite (Hdistinct i j x y Hij Hx Hy) in Hsame.
    - rewrite sameValueZero_sym in Hsame.
      by rewrite (Hdistinct j i y x Hji Hy Hx) in Hsame. }
  assert (Hlen : (0 ≤ maxLeads)%Z →
            Z.of_nat (List.length final)
            = Z.min maxLeads (Z.of_nat (List.length (removeDuplicates allResults)))).
  { intros Hpos. subst final. unfold finalResults, slice0.
    rewrite decide_False by lia. rewrite length_take. lia. }
  assert (Hkept : ∀ y, y ∈ allResults → truthy (placeId y) = true →
            ∃ x, x ∈ removeDuplicates allResults ∧ placeId x = placeId y).
  { intros y Hy Hid. destruct (Hcovered y Hy Hid) as [Hin | (x & Hx & Hsame)].
    - by exists y.
    - exists x. split; [done|]. symmetry. by apply sameValueZero_eq. }
  split; [done|]. split.
  { intros i j x y s Hx Hy Hidx Hidy. apply (Hat_most i j x y Hx Hy).
    rewrite Hidx, Hidy. simpl. by apply bool_decide_eq_true. }
  split.
  { intros x Hx. apply Hfirst. subst final. rewrite Hk in Hx.
    by eapply elem_of_take_1. }
  split; [done|]. split.
  { subst final. rewrite Hk. apply prefix_take. }
  split; [done|]. split.
  { intros Hpos. rewrite (Hlen Hpos). lia. }
  intros Hpos y Hy Hid.
  destruct (decide (Z.of_nat (List.length (removeDuplicates allResults)) ≤ maxLeads)%Z)
    as [Hfits | Hfull].
  - left. destruct (Hkept y Hy Hid) as (x & Hx & Hsame).
    exists x. split; [|done].
    subst final. unfold finalResults, slice0. rewrite decide_False by lia.
    rewrite take_ge by lia. done.
  - right. rewrite (Hlen Hpos). lia.
Qed.

Lemma finalResults_witness :
  (∃ x, x ∈ finalResults shared_results 10
     ∧ placeId x = placeId (place_result "d" "second"))
  ∨ Z.of_nat (List.length (finalResults shared_results 10)) = 10%Z.
Proof.
  apply (finalResults_spec shared_results 10).
  - lia.
  - unfold shared_results. set_solver.
  - reflexivity.
Defined.

(** The scenario of two polygons whose results share three identifiers:
    each identifier is kept once, in its first copy. *)
Example shared_identifiers_kept_once :
  removeDuplicates shared_results
  = [place_result "a" "first"; place_result "b" "first"; place_result "c" "first";
     place_result "d" "second"]
  ∧ finalResults shared_results 2
  = [place_result "a" "first"; place_result "b" "first"].
Proof. split; reflexivity. Qed.

(** The response of a multi-polygon search carries the deduplicated and
    limited list of the concatenated results. *)
Lemma scrape_area_multipolygon_results `{Builtins} (services : AreaServices)
    (apiKey query : option string) (area : SearchArea)
    (zipcode country : option string) (maxLeads : Z) (body : AreaBody) :
  let run := scrape_area services apiKey query (Some area) zipcode country maxLeads in
  type area = "multipolygon" → polygons area ≠ [] →
  run.1.2 = Some (Status200 body) →
  body_results body = finalResults run.2 maxLeads
  ∧ totalResultsBeforeDedup body = Some (List.length run.2).
Proof.
  intros run Htype Hsome. subst run. unfold scrape_area.
  destruct (some_text query); simpl; [|done].
  rewrite Htype. simpl.
  rewrite bool_decide_true by by apply nonempty_length.
  destruct (search_polygons _ _ _ _ _ _ _ _ _ _ _) as [tr [[[all detected]|message]|]];
    simpl; try done.
  by intros [= <-].
Qed.

(** C10: every lead of the final list of a multi-polygon search has a
    truthy placeId; a result without one is dropped by the deduplication
    and is not in the response, whatever total was requested. *)
Theorem finalResults_have_placeId (allResults : list obj) (maxLeads : Z) :
  (∀ x, x ∈ finalResults allResults maxLeads → truthy (placeId x) = true)
  ∧ (∀ x, x ∈ allResults → truthy (placeId x) = false →
       x ∉ finalResults allResults maxLeads)
  ∧ ((∀ x, x ∈ allResults → truthy (placeId x) = false) →
       finalResults allResults maxLeads = []).
Proof.
  destruct (finalResults_take allResults maxLeads) as [k Hk].
  pose proof (removeDuplicates_inv allResults) as [_ Htruthy _ _ _].
  fold (removeDuplicates allResults) in Htruthy.
  assert (Hin : ∀ x, x ∈ finalResults allResults maxLeads → truthy (placeId x) = true).
  { intros x Hx. rewrite Hk in Hx. by eapply Htruthy, elem_of_take_1. }
  split; [done|]. split.
  - intros x _ Hnone Hx. apply Hin in Hx. congruence.
  - intros Hnone.
    destruct (finalResults allResults maxLeads) as [|x rest] eqn:Hfinal; [done|].
    pose proof (Hin x (list_elem_of_here x rest)) as Hid.
    assert (Hx : x ∈ removeDuplicates allResults)
      by (apply (elem_of_take_1 x k); rewrite <- Hk; apply list_elem_of_here).
    pose proof (removeDuplicates_inv allResults) as [_ _ _ Hfirst _].
    destruct (Hfirst x Hx) as (pre & post & Hall & _).
    rewrite (Hnone x) in Hid; [done|].
    rewrite Hall. apply elem_of_app. right. apply list_elem_of_here.
Qed.

Lemma finalResults_have_placeId_witness :
  finalResults [unidentified_result] 5 = [].
Proof.
  apply (finalResults_have_placeId [unidentified_result] 5).
  intros x ->%list_elem_of_singleton. reflexivity.
Defined.

(** ** Place search: the pagination loop *)

Section pagination.
Context `{Builtins}.
Variable api : PlacesApi.
Variable params : SearchParams.
Variable maxLeads : Z.

(** The loop ends within [maxPages] turns, and its run is one of [pages_run]. *)
Lemma fetch_pages_sound (fuel : nat) :
  ∀ all token n,
    n < maxPages → maxPages ≤ fuel + n →
    ∃ r, (fetch_pages api fuel params maxLeads all token n).2 = Some r
         ∧ pages_run api params maxLeads n token all
             (fetch_pages api fuel params maxLeads all token n).1 r.
Proof.
  induction fuel as [|fuel IH]; intros all token n Hn Hfuel; [lia|].
  simpl.
  destruct (textSearch api (S n) (requestParams params token)) as [message|data] eqn:Hresp.
  { eexists. split; [done | by apply run_rejected]. }
  destruct (bad_status data) eqn:Hbad.
  { case_bool_decide as Hcollected.
    - eexists. split; [done|]. eapply run_degraded; [done..|].
      intros ->. simpl in Hcollected. lia.
    - eexists. split; [done|]. eapply run_refused; [done..|].
      destruct all; [done | simpl in Hcollected; lia]. }
  case_bool_decide as Hempty.
  { eexists. split; [done|].
    assert (Hnil : results data = []) by by apply nil_length_inv.
    pose proof (run_last api params maxLeads n token all data Hresp Hbad
                  (or_introl Hnil)) as Hrun.
    by rewrite Hnil, app_nil_r in Hrun. }
  case_bool_decide as Henough.
  { eexists. split; [done|]. eapply run_last; [done..|]. right. by left. }
  case_bool_decide as Hpages.
  { eexists. split; [done|]. eapply run_last; [done..|]. right. right. by left. }
  destruct (some_text (next_page_token data)) eqn:Htoken; simpl.
  - rewrite bool_decide_true by lia.
    destruct (IH (all ++ results data) (next_page_token data) (S n)) as (r & Hr & Hrun);
      [lia.. |].
    destruct (fetch_pages _ _ _ _ _ _ _) as [later r']. simpl in *.
    exists r. split; [done|].
    eapply run_more; try done; [|lia..].
    intros Hnil. by rewrite Hnil in Hempty.
  - eexists. split; [done|]. eapply run_last; [done..|]. by do 3 right.
Qed.

Lemma collected_cons (e : event) (tr : list event) :
  collected api (e :: tr) = page_results api e ++ collected api tr.
Proof. done. Qed.

Lemma run_count n token all tr r :
  pages_run api params maxLeads n token all tr r →
  n < maxPages → List.length (requests tr) ≤ maxPages - n.
Proof.
  induction 1 as [| | | |n token all data later r Hresp Hbad Hres Hlen Hn' Htok Hrun IH];
    intros Hn; simpl; lia.
Qed.

(** A request of a run is the first one, or it carries the token of the
    answer to the request two events earlier, a delay of two seconds lying
    between them, and fewer than [maxLeads] candidates were collected. *)
Lemma run_requests n token all tr r :
  pages_run api params maxLeads n token all tr r →
  ∀ i m p, tr !! i = Some (TextSearch m p) →
    (i = 0 ∧ m = S n ∧ p = requestParams params token)
    ∨ ∃ j m' q d t,
        i = S (S j)
        ∧ tr !! j = Some (TextSearch m' q)
        ∧ tr !! S j = Some (Delay 2000)
        ∧ textSearch api m' q = Resolved d
        ∧ bad_status d = false
        ∧ next_page_token d = Some t
        ∧ some_text (Some t) = true
        ∧ p = requestParams params (Some t)
        ∧ m = S m'
        ∧ collected api (take i tr) ≠ []
        ∧ (Z.of_nat (List.length (all ++ collected api (take i tr))) < maxLeads)%Z.
Proof.
  induction 1 as [| | | |n token all data later r Hresp Hbad Hres Hlen Hn' Htok Hrun IH];
    intros i m p Hi;
    try (apply list_lookup_singleton_Some in Hi as [-> [= <- <-]]; by left).
  destruct i as [|[|i]]; simpl in Hi.
  - injection Hi as <- <-. by left.
  - done.
  - right.
    assert (Hpage : page_results api (TextSearch (S n) (requestParams params token))
                    = results data) by (simpl; by rewrite Hresp, Hbad).
    destruct (next_page_token data) as [t|] eqn:Hnext; [|done].
    destruct (IH i m p Hi)
      as [(-> & -> & ->)
         | (j & m' & q & d & t' & -> & Hj & Hdelay & Hd & Hdbad & Hdtok & Ht' & -> & ->
            & Hsome & Hfew)].
    + exists 0, (S n), (requestParams params token), data, t.
      simpl. rewrite !collected_cons, Hpage. simpl. rewrite app_nil_r.
      repeat split; try done.
    + exists (S (S j)), m', q, d, t'.
      change (take (S (S (S (S j)))) (?a :: ?b :: later))
        with (a :: b :: take (S (S j)) later).
      rewrite !collected_cons, Hpage. simpl.
      repeat split; try done.
      * intros Hnil. apply app_eq_nil in Hnil as [_ Hnil]. by apply Hsome.
      * by rewrite app_assoc.
Qed.


End pagination.

(** ** Place search: the whole call *)

Section place_search_call.
Context `{Builtins}.
Variable api : PlacesApi.

Lemma fetch_details_no_search (places : list Place) :
  ∀ i results j m p,
    (fetch_details api i places results).1 !! j ≠ Some (TextSearch m p).
Proof.
  induction places as [|place places IH]; intros i results j m p; simpl; [done|].
  destruct (placeDetails api i (place_id place)) as [message|d].
  - specialize (IH (S i) results).
    destruct (fetch_details api (S i) places results) as [later r]. simpl in *.
    destruct j as [|j]; [done | apply IH].
  - specialize (IH (S i)
                  (if String.eqb (details_status d) "OK"
                   then results ++ [place_lead place d] else results)).
    destruct (fetch_details api (S i) places _) as [later r]. simpl in *.
    destruct j as [|[|j]]; [done | done | apply IH].
Qed.

Lemma requests_no_search (tr : list event) :
  (∀ j m p, tr !! j ≠ Some (TextSearch m p)) → requests tr = [].
Proof.
  induction tr as [|e tr IH]; intros Hnone; [done|].
  unfold requests in *. simpl.
  destruct e as [m p| |]; simpl.
  - by specialize (Hnone 0 m p).
  - apply IH. intros j. apply (Hnone (S j)).
  - apply IH. intros j. apply (Hnone (S j)).
Qed.

Lemma searchParams_no_token query location area zipcode country :
  sp_pagetoken (searchParams query location area zipcode country) = None.
Proof. unfold searchParams. by destruct (locationBias area). Qed.

Lemma requestParams_first (params : SearchParams) : requestParams params None = params.
Proof. done. Qed.

(** The trace of a call with a key is a run of the loop followed by details
    requests, and the result follows from what the loop leaves. *)
Lemma scrapeGoogleMaps_shape apiKey query location area zipcode country maxLeads :
  some_text apiKey = true →
  let params := searchParams query location area zipcode country in
  let run := scrapeGoogleMaps api apiKey query location area zipcode country maxLeads in
  ∃ pages left lookups,
    pages_run api params maxLeads 0 None [] pages left
    ∧ run.1 = pages ++ lookups
    ∧ (∀ j m p, lookups !! j ≠ Some (TextSearch m p))
    ∧ run.2 = Some
        match left with
        | Thrown message =>
          Thrown ("Failed to fetch data from Google Places API: " +:+ message)
        | Returned allPlaces =>
          Returned
            (if bool_decide (List.length allPlaces = 0) then []
             else (fetch_details api 0 (slice0 allPlaces maxLeads) []).2)
        end.
Proof.
  intros Hkey params run. subst run. unfold scrapeGoogleMaps. rewrite Hkey.
  cbn -[fetch_pages fetch_details slice0]. fold params.
  destruct (fetch_pages_sound api params maxLeads maxPages [] None 0)
    as (left & Hleft & Hrun); [unfold maxPages; lia..|].
  destruct (fetch_pages api maxPages params maxLeads [] None 0) as [pages r].
  cbn [fst snd] in Hleft, Hrun. subst r.
  destruct left as [allPlaces|message]; cbn -[fetch_details slice0].
  - case_bool_decide as Hnone.
    + exists pages, (Returned allPlaces), []. rewrite app_nil_r.
      by rewrite bool_decide_true.
    + pose proof (fetch_details_no_search (slice0 allPlaces maxLeads) 0 []) as Hno.
      destruct (fetch_details api 0 (slice0 allPlaces maxLeads) [])
        as [lookups results] eqn:Hdetails.
      exists pages, (Returned allPlaces), lookups.
      rewrite bool_decide_false by done. by rewrite Hdetails.
  - exists pages, (Thrown message), []. by rewrite app_nil_r.
Qed.

Lemma lookup_search_app (pages lookups : list event) i m p :
  (∀ j m p, lookups !! j ≠ Some (TextSearch m p)) →
  (pages ++ lookups) !! i = Some (TextSearch m p) →
  pages !! i = Some (TextSearch m p) ∧ i < List.length pages.
Proof.
  intros Hno Hi. destruct (decide (i < List.length pages)) as [Hlt | Hge].
  - by rewrite lookup_app_l in Hi.
  - rewrite lookup_app_r in Hi by lia. by apply Hno in Hi.
Qed.
End place_search_call.

(** C9: a call issues at most 3 text-search requests (and its loop ends);
    no request follows once the collected candidates reach maxLeads; and a
    request that carries a continuation token comes two events after the
    request whose answer gave that token, a delay of at least 2000 ms lying
    between the two. *)
Theorem scrapeGoogleMaps_pagination `{Builtins} (api : PlacesApi)
    (apiKey : option string) (query : string) (location : option string)
    (area : option SearchArea) (zipcode country : option string) (maxLeads : Z) :
  let run := scrapeGoogleMaps api apiKey query location area zipcode country maxLeads in
  is_Some run.2
  ∧ List.length (requests run.1) ≤ 3
  ∧ (∀ i m p, run.1 !! i = Some (TextSearch m p) → 0 < i →
       (Z.of_nat (List.length (collected api (take i run.1))) < maxLeads)%Z)
  ∧ (∀ i m p t, run.1 !! i = Some (TextSearch m p) → sp_pagetoken p = Some t →
       ∃ j m' q d ms,
         i = S (S j)
         ∧ run.1 !! j = Some (TextSearch m' q)
         ∧ textSearch api m' q = Resolved d
         ∧ next_page_token d = Some t
         ∧ run.1 !! S j = Some (Delay ms)
         ∧ 2000 ≤ ms).
Proof.
  intros run. destruct (some_text apiKey) eqn:Hkey.
  2: { subst run. unfold scrapeGoogleMaps. rewrite Hkey. simpl.
       repeat split; [by eexists | lia | done | done]. }
  destruct (scrapeGoogleMaps_shape api apiKey query location area zipcode country
              maxLeads Hkey) as (pages & left & lookups & Hrun & Htrace & Hno & Hresult).
  fold run in Htrace, Hresult.
  set (params := searchParams query location area zipcode country) in *.
  assert (Hat : ∀ i m p, run.1 !! i = Some (TextSearch m p) →
            pages !! i = Some (TextSearch m p) ∧ i < List.length pages).
  { intros i m p Hi. rewrite Htrace in Hi. by eapply lookup_search_app. }
  repeat split.
  - rewrite Hresult. by eexists.
  - rewrite Htrace. unfold requests. rewrite omap_app.
    fold (requests pages). fold (requests lookups).
    rewrite (requests_no_search lookups Hno), app_nil_r.
    pose proof (run_count api params maxLeads 0 None [] pages left Hrun) as Hcount.
    unfold maxPages in Hcount. lia.
  - intros i m p Hi Hpos. destruct (Hat i m p Hi) as [Hi' Hlt].
    rewrite Htrace, take_app_le by lia.
    destruct (run_requests api params maxLeads 0 None [] pages left Hrun i m p Hi')
      as [(-> & _) | (j & m' & q & d & t & _ & _ & _ & _ & _ & _ & _ & _ & _ & _ & Hfew)];
      [lia | done].
  - intros i m p t Hi Htoken. destruct (Hat i m p Hi) as [Hi' Hlt].
    destruct (run_requests api params maxLeads 0 None [] pages left Hrun i m p Hi')
      as [(-> & _ & ->)
         | (j & m' & q & d & t' & -> & Hj & Hdelay & Hd & _ & Hdtok & Ht' & -> & _)].
    + rewrite requestParams_first in Htoken. subst params.
      by rewrite searchParams_no_token in Htoken.
    + unfold requestParams in Htoken. rewrite Ht' in Htoken. simpl in Htoken.
      injection Htoken as ->.
      exists j, m', q, d, 2000. rewrite Htrace.
      rewrite !lookup_app_l by lia. repeat split; try done.
Qed.

(** Three pages at most, each later one two seconds after its token. *)
Example endless_provider_three_pages :
  let run := scrapeGoogleMaps (H := sample_builtins) endless_places (Some "key")
               "cafe" (Some "Austin") None None None 100 in
  take 5 run.1
  = [TextSearch 1 {| sp_query := Some "cafe in Austin"; sp_locationbias := None;
                     sp_radius := None; sp_pagetoken := None |};
     Delay 2000;
     TextSearch 2 {| sp_query := None; sp_locationbias := None;
                     sp_radius := None; sp_pagetoken := Some "after-1" |};
     Delay 2000;
     TextSearch 3 {| sp_query := None; sp_locationbias := None;
                     sp_radius := None; sp_pagetoken := Some "after-2" |}]
  ∧ List.length (requests run.1) = 3
  ∧ ∃ leads, run.2 = Some (Returned leads) ∧ List.length leads = 6.
Proof.
  intros run. split; [by vm_compute|]. split; [by vm_compute|].
  assert (Hlen : match run.2 with
                 | Some (Returned leads) => List.length leads
                 | _ => 0
                 end = 6) by (by vm_compute).
  destruct run.2 as [[leads|message]|]; [by exists leads | done | done].
Qed.

(** The loop stops as soon as enough candidates are collected. *)
Example endless_provider_enough_after_two :
  (requests (scrapeGoogleMaps (H := sample_builtins) endless_places (Some "key")
               "cafe" (Some "Austin") None None None 3).1).*1
  = [1; 2].
Proof. by vm_compute. Qed.


(** A rejected request fails the call on a later page as well, the
    candidates of the first page being lost. *)
Example dropped_second_page_throws :
  (scrapeGoogleMaps (H := sample_builtins) dropped_second_page (Some "key")
     "cafe" (Some "Austin") None None None 10).2
  = Some (Thrown "Failed to fetch data from Google Places API: socket hang up").
Proof. reflexivity. Qed.

(** A bad status on the second page returns the leads of the first. *)
Example failing_second_page_degrades :
  (scrapeGoogleMaps (H := sample_builtins) failing_second_page (Some "key")
     "cafe" (Some "Austin") None None None 10).2
  = Some (Returned
      [place_lead (candidate "first")
         {| details_status := "OK";
            details_fields := {["companyName" := VStr "first"]} |};
       place_lead (candidate "second")
         {| details_status := "OK";
            details_fields := {["companyName" := VStr "second"]} |}]).
Proof. reflexivity. Qed.


(** ** Objects *)

Lemma get_insert_eq (k : string) (v : value) (o : obj) : get k (<[k := v]> o) = v.
Proof. unfold get. by rewrite lookup_insert_eq. Qed.

Lemma get_insert_ne (k k' : string) (v : value) (o : obj) :
  k ≠ k' → get k' (<[k := v]> o) = get k' o.
Proof. intros Hne. unfold get. by rewrite lookup_insert_ne. Qed.

Lemma get_spread (k : string) (a b : obj) :
  get k (spread a b) = match b !! k with Some v => v | None => get k a end.
Proof.
  unfold get, spread. rewrite lookup_union.
  destruct (b !! k), (a !! k); done.
Qed.

(** Reads a property through the literals that were written over it. *)
Ltac read_property :=
  repeat first
    [ rewrite get_insert_eq
    | rewrite get_insert_ne by (clear; intros ?; discriminate) ].

(** ** Random draws *)

Lemma Qfloor_bounds (x : Qc) (a b : Z) :
  (Qc_of_Z a ≤ x)%Qc → (x < Qc_of_Z b)%Qc → (a ≤ Qfloor x < b)%Z.
Proof.
  unfold Qcle, Qclt. simpl. intros Hlow Hhigh. split.
  - rewrite <- (Qfloor_Z a). by apply Qfloor_resp_le.
  - rewrite Zlt_Qlt. eapply Qle_lt_trans; [apply Qfloor_le | done].
Qed.

Lemma floor_times_range (r : Qc) (k : Z) :
  (0 < k)%Z → (0 ≤ r)%Qc → (r < 1)%Qc → (0 ≤ floor_times r k < k)%Z.
Proof.
  intros Hk Hlow Hhigh. unfold floor_times.
  assert (Hpos : (0 < Qc_of_Z k)%Qc) by (rewrite <- Z2Qc_inj_0, <- Z2Qc_inj_lt; lia).
  apply Qfloor_bounds.
  - rewrite Z2Qc_inj_0, <- (Qcmult_0_l (Qc_of_Z k)).
    apply Qcmult_le_compat_r; [done | by apply Qclt_le_weak].
  - rewrite <- (Qcmult_1_l (Qc_of_Z k)) at 2. by apply Qcmult_lt_compat_r.
Qed.

(** ** AI verification *)

Section verification.
Context `{Builtins}.
Variable ai : AiServices.
Variable random : nat → Qc.

(** The ways an adapter fails all come to [null]. *)
Lemma verifyWithChatGPT_fails (lead : obj) :
  configured (OPENAI_API_KEY ai) "your_openai_api_key_here" = false
  ∨ chatgpt ai lead = CallFails ∨ chatgpt ai lead = ParseFails →
  verifyWithChatGPT ai lead = None.
Proof.
  unfold verifyWithChatGPT. intros [-> | [-> | ->]]; [done|..];
    by destruct (configured _ _).
Qed.

Lemma verifyWithClaude_fails (lead : obj) :
  configured (ANTHROPIC_API_KEY ai) "your_anthropic_claude_api_key_here" = false
  ∨ claude ai lead = CallFails ∨ claude ai lead = ParseFails →
  verifyWithClaude ai lead = None.
Proof.
  unfold verifyWithClaude. intros [-> | [-> | ->]]; [done|..];
    by destruct (configured _ _).
Qed.

Lemma company_slug_returns (sep : string) (companyName : value) :
  text_or_absent companyName = true →
  ∃ slug, company_slug sep companyName = Returned slug.
Proof. destruct companyName; simpl; intros; try done; by eexists. Qed.

Lemma company_slug_throws (sep : string) (companyName : value) :
  text_or_absent companyName = false →
  ∃ message, company_slug sep companyName = Thrown message.
Proof. destruct companyName; simpl; intros; try done; by eexists. Qed.

(** The mock lead: what it sets and what it keeps. *)
Lemma mock_lead_returns (lead : obj) :
  text_or_absent (get "companyName" lead) = true →
  ∃ final,
    mock_lead random lead = Returned final
    ∧ get "verified" final = VBool true
    ∧ get "aiSource" final = VStr "Mock Data"
    ∧ get "aiConfidence" final = num (floor_times (random 0) 20 + 80)
    ∧ (truthy (get "ownerName" lead) = true →
       get "ownerName" final = get "ownerName" lead)
    ∧ (truthy (get "industry" lead) = true →
       get "industry" final = get "industry" lead)
    ∧ (∀ k, k ∉ ["verified"; "aiConfidence"; "ownerName"; "industry";
                 "employeeCount"; "revenue"; "businessDetails"; "aiSource";
                 "socialMedia"] →
       get k final = get k lead).
Proof.
  intros Hname. unfold mock_lead.
  destruct (company_slug_returns "-" _ Hname) as [linkedin Hlinkedin].
  destruct (company_slug_returns "" _ Hname) as [facebook Hfacebook].
  destruct (truthy (get "ownerName" lead)) eqn:Howner;
    destruct (truthy (get "industry" lead)) eqn:Hindustry;
    rewrite Hlinkedin; simpl;
    case_decide; rewrite ?Hfacebook; simpl;
    (eexists; split; [reflexivity|]);
    read_property; repeat split; try done;
    intros k Hk; repeat (apply not_elem_of_cons in Hk as [? Hk]);
    by rewrite !get_insert_ne.
Qed.
End verification.

Section orchestrator.
Context `{Builtins}.
Variable ai : AiServices.
Variable random : nat → Qc.

Lemma mock_lead_throws (lead : obj) :
  text_or_absent (get "companyName" lead) = false →
  ∃ message, mock_lead random lead = Thrown message.
Proof.
  intros Hname. unfold mock_lead.
  destruct (company_slug_throws "-" _ Hname) as [message Hlinkedin].
  destruct (truthy (get "ownerName" lead)), (truthy (get "industry" lead));
    rewrite Hlinkedin; by eexists.
Qed.

Lemma verifyLeadWithAI_merge (lead : obj) (preferredAI : string) :
  let c := claudeResult ai lead preferredAI in
  let g := chatGPTResult ai lead preferredAI in
  is_Some c ∨ is_Some g →
  (text_or_absent (get "companyName" (merged lead c g)) = true →
   ∃ social,
     verifyLeadWithAI ai random lead preferredAI
     = Returned (<["socialMedia" := social]> (merged lead c g)))
  ∧ (∀ final,
       verifyLeadWithAI ai random lead preferredAI = Returned final →
       ∃ social, final = <["socialMedia" := social]> (merged lead c g)).
Proof.
  intros c g Hsome. subst c g. unfold verifyLeadWithAI.
  destruct (claudeResult ai lead preferredAI) as [c|],
           (chatGPTResult ai lead preferredAI) as [g|];
    try (destruct Hsome as [[? ?] | [? ?]]; discriminate);
    (split;
     [ intros Hname;
       destruct (company_slug_returns "-" _ Hname) as [linkedin ->];
       destruct (company_slug_returns "" _ Hname) as [facebook ->];
       by eexists
     | intros final Hfinal;
       destruct (company_slug "-" _) as [linkedin|]; [|done];
       destruct (company_slug "" _) as [facebook|]; [|done];
       simpl in Hfinal; injection Hfinal as <-; by eexists ]).
Qed.
End orchestrator.

(** An adapter returns null in the cases of its [catch] and of its key,
    and in no other. *)
Lemma verifyWithChatGPT_null `{Builtins} (ai : AiServices) (lead : obj) :
  verifyWithChatGPT ai lead = None
  ↔ configured (OPENAI_API_KEY ai) "your_openai_api_key_here" = false
    ∨ chatgpt ai lead = CallFails ∨ chatgpt ai lead = ParseFails.
Proof.
  split; [|apply verifyWithChatGPT_fails].
  unfold verifyWithChatGPT.
  destruct (configured _ _); simpl; [|by left].
  destruct (chatgpt ai lead); intros; try done; auto.
Qed.

Lemma verifyWithClaude_null `{Builtins} (ai : AiServices) (lead : obj) :
  verifyWithClaude ai lead = None
  ↔ configured (ANTHROPIC_API_KEY ai) "your_anthropic_claude_api_key_here" = false
    ∨ claude ai lead = CallFails ∨ claude ai lead = ParseFails
    ∨ claude ai lead = Parsed VNull ∨ claude ai lead = Parsed VUndefined.
Proof.
  unfold verifyWithClaude. split.
  - destruct (configured _ _); simpl; [|by left].
    destruct (claude ai lead) as [| |parsed]; [by right; left | by right; right; left |].
    destruct parsed; simpl; intros; try done; auto 6.
  - intros [-> | [-> | [-> | [-> | ->]]]]; [done|..]; by destruct (configured _ _).
Qed.

(** C3, amended: an adapter returns null exactly when its key is not
    configured, its request fails or its answer does not parse (and, for
    Claude, when the answer parses to null).  When both return null, the
    enrichment of a lead whose company name is a string or absent returns
    a lead with verified true, labelled Mock Data, with a confidence
    drawn from 80 to 99; for any other company name it throws. *)
Theorem verifyLeadWithAI_resilient `{Builtins} (ai : AiServices) (random : nat → Qc)
    (lead : obj) (preferredAI : string) :
  (verifyWithClaude ai lead = None
   ↔ configured (ANTHROPIC_API_KEY ai) "your_anthropic_claude_api_key_here" = false
     ∨ claude ai lead = CallFails ∨ claude ai lead = ParseFails
     ∨ claude ai lead = Parsed VNull ∨ claude ai lead = Parsed VUndefined)
  ∧ (verifyWithChatGPT ai lead = None
     ↔ configured (OPENAI_API_KEY ai) "your_openai_api_key_here" = false
       ∨ chatgpt ai lead = CallFails ∨ chatgpt ai lead = ParseFails)
  ∧ (verifyWithClaude ai lead = None → verifyWithChatGPT ai lead = None →
     (text_or_absent (get "companyName" lead) = true →
      ∃ final,
        verifyLeadWithAI ai random lead preferredAI = Returned final
        ∧ get "verified" final = VBool true
        ∧ get "aiSource" final = VStr "Mock Data"
        ∧ ∃ k, get "aiConfidence" final = num k
               ∧ ((0 ≤ random 0%nat)%Qc → (random 0%nat < 1)%Qc → (80 ≤ k ≤ 99)%Z))
     ∧ (text_or_absent (get "companyName" lead) = false →
        ∃ message, verifyLeadWithAI ai random lead preferredAI = Thrown message)).
Proof.
  split; [apply verifyWithClaude_null|].
  split; [apply verifyWithChatGPT_null|].
  intros Hclaude Hchatgpt.
  assert (Hmock : verifyLeadWithAI ai random lead preferredAI = mock_lead random lead).
  { unfold verifyLeadWithAI, claudeResult, chatGPTResult.
    rewrite Hclaude, Hchatgpt. by destruct (_ || _), (_ || _). }
  rewrite Hmock. split; intros Hname.
  - destruct (mock_lead_returns random lead Hname)
      as (final & Hfinal & Hverified & Hsource & Hconfidence & _).
    exists final. do 3 (split; [done|]).
    exists (floor_times (random 0%nat) 20 + 80)%Z. split; [done|].
    intros Hlow Hhigh.
    pose proof (floor_times_range (random 0) 20 ltac:(lia) Hlow Hhigh). lia.
  - by apply mock_lead_throws.
Qed.

Lemma verifyLeadWithAI_resilient_witness :
  ∃ final,
    verifyLeadWithAI (H := sample_builtins) no_ai (λ _, 0%Qc) acme "both"
    = Returned final
    ∧ get "verified" final = VBool true
    ∧ get "aiSource" final = VStr "Mock Data"
    ∧ ∃ k, get "aiConfidence" final = num k
           ∧ ((0 ≤ 0)%Qc → (0 < 1)%Qc → (80 ≤ k ≤ 99)%Z).
Proof.
  apply (verifyLeadWithAI_resilient (H := sample_builtins) no_ai (λ _, 0%Qc) acme "both").
  - reflexivity.
  - reflexivity.
  - reflexivity.
Defined.

(** The claim of C3 as it is stated fails: both adapters return null for
    the lead whose company name is the number 42, and the enrichment
    throws. *)
Lemma verifyLeadWithAI_throws_on_number :
  verifyWithClaude (H := sample_builtins) no_ai numbered = None
  ∧ verifyWithChatGPT no_ai numbered = None
  ∧ verifyLeadWithAI (H := sample_builtins) no_ai (λ _, 0%Qc) numbered "both"
    = Thrown "companyName.toLowerCase is not a function"
  ∧ ¬ ∃ final,
        verifyLeadWithAI (H := sample_builtins) no_ai (λ _, 0%Qc) numbered "both"
        = Returned final.
Proof.
  repeat split; try reflexivity.
  intros [final Hfinal]. vm_compute in Hfinal. discriminate.
Qed.

(** The claim of C2 as it is stated fails: with no adapter answering the
    confidence is not 0. *)
Lemma aiConfidence_of_mock_is_not_zero :
  ∃ final,
    verifyLeadWithAI (H := sample_builtins) no_ai (λ _, 0%Qc) acme "both"
    = Returned final
    ∧ get "aiConfidence" final = num 80
    ∧ get "aiConfidence" final
      ≠ num (confidence_by_count
               (claudeResult (H := sample_builtins) no_ai acme "both")
               (chatGPTResult no_ai acme "both")).
Proof.
  eexists. split; [reflexivity|]. split.
  - reflexivity.
  - rewrite get_insert_ne by done. rewrite get_insert_ne by done.
    rewrite get_insert_ne by done. rewrite get_insert_ne by done.
    rewrite get_insert_ne by done. rewrite get_insert_ne by done.
    rewrite get_insert_ne by done. rewrite get_insert_eq.
    unfold num. simpl. by intros [= Heq%Z2Qc_inj].
Qed.

(** C2, amended: the confidence of the returned lead is 100 when both
    adapters answered and 50 when exactly one did, each with the label of
    its sources; when neither answered it is a mock value between 80 and 99
    labelled Mock Data. *)
Theorem aiConfidence_spec `{Builtins} (ai : AiServices) (random : nat → Qc)
    (lead : obj) (preferredAI : string) (final : obj) :
  (0 ≤ random 0%nat)%Qc → (random 0%nat < 1)%Qc →
  verifyLeadWithAI ai random lead preferredAI = Returned final →
  match claudeResult ai lead preferredAI, chatGPTResult ai lead preferredAI with
  | Some _, Some _ =>
    get "aiConfidence" final = num 100
    ∧ get "aiSource" final = VStr "Claude (Primary) + ChatGPT (Secondary)"
  | Some _, None =>
    get "aiConfidence" final = num 50
    ∧ get "aiSource" final = VStr "Claude (Primary)"
  | None, Some _ =>
    get "aiConfidence" final = num 50
    ∧ get "aiSource" final = VStr "ChatGPT (Fallback)"
  | None, None =>
    ∃ k, get "aiConfidence" final = num k ∧ (80 ≤ k ≤ 99)%Z
         ∧ get "aiSource" final = VStr "Mock Data"
  end.
Proof.
  intros Hlow Hhigh Hfinal.
  destruct (claudeResult ai lead preferredAI) as [c|] eqn:Hc,
           (chatGPTResult ai lead preferredAI) as [g|] eqn:Hg.
  1-3: destruct (verifyLeadWithAI_merge ai random lead preferredAI) as [_ Hinv];
       [rewrite Hc, Hg; first [left; by eexists | right; by eexists]|];
       destruct (Hinv final Hfinal) as [social ->];
       rewrite Hc, Hg; unfold merged, merge_both, merge_one;
       by read_property.
  unfold verifyLeadWithAI in Hfinal. rewrite Hc, Hg in Hfinal.
  destruct (text_or_absent (get "companyName" lead)) eqn:Hname.
  - destruct (mock_lead_returns random lead Hname)
      as (final' & Hfinal' & _ & Hsource & Hconfidence & _).
    rewrite Hfinal' in Hfinal. injection Hfinal as <-.
    exists (floor_times (random 0%nat) 20 + 80)%Z. repeat split; try done.
    all: pose proof (floor_times_range (random 0%nat) 20 ltac:(lia) Hlow Hhigh); lia.
  - destruct (mock_lead_throws random lead Hname) as [message Hthrown].
    congruence.
Qed.

Lemma aiConfidence_spec_witness :
  ∃ k, get "aiConfidence"
         (<["socialMedia" :=
              VObj [("linkedin", VStr "linkedin.com/company/acme"); ("facebook", VNull)] ]>
          (<["aiSource" := VStr "Mock Data"]>
          (<["businessDetails" :=
               VStr "Mock verification - Configure API keys for real AI verification"]>
          (<["revenue" := VStr "$1M - $11M"]>
          (<["employeeCount" := VStr "10-510"]>
          (<["industry" := VStr "Technology"]>
          (<["ownerName" := VStr "John Smith"]>
          (<["aiConfidence" := num 80]>
          (<["verified" := VBool true]> acme))))))))) = num k
       ∧ (80 ≤ k ≤ 99)%Z
       ∧ get "aiSource"
           (<["socialMedia" :=
              VObj [("linkedin", VStr "linkedin.com/company/acme"); ("facebook", VNull)] ]>
          (<["aiSource" := VStr "Mock Data"]>
          (<["businessDetails" :=
               VStr "Mock verification - Configure API keys for real AI verification"]>
          (<["revenue" := VStr "$1M - $11M"]>
          (<["employeeCount" := VStr "10-510"]>
          (<["industry" := VStr "Technology"]>
          (<["ownerName" := VStr "John Smith"]>
          (<["aiConfidence" := num 80]>
          (<["verified" := VBool true]> acme))))))))) = VStr "Mock Data".
Proof.
  apply (aiConfidence_spec (H := sample_builtins) no_ai (λ _, 0%Qc) acme "both").
  - done.
  - done.
  - reflexivity.
Defined.



(** ** Manual enrichment *)

Lemma bind_returned {A B} (m : outcome A) (k : A → outcome B) (b : B) :
  m ≫= k = Returned b → ∃ a, m = Returned a ∧ k a = Returned b.
Proof. destruct m as [a|message]; [by exists a | done]. Qed.

Section manual_enrichment.
Context `{Builtins}.
Variable ai : AiServices.
Variable random : nat → Qc.

Lemma merge_fields_spec (manualData best : obj) (ks : list string) :
  ∀ acc r,
    NoDup ks →
    merge_fields manualData best ks acc = Returned r →
    (∀ k, k ∈ ks →
       ∃ t, optional_trim (get k manualData) = Returned t
            ∧ get k r = or_else t (get k best))
    ∧ (∀ k, k ∉ ks → get k r = get k acc).
Proof.
  induction ks as [|k0 ks IH]; intros acc r Hnodup Hmerge; simpl in Hmerge.
  - injection Hmerge as <-. split; [|done]. intros k Hk. by apply elem_of_nil in Hk.
  - apply NoDup_cons in Hnodup as [Hfresh Hnodup].
    apply bind_returned in Hmerge as (v & Hv & Hmerge).
    unfold manual_or_scraped in Hv.
    apply bind_returned in Hv as (t & Ht & Hv). injection Hv as <-.
    destruct (IH _ _ Hnodup Hmerge) as [Hin Hout]. split.
    + intros k [-> | Hk]%elem_of_cons; [|by apply Hin].
      exists t. split; [done|]. by rewrite (Hout k0 Hfresh), get_insert_eq.
    + intros k [Hne Hk]%not_elem_of_cons.
      by rewrite (Hout k Hk), get_insert_ne.
Qed.

Lemma merged_fields_nodup : NoDup merged_fields.
Proof. apply (bool_decide_unpack _). by vm_compute. Qed.

Lemma merged_fields_cases (k : string) :
  k ∈ merged_fields →
  k = "companyName" ∨ k = "phone" ∨ k = "address" ∨ k = "zipcode" ∨ k = "city"
  ∨ k = "country" ∨ k = "industry" ∨ k = "ownerName".
Proof.
  unfold merged_fields. intros Hk.
  repeat (apply elem_of_cons in Hk as [-> | Hk]; [tauto|]).
  by apply elem_of_nil in Hk.
Qed.

(** The lead handed to AI verification carries the human value of each of
    the eight fields, whatever the scraped results hold. *)
Lemma enrichedLead_human_first (manualData : obj) (scrapedResults : list obj)
    (now0 now1 : Z) (lead : obj) :
  enrichedLead manualData scrapedResults now0 now1 = Returned lead →
  ∀ k s, k ∈ merged_fields → get k manualData = VStr s →
    (scrapedResults ≠ [] → trim s ≠ "" → get k lead = VStr (trim s))
    ∧ (scrapedResults = [] → s ≠ "" → get k lead = VStr s).
Proof.
  intros Hlead k s Hk Hs. destruct scrapedResults as [|first rest]; simpl in Hlead.
  - split; [done|]. intros _ Hne. injection Hlead as <-.
    destruct (merged_fields_cases k Hk) as [-> | Hother].
    + rewrite get_insert_eq, Hs. unfold or_else. simpl.
      by rewrite bool_decide_true.
    + rewrite get_insert_ne, get_insert_ne, Hs; [done|..];
        intros <-; repeat destruct Hother as [? | Hother]; discriminate.
  - split; [|done]. intros _ Hne.
    apply bind_returned in Hlead as (best & _ & Hlead).
    apply bind_returned in Hlead as (r & Hmerge & Hlead). injection Hlead as <-.
    destruct (merge_fields_spec _ _ _ _ _ merged_fields_nodup Hmerge) as [Hin _].
    destruct (Hin k Hk) as (t & Ht & Hr).
    rewrite Hs in Ht. simpl in Ht. injection Ht as <-.
    assert (Hread : get k (<["reviewCount" := get "reviewCount" best]>
                          (<["rating" := get "rating" best]>
                          (<["website" := get "website" best]> r))) = get k r).
    { destruct (merged_fields_cases k Hk) as [-> | [-> | [-> | [-> | [-> | [-> | [-> | ->]]]]]]];
        by read_property. }
    rewrite Hread, Hr. unfold or_else. simpl. by rewrite bool_decide_true.
Qed.
End manual_enrichment.

(** The claim of C1 as it is stated fails: the owner typed by hand is
    replaced by the owner the primary adapter reports. *)
Lemma enrich_manual_ai_replaces_owner :
  ∃ final,
    enrich_manual (H := sample_builtins) (both_ai claude_says chatgpt_says)
      (λ _, 0%Qc) typed_by_hand [] "unknown" 0 0 = Status200 final
    ∧ get "ownerName" final = VStr "Jane Doe"
    ∧ ¬ human_values_kept typed_by_hand final.
Proof.
  eexists. split; [reflexivity|]. split.
  - by vm_compute.
  - intros Hkept.
    assert (Hin : ("ownerName", VStr "Alice Owner") ∈ typed_by_hand)
      by apply list_elem_of_further, list_elem_of_here.
    specialize (Hkept "ownerName" "Alice Owner" Hin ltac:(done)).
    vm_compute in Hkept. discriminate Hkept.
Qed.

(** C1, amended: in manual enrichment a non-empty human value of
    companyName, phone, address, zipcode, city, country, industry or
    ownerName is the value of the lead handed to AI verification, whatever
    the discovery match holds (trimmed when a match is merged).  The final
    lead keeps it when no adapter answers; when both answer, it keeps the
    first six, while ownerName and industry take the primary adapter's
    value, then the secondary's, then the lead's; when one adapter answers,
    the final lead keeps every field the answer does not name, and
    ownerName and industry take the non-empty value the answer gives. *)
Theorem enrich_manual_precedence `{Builtins} (ai : AiServices) (random : nat → Qc)
    (body : list (string * value)) (scrapedResults : list obj)
    (searchMethod : string) (now0 now1 : Z) (final : obj) :
  enrich_manual ai random body scrapedResults searchMethod now0 now1 = Status200 final →
  ∃ lead,
    enrichedLead (list_to_map body) scrapedResults now0 now1 = Returned lead
    ∧ (∀ k s, k ∈ merged_fields → get k (list_to_map body) = VStr s →
         (scrapedResults ≠ [] → trim s ≠ "" → get k lead = VStr (trim s))
         ∧ (scrapedResults = [] → s ≠ "" → get k lead = VStr s))
    ∧ match claudeResult ai lead "both", chatGPTResult ai lead "both" with
      | None, None =>
        ∀ k, k ∈ merged_fields → truthy (get k lead) = true →
             get k final = get k lead
      | Some c, Some g =>
        (∀ k, k ∈ ["companyName"; "phone"; "address"; "zipcode"; "city"; "country"] →
              get k final = get k lead)
        ∧ (∀ k, k ∈ ["ownerName"; "industry"] →
                get k final = or_else (get k c) (or_else (get k g) (get k lead)))
      | Some r, None | None, Some r =>
        (∀ k, k ∈ merged_fields → r !! k = None → get k final = get k lead)
        ∧ (∀ k v, k ∈ ["ownerName"; "industry"] → r !! k = Some v →
                  truthy v = true → get k final = v)
      end.
Proof.
  unfold enrich_manual. intros Hfinal.
  destruct (hasData (body.*2)) as [[|]|]; try done.
  destruct (enrichedLead (list_to_map body) scrapedResults now0 now1)
    as [lead|] eqn:Hlead; [|done].
  simpl in Hfinal.
  destruct (verifyLeadWithAI ai random lead "both") as [verified|] eqn:Hverified; [|done].
  injection Hfinal as <-.
  exists lead. split; [done|].
  split; [exact (enrichedLead_human_first _ _ now0 now1 lead Hlead)|].
  destruct (claudeResult ai lead "both") as [c|] eqn:Hc,
           (chatGPTResult ai lead "both") as [g|] eqn:Hg.
  - destruct (verifyLeadWithAI_merge ai random lead "both") as [_ Hinv];
      [left; rewrite Hc; by eexists|].
    destruct (Hinv verified Hverified) as [social ->].
    rewrite Hc, Hg. unfold merged, merge_both. split.
    + intros k Hk.
      repeat (apply elem_of_cons in Hk as [-> | Hk]; [by read_property|]).
      by apply elem_of_nil in Hk.
    + intros k Hk.
      repeat (apply elem_of_cons in Hk as [-> | Hk]; [by read_property|]).
      by apply elem_of_nil in Hk.
  - destruct (verifyLeadWithAI_merge ai random lead "both") as [_ Hinv];
      [left; rewrite Hc; by eexists|].
    destruct (Hinv verified Hverified) as [social ->].
    rewrite Hc, Hg. unfold merged, merge_one. split.
    + intros k Hk Hunnamed.
      destruct (merged_fields_cases k Hk) as [-> | [-> | [-> | [-> | [-> | [-> | [-> | ->]]]]]]];
        read_property; rewrite get_spread, Hunnamed; by read_property.
    + intros k v [-> | ->%list_elem_of_singleton]%elem_of_cons Hnamed _;
        read_property; by rewrite get_spread, Hnamed.
  - destruct (verifyLeadWithAI_merge ai random lead "both") as [_ Hinv];
      [right; rewrite Hg; by eexists|].
    destruct (Hinv verified Hverified) as [social ->].
    rewrite Hc, Hg. unfold merged, merge_one. split.
    + intros k Hk Hunnamed.
      destruct (merged_fields_cases k Hk) as [-> | [-> | [-> | [-> | [-> | [-> | [-> | ->]]]]]]];
        read_property; rewrite get_spread, Hunnamed; by read_property.
    + intros k v [-> | ->%list_elem_of_singleton]%elem_of_cons Hnamed _;
        read_property; by rewrite get_spread, Hnamed.
  - unfold verifyLeadWithAI in Hverified. rewrite Hc, Hg in Hverified.
    destruct (text_or_absent (get "companyName" lead)) eqn:Hname.
    + destruct (mock_lead_returns random lead Hname)
        as (verified' & Hmock & _ & _ & _ & Howner & Hindustry & Hkeeps).
      rewrite Hmock in Hverified. injection Hverified as <-.
      intros k Hk Htruthy.
      destruct (merged_fields_cases k Hk) as [-> | [-> | [-> | [-> | [-> | [-> | [-> | ->]]]]]]];
        read_property; first [by apply Howner | by apply Hindustry | apply Hkeeps];
        (apply (bool_decide_unpack _); by vm_compute).
    + destruct (mock_lead_throws random lead Hname) as [message Hthrown].
      congruence.
Qed.

Lemma enrich_manual_precedence_witness :
  ∃ final,
    enrich_manual (H := sample_builtins) no_ai (λ _, 0%Qc) typed_by_hand []
      "unknown" 0 0 = Status200 final
    ∧ get "ownerName" final = VStr "Alice Owner".
Proof.
  eexists. split; [reflexivity|].
  destruct (enrich_manual_precedence (H := sample_builtins) no_ai (λ _, 0%Qc)
              typed_by_hand [] "unknown" 0 0 _ eq_refl)
    as (lead & Hlead & Hhuman & Hkept).
  assert (Hfield : "ownerName" ∈ merged_fields)
    by (apply (bool_decide_unpack _); reflexivity).
  destruct (Hhuman "ownerName" "Alice Owner" Hfield eq_refl) as [_ Htyped].
  pose proof (Htyped eq_refl ltac:(done)) as Hlead_owner.
  assert (Htruthy : truthy (get "ownerName" lead) = true)
    by (rewrite Hlead_owner; reflexivity).
  exact (eq_trans (Hkept "ownerName" Hfield Htruthy) Hlead_owner).
Defined.

(** * Further properties of the code *)

(** ** Quota split: bounds *)

(** For a total from 1 to 2^53 - 1 and n polygons, 1 <= n < 2^32, each
    polygon is asked for at least one lead and at most the total; the n
    quotas cover the total and exceed it by less than n; with at least as
    many polygons as leads the quota is 1. *)
Theorem leadsPerPolygon_bounds (total : Z) (n : nat) :
  (0 < total < 2 ^ 53)%Z → (0 < Z.of_nat n < 2 ^ 32)%Z →
  (1 ≤ leadsPerPolygon total n ≤ total)%Z
  ∧ (total ≤ Z.of_nat n * leadsPerPolygon total n)%Z
  ∧ (Z.of_nat n * leadsPerPolygon total n < total + Z.of_nat n)%Z
  ∧ ((total ≤ Z.of_nat n)%Z → leadsPerPolygon total n = 1%Z).
Proof.
  intros Htotal Hn.
  pose proof (λ q, leadsPerPolygon_least total n q Htotal Hn) as Hleast.
  assert (Hlow : (1 ≤ leadsPerPolygon total n)%Z).
  { destruct (decide (leadsPerPolygon total n ≤ 0)%Z) as [Hle|]; [|lia].
    apply Hleast in Hle. nia. }
  assert (Hhigh : (leadsPerPolygon total n ≤ total)%Z) by (apply Hleast; nia).
  assert (Hcover : (total ≤ Z.of_nat n * leadsPerPolygon total n)%Z)
    by (rewrite Z.mul_comm; by apply Hleast).
  assert (Hover : (Z.of_nat n * leadsPerPolygon total n < total + Z.of_nat n)%Z).
  { destruct (decide (total ≤ (leadsPerPolygon total n - 1) * Z.of_nat n)%Z)
      as [Hle|]; [|nia].
    apply Hleast in Hle. lia. }
  split; [done|]. split; [done|]. split; [done|].
  intros Hmany. apply Z.le_antisymm; [|done].
  apply Hleast. lia.
Qed.

Lemma leadsPerPolygon_bounds_witness :
  (1 ≤ leadsPerPolygon 10 4 ≤ 10)%Z
  ∧ (10 ≤ Z.of_nat 4 * leadsPerPolygon 10 4)%Z
  ∧ (Z.of_nat 4 * leadsPerPolygon 10 4 < 10 + Z.of_nat 4)%Z
  ∧ ((10 ≤ Z.of_nat 4)%Z → leadsPerPolygon 10 4 = 1%Z).
Proof. apply leadsPerPolygon_bounds; split; reflexivity. Defined.

(** ** Deduplication: what is kept *)

Lemma set_has_none (seen : list value) (v : value) :
  (∀ s, s ∈ seen → sameValueZero v s = false) → set_has seen v = false.
Proof.
  intros Hnone. destruct (set_has seen v) eqn:Hhas; [|done].
  apply set_has_true in Hhas as (s & Hs & Hsame). by rewrite (Hnone s Hs) in Hsame.
Qed.

Lemma dedup_fold_sublist (allResults done : list obj) (st : Dedup) :
  uniqueResults st `sublist_of` done →
  uniqueResults (fold_left dedup_step allResults st) `sublist_of` done ++ allResults.
Proof.
  revert done st. induction allResults as [|r rest IH]; intros done st Hsub; simpl.
  - by rewrite app_nil_r.
  - rewrite (assoc_L (++) done [r] rest : done ++ r :: rest = (done ++ [r]) ++ rest).
    apply IH. unfold dedup_step.
    destruct (truthy (placeId r) && negb (set_has (seenPlaceIds st) (placeId r))); simpl.
    + by apply sublist_app.
    + by apply sublist_inserts_r.
Qed.

Lemma dedup_fold_distinct (leads : list obj) :
  ∀ st,
    seenPlaceIds st = placeId <$> uniqueResults st →
    distinct_ids (uniqueResults st ++ leads) →
    fold_left dedup_step leads st
    = {| uniqueResults := uniqueResults st ++ leads;
         seenPlaceIds := seenPlaceIds st ++ (placeId <$> leads) |}.
Proof.
  induction leads as [|r rest IH]; intros [unique seen] Hseen [Htruthy Hdistinct];
    simpl in *.
  - by rewrite !app_nil_r.
  - assert (Hid : truthy (placeId r) = true)
      by (apply Htruthy, elem_of_app; right; apply list_elem_of_here).
    assert (Hnew : set_has seen (placeId r) = false).
    { apply set_has_none. intros s Hs. rewrite Hseen in Hs.
      apply list_elem_of_fmap in Hs as (x & -> & Hx).
      apply list_elem_of_lookup in Hx as [i Hi].
      rewrite sameValueZero_sym.
      apply (Hdistinct i (List.length unique) x r).
      - by eapply lookup_lt_Some.
      - by apply lookup_app_l_Some.
      - by rewrite lookup_app_r, Nat.sub_diag by lia. }
    unfold dedup_step at 2. simpl. rewrite Hid, Hnew. simpl.
    rewrite IH; simpl.
    + by rewrite <- !app_assoc.
    + by rewrite fmap_app, Hseen.
    + by rewrite <- app_assoc.
Qed.

(** Deduplication keeps the order of the results and loses no identifier:
    every result with a truthy placeId has a result with the same placeId
    in the deduplicated list. *)
Theorem removeDuplicates_complete (allResults : list obj) :
  removeDuplicates allResults `sublist_of` allResults
  ∧ ∀ y, y ∈ allResults → truthy (placeId y) = true →
      ∃ x, x ∈ removeDuplicates allResults ∧ placeId x = placeId y.
Proof.
  split.
  - apply (dedup_fold_sublist allResults [] {| uniqueResults := []; seenPlaceIds := [] |}).
    simpl. apply sublist_nil.
  - intros y Hy Hid.
    pose proof (removeDuplicates_inv allResults) as [_ _ _ _ Hcovered].
    destruct (Hcovered y Hy Hid) as [Hin | (x & Hx & Hsame)].
    + by exists y.
    + exists x. split; [done|]. symmetry. by apply sameValueZero_eq.
Qed.

Lemma removeDuplicates_of_distinct (leads : list obj) :
  distinct_ids leads → removeDuplicates leads = leads.
Proof.
  intros Hdistinct. unfold removeDuplicates.
  by rewrite (dedup_fold_distinct leads {| uniqueResults := []; seenPlaceIds := [] |}).
Qed.

Lemma removeDuplicates_is_distinct (allResults : list obj) :
  distinct_ids (removeDuplicates allResults).
Proof.
  pose proof (removeDuplicates_inv allResults) as [_ Htruthy Hdistinct _ _].
  by split.
Qed.

Lemma distinct_ids_take (k : nat) (leads : list obj) :
  distinct_ids leads → distinct_ids (take k leads).
Proof.
  intros [Htruthy Hdistinct]. split.
  - intros x Hx. by eapply Htruthy, elem_of_take_1.
  - intros i j x y Hij [Hx _]%lookup_take_Some [Hy _]%lookup_take_Some.
    by eapply Hdistinct.
Qed.

(** Results whose identifiers are truthy and pairwise different pass the
    deduplication unchanged, in the same order. *)
Theorem removeDuplicates_distinct (leads : list obj) :
  distinct_ids leads → removeDuplicates leads = leads.
Proof.
  intros [Htruthy Hdistinct]. unfold removeDuplicates.
  rewrite (dedup_fold_distinct leads {| uniqueResults := []; seenPlaceIds := [] |});
    by try split.
Qed.

Lemma removeDuplicates_distinct_witness :
  removeDuplicates [place_result "a" "first"; place_result "b" "second"]
  = [place_result "a" "first"; place_result "b" "second"].
Proof.
  apply removeDuplicates_distinct.
  exact (removeDuplicates_is_distinct
           [place_result "a" "first"; place_result "b" "second"]).
Defined.

(** Deduplicating twice changes nothing, and neither does limiting the
    final list again to the same non-negative total. *)
Theorem finalResults_idempotent (allResults : list obj) (maxLeads : Z) :
  (0 ≤ maxLeads)%Z →
  removeDuplicates (removeDuplicates allResults) = removeDuplicates allResults
  ∧ finalResults (finalResults allResults maxLeads) maxLeads
    = finalResults allResults maxLeads.
Proof.
  intros Hpos. split.
  - apply removeDuplicates_of_distinct, removeDuplicates_is_distinct.
  - unfold finalResults at 1 3. unfold slice0. rewrite !decide_False by lia.
    unfold finalResults, slice0. rewrite decide_False by lia.
    rewrite (removeDuplicates_of_distinct (take _ _))
      by apply distinct_ids_take, removeDuplicates_is_distinct.
    by rewrite take_take, Nat.min_id.
Qed.

Lemma finalResults_idempotent_witness :
  (0 ≤ 2)%Z
  ∧ finalResults (finalResults shared_results 2) 2 = finalResults shared_results 2.
Proof.
  split; [lia|]. apply (finalResults_idempotent shared_results 2). lia.
Defined.

(** ** Place search: what a call returns *)

Section place_search_results.
Context `{Builtins}.
Variable api : PlacesApi.

Lemma fetch_details_spec (places : list Place) :
  ∀ i results,
    (fetch_details api i places results).2 = results ++ leads_of api i places
    ∧ omap details_request (fetch_details api i places results).1 = place_id <$> places.
Proof.
  induction places as [|place places IH]; intros i results; simpl.
  - by rewrite app_nil_r.
  - unfold details_lead.
    destruct (placeDetails api i (place_id place)) as [message|d].
    + destruct (IH (S i) results) as [IHleads IHrequests].
      destruct (fetch_details api (S i) places results) as [later r]. simpl in *.
      split; [done | by f_equal].
    + destruct (IH (S i)
                  (if String.eqb (details_status d) "OK"
                   then results ++ [place_lead place d] else results))
        as [IHleads IHrequests].
      destruct (fetch_details api (S i) places _) as [later r]. simpl in *.
      split; [|by f_equal]. rewrite IHleads.
      destruct (String.eqb (details_status d) "OK"); simpl; [|done].
      by rewrite <- app_assoc.
Qed.

Lemma leads_of_length (places : list Place) (i : nat) :
  List.length (leads_of api i places) ≤ List.length places.
Proof.
  revert i. induction places as [|place places IH]; intros i; simpl; [done|].
  rewrite length_app. specialize (IH (S i)).
  destruct (details_lead api i place); simpl; lia.
Qed.

Lemma leads_of_provenance (places : list Place) (i : nat) (lead : obj) :
  lead ∈ leads_of api i places →
  get "source" lead = VStr "Google Places API"
  ∧ ∃ place, place ∈ places ∧ placeId lead = place_id place.
Proof.
  revert i. induction places as [|place places IH]; intros i; simpl.
  - by intros ?%elem_of_nil.
  - intros [Hhere | Hlater]%elem_of_app.
    + unfold details_lead in Hhere.
      destruct (placeDetails api i (place_id place)) as [|d];
        [by apply elem_of_nil in Hhere|].
      destruct (String.eqb (details_status d) "OK");
        [|by apply elem_of_nil in Hhere].
      apply list_elem_of_singleton in Hhere as ->. unfold place_lead, placeId.
      split; [by rewrite get_insert_eq|].
      exists place. split; [apply list_elem_of_here|].
      by rewrite get_insert_ne, get_insert_eq.
    + destruct (IH (S i) Hlater) as [Hsource (p & Hp & Hid)].
      split; [done|]. exists p. split; [by apply list_elem_of_further | done].
Qed.

Lemma run_returned params maxLeads n token all tr allPlaces :
  pages_run api params maxLeads n token all tr (Returned allPlaces) →
  allPlaces = all ++ collected api tr.
Proof.
  intros Hrun. remember (Returned allPlaces) as r eqn:Hr.
  induction Hrun as [n token all message Hresp
                    |n token all data Hresp Hbad Hall
                    |n token all data Hresp Hbad Hall
                    |n token all data Hresp Hbad Hstop
                    |n token all data later r Hresp Hbad Hres Hlen Hn' Htok Hrun IH];
    try discriminate Hr.
  - injection Hr as <-. unfold collected. simpl. by rewrite Hresp, Hbad, app_nil_r.
  - injection Hr as <-. unfold collected. simpl. by rewrite Hresp, Hbad, app_nil_r.
  - rewrite (IH Hr). rewrite !collected_cons. simpl. rewrite Hresp, Hbad.
    by rewrite <- app_assoc.
Qed.

Lemma collected_app (tr tr' : list event) :
  collected api (tr ++ tr') = collected api tr ++ collected api tr'.
Proof. unfold collected. by rewrite fmap_app, concat_app. Qed.

Lemma collected_no_search (tr : list event) :
  (∀ j m p, tr !! j ≠ Some (TextSearch m p)) → collected api tr = [].
Proof.
  induction tr as [|e tr IH]; intros Hnone; [done|].
  rewrite collected_cons, IH by (intros j; apply (Hnone (S j))).
  destruct e as [m p| |]; [by specialize (Hnone 0 m p) | done | done].
Qed.
End place_search_results.

Section place_search_outcome.
Context `{Builtins}.
Variable api : PlacesApi.

Lemma scrapeGoogleMaps_returned_shape apiKey query location area zipcode country
    maxLeads leads :
  let params := searchParams query location area zipcode country in
  let run := scrapeGoogleMaps api apiKey query location area zipcode country maxLeads in
  run.2 = Some (Returned leads) →
  some_text apiKey = true
  ∧ ∃ pages allPlaces,
      pages_run api params maxLeads 0 None [] pages (Returned allPlaces)
      ∧ run.1 = pages ++ (fetch_details api 0 (slice0 allPlaces maxLeads) []).1
      ∧ leads = (fetch_details api 0 (slice0 allPlaces maxLeads) []).2.
Proof.
  intros params run. subst run. unfold scrapeGoogleMaps.
  destruct (some_text apiKey) eqn:Hkey; [|done].
  cbn -[fetch_pages fetch_details slice0]. fold params.
  destruct (fetch_pages_sound api params maxLeads maxPages [] None 0)
    as (left & Hleft & Hrun); [unfold maxPages; lia..|].
  destruct (fetch_pages api maxPages params maxLeads [] None 0) as [pages r].
  cbn [fst snd] in Hleft, Hrun. subst r.
  destruct left as [allPlaces|message]; cbn -[fetch_details slice0]; [|done].
  case_bool_decide as Hnone.
  - apply nil_length_inv in Hnone. subst allPlaces.
    intros [= <-]. split; [done|]. exists pages, [].
    assert (Hslice : slice0 ([] : list Place) maxLeads = [])
      by (unfold slice0; case_decide; by rewrite take_nil).
    rewrite Hslice. simpl. by rewrite app_nil_r.
  - destruct (fetch_details api 0 (slice0 allPlaces maxLeads) [])
      as [lookups results] eqn:Hdetails.
    intros [= <-]. split; [done|]. exists pages, allPlaces. by rewrite Hdetails.
Qed.

Lemma slice0_length {A} (xs : list A) (n : Z) :
  (0 ≤ n)%Z → (Z.of_nat (List.length (slice0 xs n)) ≤ n)%Z.
Proof. intros Hn. unfold slice0. rewrite decide_False by lia. rewrite length_take. lia. Qed.
End place_search_outcome.

(** A place search that returns gives the leads of the first maxLeads
    collected candidates whose details request answers OK, in order: one
    details request is made per such candidate, a failing one only leaves
    its candidate out.  So at most maxLeads leads are returned, each with
    the source label and the identifier of its candidate. *)
Theorem scrapeGoogleMaps_returns `{Builtins} (api : PlacesApi)
    (apiKey : option string) (query : string) (location : option string)
    (area : option SearchArea) (zipcode country : option string) (maxLeads : Z)
    (leads : list obj) :
  let run := scrapeGoogleMaps api apiKey query location area zipcode country maxLeads in
  let kept := slice0 (collected api run.1) maxLeads in
  run.2 = Some (Returned leads) →
  leads = leads_of api 0 kept
  ∧ omap details_request run.1 = place_id <$> kept
  ∧ List.length leads ≤ List.length kept
  ∧ ((0 ≤ maxLeads)%Z → (Z.of_nat (List.length leads) ≤ maxLeads)%Z)
  ∧ ∀ lead, lead ∈ leads →
      get "source" lead = VStr "Google Places API"
      ∧ ∃ place, place ∈ kept ∧ placeId lead = place_id place.
Proof.
  intros run kept Hreturned.
  destruct (scrapeGoogleMaps_returned_shape api _ _ _ _ _ _ _ _ Hreturned)
    as (Hkey & pages & allPlaces & Hrun & Htrace & Hleads).
  fold run in Htrace.
  pose proof (run_returned api _ _ _ _ _ _ _ Hrun) as Hall. simpl in Hall.
  destruct (fetch_details_spec api (slice0 allPlaces maxLeads) 0 []) as [Hresults Hrequests].
  assert (Hpages : ∀ j id, pages !! j ≠ Some (PlaceDetails id)).
  { clear -Hrun. induction Hrun; intros j id;
      try (intros [_ [=]]%list_lookup_singleton_Some).
    destruct j as [|[|j]]; [done | done | apply IHHrun]. }
  assert (Hcollected : collected api run.1 = allPlaces).
  { rewrite Htrace, collected_app, <- Hall.
    rewrite (collected_no_search api (fetch_details _ _ _ _).1), app_nil_r; [done|].
    apply fetch_details_no_search. }
  subst kept. rewrite Hcollected.
  assert (Hleads' : leads = leads_of api 0 (slice0 allPlaces maxLeads))
    by (by rewrite Hleads, Hresults).
  assert (Hlen : List.length leads ≤ List.length (slice0 allPlaces maxLeads))
    by (rewrite Hleads'; apply leads_of_length).
  split; [done|]. split; [|split; [done|split]].
  - rewrite Htrace, omap_app, Hrequests.
    assert (Hnone : omap details_request pages = []).
    { clear -Hpages. induction pages as [|e pages IH]; [done|].
      simpl. destruct e as [| id |]; simpl.
      - apply IH. intros j. apply (Hpages (S j)).
      - by specialize (Hpages 0 id).
      - apply IH. intros j. apply (Hpages (S j)). }
    by rewrite Hnone.
  - intros Hpos. pose proof (slice0_length allPlaces maxLeads Hpos). lia.
  - intros lead Hlead. rewrite Hleads' in Hlead.
    by apply (leads_of_provenance api _ 0).
Qed.

Lemma scrapeGoogleMaps_returns_witness :
  ∃ leads,
    (scrapeGoogleMaps (H := sample_builtins) endless_places (Some "key")
       "cafe" (Some "Austin") None None None 3).2 = Some (Returned leads)
    ∧ (Z.of_nat (List.length leads) ≤ 3)%Z.
Proof.
  eexists. split; [reflexivity|].
  destruct (scrapeGoogleMaps_returns (H := sample_builtins) endless_places (Some "key")
              "cafe" (Some "Austin") None None None 3 _ eq_refl)
    as (_ & _ & _ & Hbound & _).
  apply Hbound. lia.
Defined.

(** ** Place search: the requests of a call *)

Section place_search_requests.
Context `{Builtins}.
Variable api : PlacesApi.



Lemma collected_length_bound (size : nat) (tr : list event) :
  (∀ n p d, textSearch api n p = Resolved d → List.length (results d) ≤ size) →
  List.length (collected api tr) ≤ size * List.length (requests tr).
Proof.
  intros Hsize. induction tr as [|e tr IH]; [simpl; lia|].
  rewrite collected_cons, length_app.
  assert (Hcons : List.length (requests (e :: tr))
                  = (if is_text_search e then 1 else 0) + List.length (requests tr))
    by (by destruct e).
  assert (Hpage : List.length (page_results api e)
                  ≤ if is_text_search e then size else 0).
  { destruct e as [n p| |]; simpl; try lia.
    destruct (textSearch api n p) as [|d] eqn:Hd; simpl; [lia|].
    destruct (bad_status d); simpl; [lia|]. by apply (Hsize n p). }
  rewrite Hcons. destruct (is_text_search e); lia.
Qed.
End place_search_requests.



Section place_search_details.
Context `{Builtins}.
Variable api : PlacesApi.

Lemma pages_no_details params maxLeads n token all tr r :
  pages_run api params maxLeads n token all tr r → omap details_request tr = [].
Proof. induction 1; done. Qed.

(** The details requests of a call are those of some of the collected
    candidates, and the leads returned are no more than these. *)
Lemma scrapeGoogleMaps_details apiKey query location area zipcode country maxLeads :
  let run := scrapeGoogleMaps api apiKey query location area zipcode country maxLeads in
  ∃ places,
    omap details_request run.1 = place_id <$> places
    ∧ List.length places ≤ List.length (collected api run.1)
    ∧ ∀ leads, run.2 = Some (Returned leads) → List.length leads ≤ List.length places.
Proof.
  intros run. subst run. unfold scrapeGoogleMaps.
  destruct (some_text apiKey) eqn:Hkey; [|by exists []].
  cbn -[fetch_pages fetch_details slice0].
  set (params := searchParams query location area zipcode country).
  destruct (fetch_pages_sound api params maxLeads maxPages [] None 0)
    as (left & Hleft & Hrun); [unfold maxPages; lia..|].
  destruct (fetch_pages api maxPages params maxLeads [] None 0) as [pages r].
  cbn [fst snd] in Hleft, Hrun. subst r.
  pose proof (pages_no_details _ _ _ _ _ _ _ Hrun) as Hnone.
  destruct left as [allPlaces|message]; cbn -[fetch_details slice0].
  2: { exists []. cbn [fst snd]. rewrite Hnone. repeat split; [simpl; lia | done]. }
  pose proof (run_returned api _ _ _ _ _ _ _ Hrun) as Hall. simpl in Hall.
  case_bool_decide as Hempty.
  { exists []. cbn [fst snd]. rewrite Hnone.
    repeat split; [simpl; lia|]. by intros leads [= <-]. }
  destruct (fetch_details_spec api (slice0 allPlaces maxLeads) 0 []) as [Hresults Hrequests].
  destruct (fetch_details api 0 (slice0 allPlaces maxLeads) []) as [lookups results].
  cbn [fst snd] in *. exists (slice0 allPlaces maxLeads).
  rewrite omap_app, Hnone, Hrequests, collected_app, <- Hall.
  repeat split.
  - rewrite length_app. unfold slice0. case_decide; rewrite length_take; lia.
  - intros leads [= <-]. rewrite Hresults. apply leads_of_length.
Qed.
End place_search_details.

(** When the provider sends at most 20 candidates a page, a call collects
    at most 60 candidates, makes at most 60 details requests and returns at
    most 60 leads, whatever total is asked for. *)
Theorem scrapeGoogleMaps_sixty `{Builtins} (api : PlacesApi)
    (apiKey : option string) (query : string) (location : option string)
    (area : option SearchArea) (zipcode country : option string) (maxLeads : Z) :
  (∀ n p d, textSearch api n p = Resolved d → List.length (results d) ≤ 20) →
  let run := scrapeGoogleMaps api apiKey query location area zipcode country maxLeads in
  List.length (collected api run.1) ≤ 60
  ∧ List.length (omap details_request run.1) ≤ 60
  ∧ ∀ leads, run.2 = Some (Returned leads) → List.length leads ≤ 60.
Proof.
  intros Hsize run.
  assert (Hrequests : List.length (requests run.1) ≤ 3).
  { destruct (some_text apiKey) eqn:Hkey.
    2: { subst run. unfold scrapeGoogleMaps. rewrite Hkey. simpl. lia. }
    destruct (scrapeGoogleMaps_shape api apiKey query location area zipcode country
                maxLeads Hkey) as (pages & left & lookups & Hrun & Htrace & Hno & _).
    fold run in Htrace. rewrite Htrace. unfold requests. rewrite omap_app.
    fold (requests pages). fold (requests lookups).
    rewrite (requests_no_search lookups Hno), app_nil_r.
    pose proof (run_count api _ _ _ _ _ _ _ Hrun) as Hcount.
    unfold maxPages in Hcount. lia. }
  pose proof (collected_length_bound api 20 run.1 Hsize) as Hcollected.
  destruct (scrapeGoogleMaps_details api apiKey query location area zipcode country
              maxLeads) as (places & Hdetails & Hplaces & Hleads).
  fold run in Hdetails, Hplaces, Hleads.
  split; [lia|]. split.
  - rewrite Hdetails, length_fmap. lia.
  - intros leads Hreturned. specialize (Hleads leads Hreturned). lia.
Qed.

Lemma scrapeGoogleMaps_sixty_witness :
  List.length
    (collected endless_places
       (scrapeGoogleMaps (H := sample_builtins) endless_places (Some "key")
          "cafe" (Some "Austin") None None None 1000).1) ≤ 60.
Proof.
  apply (scrapeGoogleMaps_sixty (H := sample_builtins) endless_places (Some "key")
           "cafe" (Some "Austin") None None None 1000).
  intros n p d [= <-]. simpl. lia.
Defined.

(** The search radius is sent exactly when a location bias is sent, which
    is exactly when the area has a type and a center; it never exceeds
    50000 m, is 5000 m for an area without radius (or with radius 0), is
    the radius of the area when that is at most 50000 m, and is 50000 m
    when the radius of the area is larger. *)
Theorem searchParams_radius `{Builtins} (query : string) (location : option string)
    (area : option SearchArea) (zipcode country : option string) :
  let p := searchParams query location area zipcode country in
  (is_Some (sp_radius p) ↔ is_Some (sp_locationbias p))
  ∧ (is_Some (sp_locationbias p)
     ↔ ∃ a, area = Some a ∧ type a ≠ "" ∧ is_Some (calculateAreaCenter a))
  ∧ ∀ r, sp_radius p = Some r →
      (r ≤ Qc_of_Z 50000)%Qc
      ∧ ∃ a, area = Some a
          ∧ (radius a = 0%Qc → r = Qc_of_Z 5000)
          ∧ (radius a ≠ 0%Qc → (radius a ≤ Qc_of_Z 50000)%Qc → r = radius a)
          ∧ (radius a ≠ 0%Qc → (Qc_of_Z 50000 < radius a)%Qc → r = Qc_of_Z 50000).
Proof.
  intros p. subst p. unfold searchParams, locationBias, searchRadius.
  destruct area as [a|]; simpl.
  2: { repeat split; try (by intros [? ?]); try done. by intros (a & ? & _). }
  case_bool_decide as Htype; simpl.
  2: { repeat split; try (by intros [? ?]); try done.
       intros (a' & [= <-] & Hne & _). done. }
  destruct (calculateAreaCenter a) as [center|] eqn:Hcenter; simpl.
  2: { repeat split; try (by intros [? ?]); try done.
       intros (a' & [= <-] & _ & [c Hc]). congruence. }
  split; [split; intros _; by eexists|].
  split; [split; [intros _; exists a; repeat split; by eauto | intros _; by eexists]|].
  intros r [= <-].
  assert (Hdefault : (Qc_of_Z 5000 ≤ Qc_of_Z 50000)%Qc) by (by apply Z2Qc_inj_le).
  case_bool_decide as Hradius.
  - case_decide as Hsmall.
    + split; [by apply Qclt_le_weak|]. exists a.
      split; [done|]. split; [by intros Hzero|]. split; [done|].
      intros _ Hlarge. destruct (Qclt_not_le _ _ Hlarge). by apply Qclt_le_weak.
    + split; [apply Qcle_refl|]. exists a.
      split; [done|]. split; [by intros Hzero|]. split; [|done].
      intros _ Hle. apply Qcle_antisym; [by apply Qcnot_lt_le | done].
  - split; [done|]. exists a.
    split; [done|]. split; [done|].
    split; intros Hne; by destruct Hne.
Qed.

(** ** Area search: what the handler answers *)

Section area_handler.
Context `{Builtins}.
Variable services : AreaServices.
Variable apiKey : option string.

Lemma count_events_app {E} (kind : E → bool) (tr tr' : list E) :
  count_events kind (tr ++ tr') = count_events kind tr + count_events kind tr'.
Proof. unfold count_events. by rewrite List.filter_app, length_app. Qed.

Lemma scrapeGoogleMaps_at_most (api : PlacesApi) query location area zipcode country
    maxLeads leads :
  (scrapeGoogleMaps api apiKey query location area zipcode country maxLeads).2
  = Some (Returned leads) →
  (0 ≤ maxLeads)%Z → (Z.of_nat (List.length leads) ≤ maxLeads)%Z.
Proof.
  intros Hreturned Hpos.
  destruct (scrapeGoogleMaps_returned_shape api _ _ _ _ _ _ _ _ Hreturned)
    as (_ & pages & allPlaces & _ & _ & ->).
  destruct (fetch_details_spec api (slice0 allPlaces maxLeads) 0 []) as [-> _].
  simpl. pose proof (leads_of_length api (slice0 allPlaces maxLeads) 0).
  pose proof (slice0_length allPlaces maxLeads Hpos). lia.
Qed.

(** A polygon loop that completes has geocoded and searched every polygon,
    paused between two polygons, and added at most the quota per polygon. *)
Lemma search_polygons_complete (rest : list (list LatLng)) :
  ∀ i count query zipcode country quota allResults detected all' detected',
    let run := search_polygons services apiKey i count rest query zipcode country
                 quota allResults detected in
    run.2 = Some (Returned (all', detected')) →
    i + List.length rest = count →
    (0 ≤ quota)%Z →
    count_events is_search run.1 = List.length rest
    ∧ count_events is_geocode run.1 = List.length rest
    ∧ count_events is_pause run.1 = List.length rest - 1
    ∧ List.length detected' = List.length detected + List.length rest
    ∧ (Z.of_nat (List.length all')
       ≤ Z.of_nat (List.length allResults) + Z.of_nat (List.length rest) * quota)%Z.
Proof.
  induction rest as [|polygon rest IH];
    intros i count query zipcode country quota allResults detected all' detected';
    cbn -[locate scrapeGoogleMaps].
  - intros [= <- <-] _ _. repeat split; simpl; lia.
  - destruct (locate_polygon services i polygon) as (center & location & ->).
    destruct (scrapeGoogleMaps _ _ _ _ _ _ _ _)
      as [inner [[polygonResults|message]|]] eqn:Hscrape; cbn [fst snd]; [|done|done].
    specialize (IH (S i) count query zipcode country quota
                  (allResults ++ polygonResults)
                  (detected ++ [reverseGeocode services i center]) all' detected').
    destruct (search_polygons _ _ _ _ _ _ _ _ _ _ _) as [later r] eqn:Hrun.
    cbn [fst snd] in *. intros -> Hcount Hquota.
    destruct (IH eq_refl ltac:(simpl in Hcount; lia) Hquota)
      as (Hsearch & Hgeocode & Hpause & Hdetected & Hall).
    assert (Hfew : (Z.of_nat (List.length polygonResults) ≤ quota)%Z).
    { eapply (scrapeGoogleMaps_at_most (places_of services i)); [|done].
      by rewrite Hscrape. }
    rewrite length_app in Hall. rewrite length_app in Hdetected. simpl in Hdetected.
    change ([Geocode center] ++ ?x :: ?tr) with ([Geocode center; x] ++ tr).
    rewrite !count_events_app, Hsearch, Hgeocode, Hpause.
    repeat split; simpl length; try (case_bool_decide; unfold count_events; simpl; lia).
    + lia.
    + lia.
Qed.
End area_handler.

Lemma leadsPerPolygon_tight (total : Z) (n : nat) :
  (0 < total < 2 ^ 53)%Z → (0 < Z.of_nat n < 2 ^ 32)%Z →
  (Z.of_nat n * leadsPerPolygon total n < total + Z.of_nat n)%Z.
Proof.
  intros Htotal Hn.
  destruct (decide (total ≤ (leadsPerPolygon total n - 1) * Z.of_nat n)%Z)
    as [Hle|]; [|nia].
  apply (leadsPerPolygon_least total n) in Hle; [lia | done | done].
Qed.

Lemma finalResults_length (allResults : list obj) (maxLeads : Z) :
  List.length (finalResults allResults maxLeads) ≤ List.length allResults.
Proof.
  destruct (finalResults_take allResults maxLeads) as [k ->].
  rewrite length_take.
  pose proof (dedup_fold_sublist allResults []
                {| uniqueResults := []; seenPlaceIds := [] |} (sublist_nil : [] `sublist_of` [])) as Hsub.
  apply sublist_length in Hsub. simpl in Hsub. unfold removeDuplicates. lia.
Qed.

(** A successful multi-polygon search for a positive total has geocoded
    and searched each of its n polygons, with a pause between two
    polygons; it reports n polygons, at most maxLeads results, and a
    number of results before deduplication that is at least the count,
    at most n quotas and, for a total below 2^53 and fewer than 2^32
    polygons (where the quotient of the quota is not rounded), below
    maxLeads + n. *)
Theorem scrape_area_multipolygon_ok `{Builtins} (services : AreaServices)
    (apiKey query : option string) (area : SearchArea)
    (zipcode country : option string) (maxLeads : Z) (body : AreaBody) :
  let n := List.length (polygons area) in
  let run := scrape_area services apiKey query (Some area) zipcode country maxLeads in
  type area = "multipolygon" → polygons area ≠ [] → (0 < maxLeads)%Z →
  run.1.2 = Some (Status200 body) →
  polygonsSearched body = Some n
  ∧ body_count body = List.length (body_results body)
  ∧ (Z.of_nat (body_count body) ≤ maxLeads)%Z
  ∧ (∃ total, totalResultsBeforeDedup body = Some total
              ∧ body_count body ≤ total
              ∧ (Z.of_nat total ≤ Z.of_nat n * leadsPerPolygon maxLeads n)%Z
              ∧ ((maxLeads < 2 ^ 53)%Z → (Z.of_nat n < 2 ^ 32)%Z →
                 (Z.of_nat total < maxLeads + Z.of_nat n)%Z))
  ∧ (∃ detected, detectedLocations body = Some detected ∧ List.length detected = n)
  ∧ count_events is_search run.1.1 = n
  ∧ count_events is_geocode run.1.1 = n
  ∧ count_events is_pause run.1.1 = n - 1.
Proof.
  intros n run Htype Hsome Hpos. subst run. unfold scrape_area.
  destruct (some_text query); simpl; [|done].
  rewrite Htype. simpl.
  pose proof (nonempty_length _ Hsome) as Hn. fold n in Hn.
  rewrite bool_decide_true by done. fold n.
  pose proof (search_polygons_complete services apiKey (polygons area) 0 n
                (text_of query) zipcode country (leadsPerPolygon maxLeads n) [] [])
    as Hloop.
  destruct (search_polygons _ _ _ _ _ _ _ _ _ _ _)
    as [tr [[[all detected]|message]|]]; simpl; try done.
  intros [= <-]. simpl.
  destruct (Hloop all detected eq_refl eq_refl)
    as (Hsearch & Hgeocode & Hpause & Hdetected & Hall).
  { apply leadsPerPolygon_nonneg. lia. }
  simpl in *. fold n in Hsearch, Hgeocode, Hpause, Hdetected, Hall.
  repeat split; try done.
  - pose proof (finalResults_take all maxLeads) as [k Hk].
    unfold finalResults, slice0 in *. rewrite decide_False by lia.
    rewrite length_take. lia.
  - exists (List.length all). split; [done|]. split; [apply finalResults_length|].
    split; [lia|]. intros Hsafe Hfew.
    pose proof (leadsPerPolygon_tight maxLeads n ltac:(lia) ltac:(lia)) as Htight. lia.
  - by exists detected.
Qed.

(** A request without query or without area is answered 400, and an area
    of an unknown type 500, in both cases before any request is made. *)
Theorem scrape_area_rejects `{Builtins} (services : AreaServices)
    (apiKey query : option string) (area : option SearchArea)
    (zipcode country : option string) (maxLeads : Z) :
  let run := scrape_area services apiKey query area zipcode country maxLeads in
  (some_text query = false ∨ area = None →
   run.1 = ([], Some (Status400 "Both query and area are required")))
  ∧ (∀ a, some_text query = true → area = Some a →
       type a ∉ ["circle"; "rectangle"; "polygon"; "polyline"; "multipolygon"] →
       run.1 = ([], Some (Status500 "Cannot read properties of null (reading 'lat')"))).
Proof.
  intros run. subst run. unfold scrape_area. split.
  - intros [Hquery | ->]; [|done]. rewrite Hquery. by destruct area.
  - intros a Hquery -> Hunknown. rewrite Hquery. simpl.
    assert (Hnot : String.eqb (type a) "multipolygon" = false).
    { apply String.eqb_neq. intros Heq. apply Hunknown. rewrite Heq.
      do 4 apply list_elem_of_further. apply list_elem_of_here. }
    rewrite Hnot. simpl. unfold locate.
    by rewrite (calculateAreaCenter_unknown a Hunknown).
Qed.

Lemma scrape_area_multipolygon_ok_witness :
  let run := scrape_area (H := sample_builtins) town_services (Some "key")
               (Some "cafe") (Some three_polygons) None None 4 in
  ∃ body,
    run.1.2 = Some (Status200 body)
    ∧ polygonsSearched body = Some 3
    ∧ (Z.of_nat (body_count body) ≤ 4)%Z
    ∧ count_events is_pause run.1.1 = 2.
Proof.
  intros run.
  assert (Hrun : ∃ body, run.1.2 = Some (Status200 body)) by (vm_compute; eauto).
  destruct Hrun as [body Hbody]. exists body. split; [exact Hbody|].
  destruct (scrape_area_multipolygon_ok (H := sample_builtins) town_services
              (Some "key") (Some "cafe") three_polygons None None 4 body
              eq_refl ltac:(discriminate) ltac:(lia) Hbody)
    as (Hsearched & _ & Hcount & _ & _ & _ & _ & Hpause).
  by repeat split.
Defined.

Lemma scrape_area_rejects_witness :
  (scrape_area (H := sample_builtins) silent_services (Some "key") None
     (Some three_polygons) None None 10).1
  = ([], Some (Status400 "Both query and area are required")).
Proof.
  apply (proj1 (scrape_area_rejects (H := sample_builtins) silent_services
                  (Some "key") None (Some three_polygons) None None 10)).
  by left.
Defined.

(** ** AI verification: what is kept, and the modes *)

Lemma lookup_insert_is_Some' (k k' : string) (v : value) (o : obj) :
  is_Some (o !! k') → is_Some (<[k := v]> o !! k').
Proof. intros Hsome. rewrite lookup_insert_is_Some. destruct (decide (k = k')); auto. Qed.

Lemma num_inj (a b : Z) : num a = num b → a = b.
Proof. unfold num. by intros [= Heq]. Qed.

Section verification_frame.
Context `{Builtins}.
Variable ai : AiServices.
Variable random : nat → Qc.

Lemma mock_lead_keeps_keys (lead final : obj) :
  mock_lead random lead = Returned final →
  ∀ k, is_Some (lead !! k) → is_Some (final !! k).
Proof.
  unfold mock_lead. intros Hfinal k Hk.
  destruct (truthy (get "ownerName" lead)), (truthy (get "industry" lead));
    destruct (company_slug "-" _) as [linkedin|]; try done; simpl in Hfinal;
    case_decide; try (destruct (company_slug "" _) as [facebook|]; [|done]);
    simpl in Hfinal; injection Hfinal as <-;
    by repeat apply lookup_insert_is_Some'.
Qed.

Lemma merged_keeps_keys (lead : obj) (c g : option obj) :
  ∀ k, is_Some (lead !! k) → is_Some (merged lead c g !! k).
Proof.
  intros k Hk. unfold merged, merge_both, merge_one, spread.
  destruct g as [g|], c as [c|];
    repeat apply lookup_insert_is_Some'; try done;
    apply lookup_union_is_Some; right; by apply lookup_insert_is_Some'.
Qed.

Lemma verifyLeadWithAI_mock (lead : obj) (preferredAI : string) :
  claudeResult ai lead preferredAI = None →
  chatGPTResult ai lead preferredAI = None →
  verifyLeadWithAI ai random lead preferredAI = mock_lead random lead.
Proof. intros Hc Hg. unfold verifyLeadWithAI. by rewrite Hc, Hg. Qed.
End verification_frame.

(** Verification removes no property of the lead.  A property that the
    function does not set itself keeps the value of the lead when both
    adapters or none answered; when one adapter answered, every property
    but aiConfidence, aiSource and socialMedia is the one of its answer
    when the answer has it, and otherwise the one of the lead (verified
    being true). *)
Theorem verifyLeadWithAI_frame `{Builtins} (ai : AiServices) (random : nat → Qc)
    (lead : obj) (preferredAI : string) (final : obj) :
  verifyLeadWithAI ai random lead preferredAI = Returned final →
  (∀ k, is_Some (lead !! k) → is_Some (final !! k))
  ∧ match claudeResult ai lead preferredAI, chatGPTResult ai lead preferredAI with
    | Some r, None | None, Some r =>
      ∀ k, k ∉ ["aiConfidence"; "aiSource"; "socialMedia"] →
        get k final = default (get k (<["verified" := VBool true]> lead)) (r !! k)
    | _, _ => ∀ k, k ∉ written_by_ai → get k final = get k lead
    end.
Proof.
  intros Hfinal.
  destruct (claudeResult ai lead preferredAI) as [c|] eqn:Hc,
           (chatGPTResult ai lead preferredAI) as [g|] eqn:Hg.
  1-3: destruct (verifyLeadWithAI_merge ai random lead preferredAI) as [_ Hinv];
       [rewrite Hc, Hg; first [left; by eexists | right; by eexists]|];
       destruct (Hinv final Hfinal) as [social ->]; rewrite Hc, Hg;
       (split; [intros k Hk; by apply lookup_insert_is_Some', merged_keeps_keys|]);
       intros k Hk; unfold written_by_ai in Hk;
       repeat (apply not_elem_of_cons in Hk as [? Hk]);
       unfold merged, merge_both, merge_one;
       rewrite !get_insert_ne by done; try done;
       rewrite get_spread; by destruct (_ !! k).
  rewrite (verifyLeadWithAI_mock ai random lead preferredAI Hc Hg) in Hfinal.
  split; [by apply (mock_lead_keeps_keys random lead)|].
  intros k Hk.
  destruct (text_or_absent (get "companyName" lead)) eqn:Hname.
  - destruct (mock_lead_returns random lead Hname) as (final' & Hfinal' & Hrest).
    rewrite Hfinal' in Hfinal. injection Hfinal as <-.
    apply Hrest. unfold written_by_ai in Hk.
    repeat (apply not_elem_of_cons in Hk as [? Hk]).
    repeat (apply not_elem_of_cons; split; [done|]). apply not_elem_of_nil.
  - destruct (mock_lead_throws random lead Hname) as [message Hthrown]. congruence.
Qed.

(** An adapter is consulted only in its mode: in mode claude the result
    does not depend on the OpenAI key or model, in mode chatgpt not on the
    Anthropic ones, and in any other mode than both, claude and chatgpt
    the lead gets mock data whatever the adapters would answer. *)
Theorem verifyLeadWithAI_modes `{Builtins} (ai ai' : AiServices) (random : nat → Qc)
    (lead : obj) (preferredAI : string) :
  (preferredAI ∉ ["both"; "claude"; "chatgpt"] →
   verifyLeadWithAI ai random lead preferredAI = mock_lead random lead)
  ∧ (ANTHROPIC_API_KEY ai = ANTHROPIC_API_KEY ai' → claude ai lead = claude ai' lead →
     verifyLeadWithAI ai random lead "claude" = verifyLeadWithAI ai' random lead "claude")
  ∧ (OPENAI_API_KEY ai = OPENAI_API_KEY ai' → chatgpt ai lead = chatgpt ai' lead →
     verifyLeadWithAI ai random lead "chatgpt"
     = verifyLeadWithAI ai' random lead "chatgpt").
Proof.
  split; [|split].
  - intros Hmode. repeat (apply not_elem_of_cons in Hmode as [?%String.eqb_neq Hmode]).
    apply verifyLeadWithAI_mock; unfold claudeResult, chatGPTResult;
      by repeat match goal with Hf : String.eqb _ _ = false |- _ => rewrite Hf; clear Hf end.
  - intros Hkey Hreply.
    unfold verifyLeadWithAI, claudeResult, chatGPTResult, verifyWithClaude. simpl.
    by rewrite Hkey, Hreply.
  - intros Hkey Hreply.
    unfold verifyLeadWithAI, claudeResult, chatGPTResult, verifyWithChatGPT. simpl.
    by rewrite Hkey, Hreply.
Qed.

Lemma verifyLeadWithAI_modes_witness :
  verifyLeadWithAI (H := sample_builtins) (both_ai claude_says chatgpt_says)
    (λ _, 0%Qc) acme "gemini"
  = mock_lead (H := sample_builtins) (λ _, 0%Qc) acme.
Proof.
  apply (proj1 (verifyLeadWithAI_modes (H := sample_builtins)
                  (both_ai claude_says chatgpt_says) no_ai (λ _, 0%Qc) acme "gemini")).
  apply (bool_decide_unpack _). by vm_compute.
Defined.

(** A confidence of 100 is reported only in mode both, with both keys
    configured and both models answering with text that parses. *)
Theorem full_confidence_needs_both `{Builtins} (ai : AiServices) (random : nat → Qc)
    (lead : obj) (preferredAI : string) (final : obj) :
  (0 ≤ random 0%nat)%Qc → (random 0%nat < 1)%Qc →
  verifyLeadWithAI ai random lead preferredAI = Returned final →
  get "aiConfidence" final = num 100 →
  preferredAI = "both"
  ∧ configured (ANTHROPIC_API_KEY ai) "your_anthropic_claude_api_key_here" = true
  ∧ configured (OPENAI_API_KEY ai) "your_openai_api_key_here" = true
  ∧ (∃ parsed, claude ai lead = Parsed parsed)
  ∧ (∃ parsed, chatgpt ai lead = Parsed parsed).
Proof.
  intros Hlow Hhigh Hfinal Hfull.
  destruct (claudeResult ai lead preferredAI) as [c|] eqn:Hc,
           (chatGPTResult ai lead preferredAI) as [g|] eqn:Hg.
  2-3: destruct (verifyLeadWithAI_merge ai random lead preferredAI) as [_ Hinv];
       [rewrite Hc, Hg; first [left; by eexists | right; by eexists]|];
       destruct (Hinv final Hfinal) as [social ->]; rewrite Hc, Hg in Hfull;
       unfold merged, merge_one in Hfull;
       rewrite get_insert_ne, get_insert_ne, get_insert_eq in Hfull by done;
       by apply num_inj in Hfull.
  - unfold claudeResult, verifyWithClaude in Hc.
    unfold chatGPTResult, verifyWithChatGPT in Hg.
    destruct (String.eqb preferredAI "both") eqn:Hboth; simpl in *.
    + apply String.eqb_eq in Hboth.
      destruct (configured (ANTHROPIC_API_KEY ai) _); [|done].
      destruct (configured (OPENAI_API_KEY ai) _); [|done].
      destruct (claude ai lead) as [| |parsed]; try done.
      destruct (chatgpt ai lead) as [| |parsed']; try done.
      split; [done|]. split; [done|]. split; [done|]. split; by eexists.
    + destruct (String.eqb preferredAI "claude") eqn:Hclaude; [|done].
      destruct (String.eqb preferredAI "chatgpt") eqn:Hchatgpt; [|done].
      apply String.eqb_eq in Hclaude, Hchatgpt. congruence.
  - rewrite (verifyLeadWithAI_mock ai random lead preferredAI Hc Hg) in Hfinal.
    destruct (text_or_absent (get "companyName" lead)) eqn:Hname.
    + destruct (mock_lead_returns random lead Hname)
        as (final' & Hfinal' & _ & _ & Hconfidence & _).
      rewrite Hfinal' in Hfinal. injection Hfinal as <-.
      rewrite Hconfidence in Hfull. apply num_inj in Hfull.
      pose proof (floor_times_range (random 0%nat) 20 ltac:(lia) Hlow Hhigh). lia.
    + destruct (mock_lead_throws random lead Hname) as [message Hthrown]. congruence.
Qed.

Lemma full_confidence_needs_both_witness :
  ∃ final,
    verifyLeadWithAI (H := sample_builtins) (both_ai claude_says chatgpt_says)
      (λ _, 0%Qc) acme "both" = Returned final
    ∧ configured (ANTHROPIC_API_KEY (both_ai claude_says chatgpt_says))
        "your_anthropic_claude_api_key_here" = true.
Proof.
  eexists. split; [reflexivity|].
  refine (proj1 (proj2 (full_confidence_needs_both (H := sample_builtins)
                          (both_ai claude_says chatgpt_says) (λ _, 0%Qc) acme "both" _
                          _ _ eq_refl _))); [done | done | reflexivity].
Defined.

Lemma verifyLeadWithAI_frame_witness :
  ∃ final,
    verifyLeadWithAI (H := sample_builtins) no_ai (λ _, 0%Qc) acme "both" = Returned final
    ∧ get "companyName" final = get "companyName" acme.
Proof.
  eexists. split; [reflexivity|].
  refine (proj2 (verifyLeadWithAI_frame (H := sample_builtins) no_ai (λ _, 0%Qc) acme
                   "both" _ eq_refl) "companyName" _).
  apply (bool_decide_unpack _). by vm_compute.
Defined.

(** ** The Claude adapter *)

Lemma pretty_N_char_digit (x : N) : is_digit (pretty_N_char x) = true.
Proof. unfold pretty_N_char. by repeat case_match. Qed.

Lemma pretty_N_go_digits (x : N) :
  ∀ s, digits s = true → digits (pretty_N_go x s) = true.
Proof.
  induction (N.lt_wf_0 x) as [x _ IH]. intros s Hs.
  destruct (decide (x = 0)%N) as [->|Hx]; [by rewrite pretty_N_go_0|].
  rewrite pretty_N_go_step by lia. apply IH.
  - apply N.div_lt; lia.
  - simpl. by rewrite pretty_N_char_digit, Hs.
Qed.

Lemma pretty_nat_digits (i : nat) : digits (pretty i) = true.
Proof.
  unfold pretty, pretty_nat, pretty, pretty_N.
  case_decide; [done|]. by apply pretty_N_go_digits.
Qed.

Lemma lookup_indexed {A} (f : A → value) (xs : list A) (k : string) :
  digits k = false →
  (list_to_map (imap (λ i x, (pretty i, f x)) xs) : obj) !! k = None.
Proof.
  intros Hk. apply not_elem_of_list_to_map_1.
  intros ([k' v] & -> & Hin)%list_elem_of_fmap.
  apply elem_of_lookup_imap_1 in Hin as (i & x & [= -> _] & _).
  simpl in Hk. by rewrite pretty_nat_digits in Hk.
Qed.

(** A property whose name is not a number is the same on the copy of a
    value as on the value. *)
Lemma own_props_field (k : string) (parsed : value) :
  digits k = false → get k (own_props parsed) = field k parsed.
Proof.
  intros Hk. unfold get. destruct parsed as [| | | | s | xs | kvs]; simpl; try done.
  - by rewrite (lookup_indexed (λ c, VStr (String c "")) _ k Hk).
  - by rewrite (lookup_indexed id _ k Hk).
Qed.

(** When the Claude adapter returns a result, the model's reply parsed to
    a value other than null.  An industry that is not an object is passed
    on unchanged; an industry that is an object is replaced by its primary,
    else its NAICS, else its JSON text, so that the result's industry is
    not an object unless that primary or NAICS is one.  The source label
    is Claude unless the reply names a source itself. *)
Theorem verifyWithClaude_industry `{Builtins} (ai : AiServices) (lead c : obj) :
  verifyWithClaude ai lead = Some c →
  ∃ parsed,
    claude ai lead = Parsed parsed ∧ parsed ≠ VNull ∧ parsed ≠ VUndefined
    ∧ (truthy (field "industry" parsed) && is_object (field "industry" parsed) = false →
       get "industry" c = field "industry" parsed)
    ∧ (truthy (field "industry" parsed) && is_object (field "industry" parsed) = true →
       get "industry" c
       = or_else (field "primary" (field "industry" parsed))
           (or_else (field "NAICS" (field "industry" parsed))
              (VStr (JSON_stringify (field "industry" parsed))))
       ∧ (is_object (field "primary" (field "industry" parsed)) = false →
          is_object (field "NAICS" (field "industry" parsed)) = false →
          is_object (get "industry" c) = false))
    ∧ (own_props parsed !! "source" = None → get "source" c = VStr "Claude").
Proof.
  unfold verifyWithClaude. intros Hc.
  destruct (configured _ _); [|done]. simpl in Hc.
  destruct (claude ai lead) as [| |parsed]; try done.
  exists parsed. split; [done|].
  destruct (prop "industry" parsed) as [industry|] eqn:Hprop; [|done].
  assert (Hindustry : industry = field "industry" parsed
                      ∧ parsed ≠ VNull ∧ parsed ≠ VUndefined).
  { destruct parsed; simpl in Hprop; try done; by injection Hprop as <-. }
  destruct Hindustry as (-> & Hnull & Hundefined).
  split; [done|]. split; [done|].
  injection Hc as <-.
  split; [|split].
  - intros Hplain. rewrite Hplain, get_spread.
    pose proof (own_props_field "industry" parsed eq_refl) as Hfield.
    unfold get in Hfield. by destruct (own_props parsed !! "industry").
  - intros Hobject. rewrite Hobject, get_spread, lookup_insert_eq.
    split; [done|]. intros Hprimary Hnaics. unfold or_else.
    destruct (truthy (field "primary" _)); [done|].
    by destruct (truthy (field "NAICS" _)).
  - intros Hsource. rewrite get_spread.
    destruct (truthy _ && is_object _).
    + by rewrite lookup_insert_ne, Hsource.
    + by rewrite Hsource.
Qed.

Lemma verifyWithClaude_industry_witness :
  ∃ c,
    verifyWithClaude (H := sample_builtins) (claude_only structured_industry) acme = Some c
    ∧ get "industry" c = VStr "Retail".
Proof.
  eexists. split; [reflexivity|].
  destruct (verifyWithClaude_industry (H := sample_builtins)
              (claude_only structured_industry) acme _ eq_refl)
    as (parsed & [= <-] & _ & _ & _ & Hobject & _).
  exact (proj1 (Hobject eq_refl)).
Defined.

(** ** Manual enrichment: the data check and the best match *)

Section manual_checks.
Context `{Builtins}.

Lemma hasData_false (values : list value) :
  hasData values = Returned false ↔ Forall (λ v, blank v = true) values.
Proof.
  induction values as [|v rest IH]; simpl; [done|].
  rewrite Forall_cons, <- IH. unfold blank.
  destruct v as [| | b | q | s | xs | kvs]; simpl; try (split; [by auto | by intros [_ ?]]).
  - destruct b; simpl; [split; [done | by intros [? _]] | split; [by auto | by intros [_ ?]]].
  - case_bool_decide; simpl; [split; [done | by intros [? _]] | split; [by auto | by intros [_ ?]]].
  - case_bool_decide as Hs; simpl.
    + case_bool_decide as Htrim.
      * split; [by auto | by intros [_ ?]].
      * split; [done | by intros [? _]].
    + split; [by auto | by intros [_ ?]].
  - split; [done | by intros [? _]].
  - split; [done | by intros [? _]].
Qed.

Lemma find_by_name_found (test : string → bool) (scrapedResults : list obj) (r : obj) :
  find_by_name test scrapedResults = Returned (Some r) →
  ∃ j name,
    scrapedResults !! j = Some r ∧ get "companyName" r = VStr name
    ∧ test (toLowerCase name) = true
    ∧ ∀ j' r' name', j' < j → scrapedResults !! j' = Some r' →
        get "companyName" r' = VStr name' → test (toLowerCase name') = false.
Proof.
  induction scrapedResults as [|x rest IH]; simpl; [done|].
  destruct (get "companyName" x) as [| | | | name | |] eqn:Hname; try done.
  destruct (test (toLowerCase name)) eqn:Htest.
  - intros [= <-]. exists 0, name. repeat split; try done. intros; lia.
  - intros (j & name' & Hj & Hname' & Htest' & Hfirst)%IH.
    exists (S j), name'. repeat split; try done.
    intros [|j'] r' name'' Hlt Hr' Hn'; simpl in Hr'.
    + injection Hr' as <-. congruence.
    + apply (Hfirst j' r' name''); [lia | done | done].
Qed.

Lemma find_by_name_none (test : string → bool) (scrapedResults : list obj) :
  find_by_name test scrapedResults = Returned None →
  ∀ r name, r ∈ scrapedResults → get "companyName" r = VStr name →
    test (toLowerCase name) = false.
Proof.
  induction scrapedResults as [|x rest IH]; simpl; intros Hnone r name Hr Hname.
  - by apply elem_of_nil in Hr.
  - destruct (get "companyName" x) as [| | | | name' | |] eqn:Hname'; try done.
    destruct (test (toLowerCase name')) eqn:Htest; [done|].
    apply elem_of_cons in Hr as [-> | Hr]; [congruence | by eapply IH].
Qed.
End manual_checks.

(** The request is answered 400 exactly when every value of the body is
    falsy or a string of white space, whatever the lookup and the AI
    adapters would give. *)
Theorem enrich_manual_requires_data `{Builtins} (ai : AiServices) (random : nat → Qc)
    (body : list (string * value)) (scrapedResults : list obj)
    (searchMethod : string) (now0 now1 : Z) :
  enrich_manual ai random body scrapedResults searchMethod now0 now1
  = Status400 "At least one field is required"
  ↔ Forall (λ v, blank v = true) (body.*2).
Proof.
  rewrite <- hasData_false. unfold enrich_manual.
  destruct (hasData (body.*2)) as [[|]|message]; [| done |].
  - split; [|done]. by destruct (_ ≫= _).
  - by split.
Qed.

(** The best match is one of the scraped results.  When the typed company
    name is not blank and some result has this name up to letter case,
    the best match is the first such result. *)
Theorem bestMatch_prefers_exact `{Builtins} (manualData first : obj)
    (rest : list obj) (best : obj) :
  bestMatch manualData first (first :: rest) = Returned best →
  best ∈ first :: rest
  ∧ (blank (get "companyName" manualData) = true → best = first)
  ∧ ∀ s i r,
      get "companyName" manualData = VStr s → blank (VStr s) = false →
      (first :: rest) !! i = Some r → exact_match (toLowerCase s) r = true →
      ∃ j, j ≤ i ∧ (first :: rest) !! j = Some best
           ∧ exact_match (toLowerCase s) best = true
           ∧ ∀ j' r', j' < j → (first :: rest) !! j' = Some r' →
               exact_match (toLowerCase s) r' = false.
Proof.
  unfold bestMatch, blank. intros Hbest.
  destruct (get "companyName" manualData) as [| | b | q | s | xs | kvs] eqn:Hname;
    cbn -[find_by_name] in Hbest; try done.
  1-2: injection Hbest as <-;
       (split; [by apply list_elem_of_here | split; [done | by intros]]).
  - destruct b; [done|]. injection Hbest as <-.
    split; [by apply list_elem_of_here | split; [done | by intros]].
  - case_bool_decide; [done|]. injection Hbest as <-.
    split; [by apply list_elem_of_here | split; [done | by intros]].
  - case_bool_decide as Hs; cbn -[find_by_name] in Hbest.
    2: { injection Hbest as <-.
         split; [by apply list_elem_of_here | split; [done|]].
         intros s' i r [= <-] Hblank. subst s. by vm_compute in Hblank. }
    case_bool_decide as Htrim; cbn -[find_by_name] in Hbest.
    2: { injection Hbest as <-.
         split; [by apply list_elem_of_here | split; [done|]].
         intros s' i r [= <-] Hblank.
         rewrite (bool_decide_true (trim s = "")) in Hblank by done.
         by rewrite orb_true_r in Hblank. }
    apply bind_returned in Hbest as (exactMatch & Hexact & Hbest).
    apply bind_returned in Hbest as (partialMatch & Hpartial & Hbest).
    injection Hbest as <-.
    split; [|split].
    + destruct exactMatch as [e|]; simpl.
      { apply find_by_name_found in Hexact as (j & _ & Hj & _).
        by eapply list_elem_of_lookup_2. }
      destruct partialMatch as [p|]; simpl; [|by apply list_elem_of_here].
      apply find_by_name_found in Hpartial as (j & _ & Hj & _).
      by eapply list_elem_of_lookup_2.
    + simpl. rewrite bool_decide_true by done. simpl.
      by rewrite bool_decide_false by done.
    + intros s' i r [= <-] _ Hi Hr. unfold exact_match in Hr.
      destruct (get "companyName" r) as [| | | | name | |] eqn:Hrname; try done.
      destruct exactMatch as [e|]; simpl.
      * apply find_by_name_found in Hexact as (j & ename & Hj & Hename & Htest & Hfirst).
        exists j. split; [|split; [done|split]].
        -- destruct (decide (j ≤ i)) as [|Hlt]; [done|].
           rewrite (Hfirst i r name) in Hr; [done | lia | done | done].
        -- unfold exact_match. by rewrite Hename.
        -- intros j' r' Hlt Hr'. unfold exact_match.
           destruct (get "companyName" r') as [| | | | name' | |] eqn:Hname'; try done.
           by apply (Hfirst j' r' name').
      * rewrite (find_by_name_none _ _ Hexact r name) in Hr;
          [done | by eapply list_elem_of_lookup_2 | done].
Qed.

Lemma bestMatch_prefers_exact_witness :
  ∃ best,
    bestMatch (H := sample_builtins) (list_to_map typed_by_hand)
      (scraped "Acme Tools" "tools.example")
      [scraped "Acme Tools" "tools.example"; scraped "ACME" "acme.example"]
    = Returned best
    ∧ best ∈ [scraped "Acme Tools" "tools.example"; scraped "ACME" "acme.example"].
Proof.
  eexists. split; [reflexivity|].
  exact (proj1 (bestMatch_prefers_exact (H := sample_builtins)
                  (list_to_map typed_by_hand) (scraped "Acme Tools" "tools.example")
                  [scraped "ACME" "acme.example"] _ eq_refl)).
Defined.

(** ** From a details result to a lead *)

Lemma has_type_elem (t : string) (ts : list string) : has_type t ts = true ↔ t ∈ ts.
Proof.
  unfold has_type. rewrite existsb_exists. split.
  - intros (x & Hx & ->%String.eqb_eq). by apply list_elem_of_In.
  - intros Ht. exists t. split; [by apply list_elem_of_In | apply String.eqb_refl].
Qed.

Lemma has_type_permutation (t : string) (ts ts' : list string) :
  ts ≡ₚ ts' → has_type t ts = has_type t ts'.
Proof.
  intros Hperm. apply eq_true_iff_eq. rewrite !has_type_elem. by rewrite Hperm.
Qed.

Lemma or_else_default_truthy (v : value) (s : string) :
  s ≠ "" → truthy (or_else v (VStr s)) = true.
Proof.
  intros Hs. unfold or_else. destruct (truthy v) eqn:Hv; [done|].
  simpl. by rewrite bool_decide_true.
Qed.

Lemma or_else_not_zero (o : option Qc) : or_else (number_value o) VNull ≠ VNum 0%Qc.
Proof.
  unfold or_else. destruct o as [q|]; simpl; [|done].
  case_bool_decide as Hq; [|done]. by intros [= ->].
Qed.

Lemma defaulted_fields_truthy (details : Details) (placeId : value) (stamp : Qc) (k : string) :
  k ∈ defaulted_fields →
  truthy (get k (convertPlaceDetailsToLead details placeId stamp)) = true.
Proof.
  intros Hk. unfold convertPlaceDetailsToLead, defaulted_fields in *.
  repeat (apply elem_of_cons in Hk as [-> | Hk]); [..|by apply elem_of_nil in Hk];
    read_property; try by apply or_else_default_truthy.
  unfold or_else at 1.
  destruct (truthy (text_value (formatted_phone_number details))) eqn:Hphone;
    [done | by apply or_else_default_truthy].
Qed.

(** Every lead built from a details result has a truthy phone, address,
    zipcode, city, country, website and rating (the text N/A when the
    provider gave nothing, or an empty text or a rating of 0), a number as
    reviewCount, and a latitude and a longitude that are null or a number
    other than 0; it carries the identifier it was asked for and the
    source label. *)
Theorem convertPlaceDetailsToLead_defaults (details : Details) (placeId : value)
    (stamp : Qc) :
  let lead := convertPlaceDetailsToLead details placeId stamp in
  (∀ k, k ∈ defaulted_fields → truthy (get k lead) = true)
  ∧ (∃ n, get "reviewCount" lead = VNum n)
  ∧ get "latitude" lead ≠ VNum 0%Qc
  ∧ get "longitude" lead ≠ VNum 0%Qc
  ∧ get "placeId" lead = placeId
  ∧ get "source" lead = VStr "Google Places API".
Proof.
  intros lead. subst lead.
  split; [intros k; apply defaulted_fields_truthy|].
  unfold convertPlaceDetailsToLead.
  split; [|split; [|split; [|split]]].
  - read_property. unfold or_else, num.
    destruct (user_ratings_total details) as [n|]; simpl; [|by eexists].
    case_bool_decide; by eexists.
  - read_property. apply or_else_not_zero.
  - read_property. apply or_else_not_zero.
  - by read_property.
  - by read_property.
Qed.

Section address_components.
Variable t : string.
Variable pick : AddressComponent → string.
Variable field_of : Extracted → string.
Hypothesis field_step : ∀ e c,
  field_of (extract_step e c)
  = if has_type t (component_types c) then pick c else field_of e.

Lemma extract_fold_last (after : list AddressComponent) :
  ∀ e, Forall (λ c, has_type t (component_types c) = false) after →
       field_of (fold_left extract_step after e) = field_of e.
Proof.
  induction after as [|c after IH]; intros e Hnone; simpl; [done|].
  apply Forall_cons in Hnone as [Hc Hafter].
  by rewrite IH, field_step, Hc.
Qed.

Lemma extract_fold_found (before after : list AddressComponent) (c : AddressComponent) :
  ∀ e, has_type t (component_types c) = true →
       Forall (λ c, has_type t (component_types c) = false) after →
       field_of (fold_left extract_step (before ++ c :: after) e) = pick c.
Proof.
  intros e Hc Hafter. rewrite fold_left_app. simpl.
  by rewrite extract_fold_last, field_step, Hc.
Qed.
End address_components.

(** Of the address components, the last one of a type decides: the
    zipcode is the long name of the last postal_code component, the city
    and the country the long name of the last locality and country
    component, the state the short name of the last
    administrative_area_level_1 component; an empty name, or no component
    of the type, gives N/A (the empty text for the state). *)
Theorem address_last_component_decides (details : Details) (placeId : value)
    (stamp : Qc) :
  let lead := convertPlaceDetailsToLead details placeId stamp in
  let components := default [] (address_components details) in
  ∀ k t (pick : AddressComponent → string) (missing : string),
    (k, t, pick, missing)
    ∈ [("zipcode", "postal_code", long_name, "N/A");
       ("city", "locality", long_name, "N/A");
       ("country", "country", long_name, "N/A");
       ("state", "administrative_area_level_1", short_name, "")] →
    (Forall (λ c, has_type t (component_types c) = false) components →
     get k lead = VStr missing)
    ∧ ∀ before c after,
        components = before ++ c :: after →
        has_type t (component_types c) = true →
        Forall (λ c, has_type t (component_types c) = false) after →
        get k lead = VStr (if decide (pick c = "") then missing else pick c).
Proof.
  intros lead components k t pick missing Hk. subst lead.
  unfold convertPlaceDetailsToLead. fold components.
  assert (Hor : ∀ s d : string,
            or_else (VStr s) (VStr d) = VStr (if decide (s = "") then d else s)).
  { intros s d. unfold or_else. simpl. case_bool_decide; by case_decide. }
  repeat (apply elem_of_cons in Hk as [[= -> -> -> ->] | Hk]);
    [..|by apply elem_of_nil in Hk]; read_property; rewrite Hor; unfold extract.
  - split.
    + intros Hnone. by rewrite (extract_fold_last "postal_code" long_name extractedZipcode).
    + intros before c after -> Hc Hafter.
      by rewrite (extract_fold_found "postal_code" long_name extractedZipcode).
  - split.
    + intros Hnone. by rewrite (extract_fold_last "locality" long_name extractedCity).
    + intros before c after -> Hc Hafter.
      by rewrite (extract_fold_found "locality" long_name extractedCity).
  - split.
    + intros Hnone. by rewrite (extract_fold_last "country" long_name extractedCountry).
    + intros before c after -> Hc Hafter.
      by rewrite (extract_fold_found "country" long_name extractedCountry).
  - split.
    + intros Hnone.
      by rewrite (extract_fold_last "administrative_area_level_1" short_name extractedState).
    + intros before c after -> Hc Hafter.
      by rewrite (extract_fold_found "administrative_area_level_1" short_name extractedState).
Qed.

Lemma address_last_component_decides_witness :
  get "zipcode" (convertPlaceDetailsToLead main_street (VStr "p1") 0%Qc) = VStr "78702".
Proof.
  refine (proj2 (address_last_component_decides main_street (VStr "p1") 0%Qc
                   "zipcode" "postal_code" long_name "N/A" _)
            [ {| long_name := "78701"; short_name := "78701";
                 component_types := ["postal_code"] |};
              {| long_name := "Austin"; short_name := "Austin";
                 component_types := ["locality"; "political"] |};
              {| long_name := "Texas"; short_name := "TX";
                 component_types := ["administrative_area_level_1"; "political"] |} ]
            {| long_name := "78702"; short_name := "78702";
               component_types := ["postal_code"] |} [] eq_refl eq_refl _).
  - apply list_elem_of_here.
  - apply Forall_nil_2.
Defined.

(** When one of the known types is among the types of a place, the
    industry is one of the eight named industries and does not depend on
    the order of the types; when none is, it is the first type in title
    case, or Business for a place without types. *)
Theorem industry_of_known_types (ts ts' : list string) :
  ts ≡ₚ ts' →
  ((∃ t, t ∈ industry_keywords ∧ t ∈ ts) →
   industry_of ts = industry_of ts' ∧ industry_of ts ∈ known_industries)
  ∧ ((∀ t, t ∈ industry_keywords → t ∉ ts) →
     industry_of ts = match ts with t :: _ => title_case t | [] => "Business" end).
Proof.
  intros Hperm.
  assert (Hkey : ∀ t, has_type t ts' = has_type t ts)
    by (intros t; symmetry; by apply has_type_permutation).
  unfold industry_of. rewrite !Hkey. split.
  - intros (t & Ht & Hts). unfold known_industries.
    repeat match goal with
           | |- context [has_type ?k ts] =>
             destruct (has_type k ts) eqn:?; simpl;
               [split; [done|]; apply (bool_decide_unpack _); by vm_compute|]
           end.
    apply has_type_elem in Hts. unfold industry_keywords in Ht.
    repeat (apply elem_of_cons in Ht as [-> | Ht]; [congruence|]).
    by apply elem_of_nil in Ht.
  - intros Hnone.
    assert (Hfalse : ∀ t, t ∈ industry_keywords → has_type t ts = false).
    { intros t Ht. destruct (has_type t ts) eqn:Hhas; [|done].
      apply has_type_elem in Hhas. by destruct (Hnone t Ht). }
    rewrite !Hfalse; [done|..]; apply (bool_decide_unpack _); by vm_compute.
Qed.

Lemma industry_of_known_types_witness :
  industry_of ["bakery"; "store"; "point_of_interest"]
  = industry_of ["point_of_interest"; "store"; "bakery"].
Proof.
  refine (proj1 (proj1 (industry_of_known_types ["bakery"; "store"; "point_of_interest"]
                          ["point_of_interest"; "store"; "bakery"] _) _)).
  - apply (Permutation_rev ["bakery"; "store"; "point_of_interest"]).
  - exists "store". split; apply (bool_decide_unpack _); by vm_compute.
Defined.

Lemma upper_word (c : Ascii.ascii) :
  is_word (upper c) = is_word c
  ∧ upper (upper c) = upper c
  ∧ (Ascii.eqb c underscore = false → Ascii.eqb (upper c) underscore = false).
Proof. by destruct c as [[] [] [] [] [] [] [] []]; vm_compute. Qed.

Lemma underscores_to_spaces_clean (s : string) :
  has_char underscore (underscores_to_spaces s) = false.
Proof.
  induction s as [|c s IH]; simpl; [done|]. rewrite IH, orb_false_r.
  fold underscore. destruct (Ascii.eqb c underscore) eqn:Hc; [done | apply Hc].
Qed.

Lemma capitalize_clean (s : string) :
  ∀ inside, has_char underscore s = false →
    has_char underscore (capitalize inside s) = false
    ∧ underscores_to_spaces (capitalize inside s) = capitalize inside s.
Proof.
  induction s as [|c s IH]; intros inside Hs; simpl in *; [done|].
  apply orb_false_elim in Hs as [Hc Hs].
  destruct (IH (is_word c) Hs) as [IHclean IHsame].
  rewrite IHclean, IHsame, orb_false_r. fold underscore.
  destruct (upper_word c) as (_ & _ & Hupper).
  destruct (is_word c && negb inside); by rewrite ?Hupper, ?Hc.
Qed.

Lemma capitalize_idempotent (s : string) :
  ∀ inside, capitalize inside (capitalize inside s) = capitalize inside s.
Proof.
  induction s as [|c s IH]; intros inside; simpl; [done|].
  destruct (upper_word c) as (Hword & Hupper & _).
  destruct (is_word c && negb inside) eqn:Hfirst.
  - rewrite Hword, Hfirst, Hupper. by rewrite IH.
  - rewrite Hfirst. by rewrite IH.
Qed.

Lemma capitalize_length (s : string) :
  ∀ inside, String.length (capitalize inside s) = String.length s.
Proof. induction s as [|c s IH]; intros inside; simpl; [done | by rewrite IH]. Qed.

Lemma underscores_to_spaces_length (s : string) :
  String.length (underscores_to_spaces s) = String.length s.
Proof. induction s as [|c s IH]; simpl; [done | by rewrite IH]. Qed.

(** The title case of a type has the length of the type and no
    underscore, and putting it in title case again changes nothing. *)
Theorem title_case_spec (s : string) :
  String.length (title_case s) = String.length s
  ∧ has_char underscore (title_case s) = false
  ∧ title_case (title_case s) = title_case s.
Proof.
  unfold title_case.
  destruct (capitalize_clean (underscores_to_spaces s) false
              (underscores_to_spaces_clean s)) as [Hclean Hsame].
  split; [by rewrite capitalize_length, underscores_to_spaces_length|].
  split; [done|]. by rewrite Hsame, capitalize_idempotent.
Qed.

(** ** Place search over mapped details *)

Lemma place_lead_mapped (details : Details) (id : value) (stamp : Qc) :
  <["source" := VStr "Google Places API"]>
    (<["placeId" := id]> (convertPlaceDetailsToLead details id stamp))
  = convertPlaceDetailsToLead details id stamp.
Proof.
  rewrite (insert_id (convertPlaceDetailsToLead details id stamp) "placeId" id).
  - apply insert_id. unfold convertPlaceDetailsToLead. by rewrite lookup_insert_eq.
  - unfold convertPlaceDetailsToLead.
    rewrite lookup_insert_ne by done. rewrite lookup_insert_ne by done.
    by rewrite lookup_insert_eq.
Qed.

Section mapped_search.
Context `{Builtins}.
Variable search : nat → SearchParams → http TextSearchData.
Variable result : nat → value → http (string * Details).
Variable stamp : nat → Qc.

Lemma leads_of_mapped (places : list Place) (lead : obj) :
  ∀ i, lead ∈ leads_of (mapped_places search result stamp) i places →
    ∃ j place details,
      place ∈ places
      ∧ result j (place_id place) = Resolved ("OK", details)
      ∧ lead = convertPlaceDetailsToLead details (place_id place) (stamp j).
Proof.
  induction places as [|place places IH]; intros i; simpl.
  - by intros ?%elem_of_nil.
  - intros [Hhere | Hlater]%elem_of_app.
    + unfold details_lead in Hhere. simpl in Hhere.
      destruct (result i (place_id place)) as [|[status details]] eqn:Hresult;
        [by apply elem_of_nil in Hhere|]. simpl in Hhere.
      destruct (String.eqb status "OK") eqn:Hstatus; [|by apply elem_of_nil in Hhere].
      apply String.eqb_eq in Hstatus as ->.
      apply list_elem_of_singleton in Hhere as ->.
      exists i, place, details. split; [apply list_elem_of_here|]. split; [done|].
      unfold place_lead. simpl. apply place_lead_mapped.
    + destruct (IH (S i) Hlater) as (j & p & details & Hp & Hj & Hlead).
      exists j, p, details. split; [by apply list_elem_of_further | done].
Qed.
End mapped_search.

(** Every lead that a place search returns is the lead that
    convertPlaceDetailsToLead builds from the result of a details request
    answered OK for one of the collected candidates; so every returned
    lead has a truthy phone, address, zipcode, city, country, website and
    rating. *)
Theorem scrapeGoogleMaps_leads_mapped `{Builtins}
    (search : nat → SearchParams → http TextSearchData)
    (result : nat → value → http (string * Details))
    (stamp : nat → Qc) (apiKey : option string) (query : string)
    (location : option string) (area : option SearchArea)
    (zipcode country : option string) (maxLeads : Z) (leads : list obj) :
  let api := mapped_places search result stamp in
  let run := scrapeGoogleMaps api apiKey query location area zipcode country maxLeads in
  run.2 = Some (Returned leads) →
  ∀ lead, lead ∈ leads →
    (∃ j id details,
       id ∈ place_id <$> collected api run.1
       ∧ result j id = Resolved ("OK", details)
       ∧ lead = convertPlaceDetailsToLead details id (stamp j))
    ∧ ∀ k, k ∈ defaulted_fields → truthy (get k lead) = true.
Proof.
  intros api run Hreturned lead Hlead.
  destruct (scrapeGoogleMaps_returned_shape api _ _ _ _ _ _ _ _ Hreturned)
    as (_ & pages & allPlaces & Hrun & Htrace & ->).
  destruct (fetch_details_spec api (slice0 allPlaces maxLeads) 0 []) as [Hleads Hrequests].
  rewrite Hleads in Hlead. simpl in Hlead.
  destruct (leads_of_mapped search result stamp _ _ 0 Hlead)
    as (j & place & details & Hplace & Hj & ->).
  split.
  - exists j, (place_id place), details. split; [|done].
    apply list_elem_of_fmap. exists place. split; [done|].
    fold run in Htrace. rewrite Htrace, collected_app.
    rewrite (collected_no_search api (fetch_details api 0 (slice0 allPlaces maxLeads) []).1)
      by (intros j' m p; apply fetch_details_no_search).
    pose proof (run_returned api _ _ _ _ _ _ _ Hrun) as Hall. simpl in Hall.
    rewrite app_nil_r, <- Hall.
    destruct (slice0_take allPlaces maxLeads) as [n Hn]. rewrite Hn in Hplace.
    by eapply elem_of_take_1.
  - intros k. apply defaulted_fields_truthy.
Qed.

Lemma scrapeGoogleMaps_leads_mapped_witness :
  ∃ leads,
    (scrapeGoogleMaps (H := sample_builtins) main_street_places (Some "key") "cafe"
       (Some "Austin") None None None 2).2 = Some (Returned leads)
    ∧ ∀ lead, lead ∈ leads → truthy (get "website" lead) = true.
Proof.
  eexists. split; [reflexivity|]. intros lead Hlead.
  refine (proj2 (scrapeGoogleMaps_leads_mapped (H := sample_builtins)
                   (textSearch endless_places) (λ _ _, Resolved ("OK", main_street))
                   (λ i, Qc_of_Z (Z.of_nat i)) (Some "key") "cafe" (Some "Austin")
                   None None None 2 _ eq_refl lead Hlead) "website" _).
  apply (bool_decide_unpack _). by vm_compute.
Defined.

(** ** Reverse geocoding *)

Lemma nonempty_append (a b : string) :
  Geocoding.nonempty a = true → Geocoding.nonempty (a +:+ b) = true.
Proof. by destruct a. Qed.

Lemma nonempty_false (a : string) : Geocoding.nonempty a = false → a = "".
Proof. by destruct a. Qed.

Lemma parts_no_locality (components : list AddressComponent) :
  ∀ p, Forall (λ c, has_type "locality" (component_types c) = false) components →
       Geocoding.city (fold_left Geocoding.part_step components p) = Geocoding.city p.
Proof.
  induction components as [|c components IH]; intros p Hnone; simpl; [done|].
  apply Forall_cons in Hnone as [Hc Hnone]. rewrite IH by done.
  unfold Geocoding.part_step. rewrite Hc.
  by repeat case_match.
Qed.

Lemma append_assoc (a b c : string) : (a +:+ b) +:+ c = a +:+ b +:+ c.
Proof.
  induction a as [|x a IH]; [done|].
  change (String x ((a +:+ b) +:+ c) = String x (a +:+ b +:+ c)). by f_equal.
Qed.

Lemma append_empty (a : string) : a +:+ "" = a.
Proof.
  induction a as [|x a IH]; [done|].
  change (String x (a +:+ "") = String x a). by f_equal.
Qed.

Lemma locationString_city (p : Geocoding.Parts) :
  Geocoding.nonempty (Geocoding.city p) = true →
  Geocoding.locationString p
  = Geocoding.city p
    +:+ (if Geocoding.nonempty (Geocoding.state p)
         then ", " +:+ Geocoding.state p else "")
    +:+ (if Geocoding.nonempty (Geocoding.country p)
         then ", " +:+ Geocoding.country p else "").
Proof.
  intros Hcity. unfold Geocoding.locationString. cbv zeta.
  change ("" +:+ Geocoding.city p) with (Geocoding.city p). rewrite Hcity.
  destruct (Geocoding.nonempty (Geocoding.state p)); simpl.
  - rewrite Hcity, (nonempty_append _ _ Hcity).
    destruct (Geocoding.nonempty (Geocoding.country p)); simpl.
    + by rewrite !append_assoc.
    + by rewrite !append_assoc, append_empty.
  - rewrite Hcity. destruct (Geocoding.nonempty (Geocoding.country p)); simpl; [done|].
    by rewrite append_empty.
Qed.

Lemma locationString_no_city (p : Geocoding.Parts) :
  Geocoding.city p = "" → Geocoding.locationString p = "".
Proof.
  intros Hcity. unfold Geocoding.locationString. cbv zeta. rewrite Hcity. simpl.
  by rewrite !andb_false_r.
Qed.

(** Reverse geocoding gives a text only with a key, an answer of status OK
    and a first result.  The text starts with the city, followed by the
    state and the country that were found; state and country are never
    reported without a city: when no component is a locality (or its name
    is empty) the text is the formatted address of the result. *)
Theorem reverseGeocode_spec (apiKey : option string)
    (response : http Geocoding.Data) (s : string) :
  Geocoding.reverseGeocode apiKey response = Some s →
  some_text apiKey = true
  ∧ ∃ data result more,
      response = Resolved data ∧ Geocoding.status data = "OK"
      ∧ Geocoding.results data = result :: more
      ∧ let p := Geocoding.parts (Geocoding.address_components result) in
        (Forall (λ c, has_type "locality" (component_types c) = false)
           (Geocoding.address_components result) → Geocoding.city p = "")
        ∧ (Geocoding.city p = "" → Geocoding.formatted_address result = Some s)
        ∧ (Geocoding.city p ≠ "" →
           s = Geocoding.city p
               +:+ (if Geocoding.nonempty (Geocoding.state p)
                    then ", " +:+ Geocoding.state p else "")
               +:+ (if Geocoding.nonempty (Geocoding.country p)
                    then ", " +:+ Geocoding.country p else "")).
Proof.
  unfold Geocoding.reverseGeocode. intros Hs.
  destruct (some_text apiKey); [|done]. split; [done|].
  cbn -[Geocoding.locationString Geocoding.parts] in Hs.
  destruct response as [|data]; [done|].
  destruct (String.eqb (Geocoding.status data) "OK") eqn:Hstatus; [|done].
  apply String.eqb_eq in Hstatus.
  destruct (Geocoding.results data) as [|result more] eqn:Hresults; [done|].
  exists data, result, more. split; [done|]. split; [done|]. split; [done|].
  set (p := Geocoding.parts (Geocoding.address_components result)) in *.
  split; [|split].
  - intros Hnone. subst p. unfold Geocoding.parts. by rewrite parts_no_locality.
  - intros Hcity. by rewrite (locationString_no_city p Hcity) in Hs.
  - intros Hcity.
    assert (Hnonempty : Geocoding.nonempty (Geocoding.city p) = true).
    { destruct (Geocoding.nonempty (Geocoding.city p)) eqn:Hn; [done|].
      by apply nonempty_false in Hn. }
    rewrite (locationString_city p Hnonempty) in Hs.
    rewrite (nonempty_append _ _ Hnonempty) in Hs. by injection Hs as <-.
Qed.

Lemma reverseGeocode_spec_witness :
  Geocoding.formatted_address rural_result = Some "Texas, USA".
Proof.
  destruct (reverseGeocode_spec (Some "key")
              (Resolved {| Geocoding.status := "OK"; Geocoding.results := [rural_result] |})
              "Texas, USA" eq_refl)
    as (_ & data & result & more & [= <-] & _ & [= <- <-] & Hnone & Haddress & _).
  apply Haddress, Hnone. by repeat constructor.
Defined.

(** ** Manual enrichment: the lookup *)

Section lookup_strategies.
Context `{Builtins}.
Variable apiKey : option string.
Variable lookups : Lookups.






End lookup_strategies.






(** The phone number of the sample body is known to the sample provider:
    one result, found by phone, and no other strategy runs. *)
Example discover_by_phone :
  ∃ f,
    discover (H := sample_builtins) (Some "key") phone_book (list_to_map phoned_in) = Some f
    ∧ searchMethod f = "phone"
    ∧ events f = [FindPlace (VStr "+1 512 555 0100"); Details_ (VStr "main-street")]
    ∧ List.length (scrapedResults f) = 1.
Proof. eexists. split; [reflexivity|]. by repeat split. Qed.

(** ** Manual enrichment without any key *)

Section offline.
Context `{Builtins}.

Lemma hasData_text (values : list value) :
  Forall (λ v, text_or_absent v = true) values → ∃ b, hasData values = Returned b.
Proof.
  induction values as [|v rest IH]; simpl; [by eexists|].
  intros [Hv Hrest]%Forall_cons. destruct (IH Hrest) as [b Hb].
  destruct v as [| | | | s | |]; simpl in *; try done; try by eexists.
  case_bool_decide; simpl; [|by eexists].
  case_bool_decide; by eexists.
Qed.

Lemma get_text (body : list (string * value)) (k : string) :
  Forall (λ v, text_or_absent v = true) (body.*2) →
  text_or_absent (get k (list_to_map body)) = true.
Proof.
  intros Htext. unfold get.
  destruct ((list_to_map body : obj) !! k) as [v|] eqn:Hk; simpl; [|done].
  apply elem_of_list_to_map_2 in Hk.
  rewrite Forall_forall in Htext. apply Htext.
  apply list_elem_of_fmap. by exists (k, v).
Qed.
End offline.

(** Without a Places key and without a usable AI key, a body of texts of
    which one is not blank is still answered 200, without any request: the
    lead is the typed one (named Unknown Business when no name was typed),
    verified with mock data and marked as manual. *)
Theorem enrich_manual_offline `{Builtins} (apiKey : option string) (lookups : Lookups)
    (ai : AiServices) (random : nat → Qc) (body : list (string * value))
    (now0 now1 : Z) :
  some_text apiKey = false →
  configured (ANTHROPIC_API_KEY ai) "your_anthropic_claude_api_key_here" = false →
  configured (OPENAI_API_KEY ai) "your_openai_api_key_here" = false →
  Forall (λ v, text_or_absent v = true) (body.*2) →
  ¬ Forall (λ v, blank v = true) (body.*2) →
  ∃ final,
    enrich_manual_handler apiKey lookups ai random body now0 now1
    = Some ([], Status200 final)
    ∧ get "enrichmentSource" final = VStr "Manual + AI"
    ∧ get "scrapedDataAvailable" final = VBool false
    ∧ get "searchMethod" final = VStr "unknown"
    ∧ get "aiSource" final = VStr "Mock Data"
    ∧ get "verified" final = VBool true
    ∧ get "id" final = num now0
    ∧ get "companyName" final
      = or_else (get "companyName" (list_to_map body)) (VStr "Unknown Business")
    ∧ ∀ k, k ∈ ["phone"; "address"; "zipcode"; "city"; "country"] →
        get k final = get k (list_to_map body).
Proof.
  intros Hkey Hclaude Hchatgpt Htext Hdata.
  destruct (hasData_text _ Htext) as [b Hb].
  assert (b = true) as ->.
  { destruct b; [done|]. by apply hasData_false in Hb. }
  unfold enrich_manual_handler, discover. rewrite Hb, Hkey. simpl.
  unfold enrich_manual. rewrite Hb. simpl.
  set (manualData := list_to_map body : obj).
  set (lead := <["companyName" :=
                   or_else (get "companyName" manualData) (VStr "Unknown Business")]>
                 (<["id" := num now0]> manualData)).
  assert (Hname : text_or_absent (get "companyName" lead) = true).
  { subst lead. rewrite get_insert_eq. pose proof (get_text body "companyName" Htext) as Ht.
    fold manualData in Ht. unfold or_else.
    by destruct (get "companyName" manualData) as [| | | | s | |]; simpl in *;
      try case_bool_decide. }
  rewrite (verifyLeadWithAI_mock ai random lead "both").
  2: { unfold claudeResult. simpl. apply verifyWithClaude_fails. by left. }
  2: { unfold chatGPTResult. simpl. apply verifyWithChatGPT_fails. by left. }
  destruct (mock_lead_returns random lead Hname)
    as (verified & -> & Hverified & Hsource & _ & _ & _ & Hkept).
  eexists. split; [reflexivity|]. read_property.
  assert (Hother : ∀ k, k ∈ ["id"; "companyName"; "phone"; "address"; "zipcode"; "city";
                             "country"] → get k verified = get k lead).
  { intros k Hk. apply Hkept.
    repeat (apply elem_of_cons in Hk as [-> | Hk]); [..|by apply elem_of_nil in Hk];
      apply (bool_decide_unpack _); by vm_compute. }
  split; [done|]. split; [done|]. split; [done|]. split; [done|]. split; [done|].
  split; [|split].
  - rewrite Hother by (apply (bool_decide_unpack _); by vm_compute).
    subst lead. by read_property.
  - rewrite Hother by (apply (bool_decide_unpack _); by vm_compute).
    subst lead. by read_property.
  - intros k Hk.
    repeat (apply elem_of_cons in Hk as [-> | Hk]); [..|by apply elem_of_nil in Hk];
      read_property;
      (rewrite Hother by (apply (bool_decide_unpack _); by vm_compute));
      subst lead; by read_property.
Qed.

Lemma enrich_manual_offline_witness :
  ∃ final,
    enrich_manual_handler (H := sample_builtins) None phone_book no_ai (λ _, 0%Qc)
      phoned_in 7 8 = Some ([], Status200 final)
    ∧ get "companyName" final = VStr "Unknown Business".
Proof.
  destruct (enrich_manual_offline (H := sample_builtins) None phone_book no_ai (λ _, 0%Qc)
              phoned_in 7 8 eq_refl eq_refl eq_refl)
    as (final & Hfinal & _ & _ & _ & _ & _ & _ & Hname & _).
  - by repeat constructor.
  - intros Hblank. apply Forall_cons in Hblank as [_ Hblank].
    apply Forall_cons in Hblank as [Hphone _]. by vm_compute in Hphone.
  - exists final. split; [done|]. rewrite Hname. reflexivity.
Defined.
